(** * audio_cutter.py: time parsing and segment editing

    A shallow embedding of [src/audio_cutter.py] and the proofs of the
    properties its specification states.

    Python integers are [Z].  Python floats are IEEE 754 binary64 numbers:
    a finite float is the rational number it denotes, and every arithmetic
    operation returns the exact result rounded to the nearest binary64
    number, ties to even, as IEEE 754 prescribes.  Python strings are
    [string]s of ASCII characters, byte strings are [list byte].  Python
    exceptions are the [Raise] results of an error monad. *)

From Stdlib Require Import ZArith QArith Qround Qabs Qpower Lia Lra Psatz.
From Stdlib Require Import List String Ascii Bool.
From Stdlib Require Import Init.Byte.
From Stdlib Require Import SpecFloat.
Import ListNotations.

Open Scope Z_scope.

(* ================================================================== *)
(** * Exceptions *)
(* ================================================================== *)

(** The exceptions the program can meet.  [WaveError] is [wave.Error]. *)
Inductive exn : Type :=
| ValueError
| OverflowError
| ZeroDivisionError
| TypeError
| FileNotFoundError
| WaveError.

Inductive result (A : Type) : Type :=
| Ok (a : A)
| Raise (e : exn).

Arguments Ok {A} a.
Arguments Raise {A} e.

Definition bind {A B : Type} (c : result A) (k : A -> result B) : result B :=
  match c with
  | Ok a => k a
  | Raise e => Raise e
  end.

Notation "x <- c ;; k" := (bind c (fun x => k))
  (at level 61, c at next level, right associativity).

Definition raises {A : Type} (c : result A) : Prop :=
  exists e, c = Raise e.

Definition is_ok {A : Type} (c : result A) : bool :=
  match c with Ok _ => true | Raise _ => false end.

(* ================================================================== *)
(** * Binary64 floating point *)
(* ================================================================== *)

Module Float.

(** Precision and exponent range of binary64. *)
Definition prec : Z := 53.
Definition emin : Z := -1022.
Definition emax : Z := 1024.

Definition pow2 (e : Z) : Q := (2 ^ e)%Q.

(** [ilog2 x], for [0 < x]: the exponent [e] with [2^e <= x < 2^(e+1)]. *)
Definition ilog2 (x : Q) : Z :=
  let e0 := Z.log2 (Qnum x) - Z.log2 (Zpos (Qden x)) in
  if Qle_bool (pow2 e0) x then e0 else e0 - 1.

(** Nearest integer, ties to the even one. *)
Definition rne (x : Q) : Z :=
  let f := Qfloor x in
  match (x - inject_Z f ?= 1 # 2)%Q with
  | Lt => f
  | Gt => f + 1
  | Eq => if Z.even f then f else f + 1
  end.

(** The distance between neighbouring binary64 numbers around [x]:
    [2^(e - 52)] in the binade [2^e <= |x| < 2^(e+1)], and the constant
    [2^(-1074)] below [2^(-1022)] (subnormal numbers). *)
Definition ulp (x : Q) : Q :=
  pow2 (Z.max (ilog2 (Qabs x)) emin - (prec - 1)).

(** Rounding to nearest, ties to even, with an unbounded exponent. *)
Definition round_real (x : Q) : Q :=
  if Qeq_bool x 0 then 0%Q
  else Qred (inject_Z (rne (x / ulp x)) * ulp x).

(** A float: a finite number (the sign of zero is not kept: no operation
    of this program observes it), an infinity, or a NaN. *)
Inductive float : Type :=
| FFin (q : Q)
| FInf (neg : bool)
| FNan.

(** Rounding to binary64: a result of magnitude [2^1024] or more
    overflows to an infinity. *)
Definition round64 (x : Q) : float :=
  let y := round_real x in
  if Qle_bool (pow2 emax) (Qabs y) then FInf (Qle_bool y 0) else FFin y.

Definition is_neg (x : float) : bool :=
  match x with
  | FFin q => negb (Qle_bool 0 q)
  | FInf neg => neg
  | FNan => false
  end.

Definition is_zero (x : float) : bool :=
  match x with
  | FFin q => Qeq_bool q 0
  | _ => false
  end.

(** [x * y] *)
Definition mul (x y : float) : float :=
  match x, y with
  | FNan, _ | _, FNan => FNan
  | FFin a, FFin b => round64 (a * b)
  | FInf s, FInf t => FInf (xorb s t)
  | FInf s, FFin b =>
      if Qeq_bool b 0 then FNan else FInf (xorb s (is_neg y))
  | FFin a, FInf t =>
      if Qeq_bool a 0 then FNan else FInf (xorb (is_neg x) t)
  end.

(** [x + y] *)
Definition add (x y : float) : float :=
  match x, y with
  | FNan, _ | _, FNan => FNan
  | FFin a, FFin b => round64 (a + b)
  | FInf s, FInf t => if Bool.eqb s t then FInf s else FNan
  | FInf s, FFin _ => FInf s
  | FFin _, FInf t => FInf t
  end.

(** [x - y] *)
Definition opp (x : float) : float :=
  match x with
  | FFin a => FFin (- a)
  | FInf s => FInf (negb s)
  | FNan => FNan
  end.

Definition sub (x y : float) : float := add x (opp y).

(** [x / y] on floats, for a divisor that is not zero. *)
Definition div (x y : float) : float :=
  match x, y with
  | FNan, _ | _, FNan => FNan
  | FFin a, FFin b => round64 (a / b)
  | FInf _, FInf _ => FNan
  | FInf s, FFin _ => FInf (xorb s (is_neg y))
  | FFin _, FInf _ => FFin 0
  end.

(** Truncation toward zero. *)
Definition Qtrunc (q : Q) : Z :=
  if Qle_bool 0 q then Qfloor q else Qceiling q.

(** The value of a [spec_float] of the Standard Library, to compare this
    model with the library's executable specification of IEEE 754. *)
Definition of_spec_float (f : spec_float) : float :=
  match f with
  | S754_zero _ => FFin 0
  | S754_infinity s => FInf s
  | S754_nan => FNan
  | S754_finite s m e =>
      FFin (Qred ((if s then -1 else 1) * inject_Z (Zpos m) * pow2 e))
  end.

(** An integer as a [spec_float], exact below [2^53]. *)
Definition spec_of_Z (z : Z) : spec_float :=
  binary_normalize prec emax z 0 false.

(** The quotient of two integers in [SpecFloat]. *)
Definition sf_div (a b : Z) : spec_float :=
  SFdiv prec emax (spec_of_Z a) (spec_of_Z b).

(** The exponent of the binade of a positive [x], not below [emin]. *)
Definition expo (x : Q) : Z := Z.max (ilog2 x) emin.

(** The unit roundoff [2^(-53)]. *)
Definition eps : Q := 1 # 9007199254740992.

End Float.

Import Float.

(* ================================================================== *)
(** * Python numbers *)
(* ================================================================== *)

(** A small integer literal used as a float operand ([1000], [60],
    [3600]): the conversion is exact. *)
Definition lit (n : Z) : float := FFin (inject_Z n).

(** [float(n)] for an integer [n], also the implicit conversion of the
    integer operand of [float * int]. *)
Definition float_of_int (n : Z) : result float :=
  match round64 (inject_Z n) with
  | FFin q => Ok (FFin q)
  | _ => Raise OverflowError
  end.

(** [a / b] on integers: the quotient, correctly rounded. *)
Definition int_truediv (a b : Z) : result float :=
  if b =? 0 then Raise ZeroDivisionError
  else
    match round64 (inject_Z a / inject_Z b) with
    | FFin q => Ok (FFin q)
    | _ => Raise OverflowError
    end.

(** [x * n] for a float [x] and an integer [n]. *)
Definition mul_int (x : float) (n : Z) : result float :=
  y <- float_of_int n ;; Ok (mul x y).

(** [int(x)] for a float [x]. *)
Definition int_of_float (x : float) : result Z :=
  match x with
  | FFin q => Ok (Qtrunc q)
  | FInf _ => Raise OverflowError
  | FNan => Raise ValueError
  end.

(* ================================================================== *)
(** * Python strings *)
(* ================================================================== *)

Definition str : Type := list ascii.

Definition ascii_eqb (a b : ascii) : bool := Ascii.eqb a b.

Fixpoint str_eqb (a b : str) : bool :=
  match a, b with
  | [], [] => true
  | x :: a', y :: b' => ascii_eqb x y && str_eqb a' b'
  | _, _ => false
  end.

(** [s.endswith(suffix)] *)
Definition endswith (s suffix : str) : bool :=
  (List.length suffix <=? List.length s)%nat
  && str_eqb (skipn (List.length s - List.length suffix) s) suffix.

(** [s[:-k]] for [k > 0] *)
Definition slice_to_neg (s : str) (k : nat) : str :=
  firstn (List.length s - k) s.

(** [c in s] for a one-character string [c] *)
Definition contains (c : ascii) (s : str) : bool :=
  existsb (ascii_eqb c) s.

(** [s.split(c)] for a one-character separator [c] *)
Fixpoint split (c : ascii) (s : str) : list str :=
  match s with
  | [] => [[]]
  | x :: s' =>
      if ascii_eqb x c then [] :: split c s'
      else
        match split c s' with
        | p :: ps => (x :: p) :: ps
        | [] => [[x]]
        end
  end.

(** Whitespace, as [float] strips it from an ASCII string: the characters
    9 to 13 and the space. *)
Definition is_space (c : ascii) : bool :=
  let n := nat_of_ascii c in
  ((9 <=? n) && (n <=? 13) || (n =? 32))%nat.

Definition is_digit (c : ascii) : bool :=
  let n := nat_of_ascii c in
  ((48 <=? n) && (n <=? 57))%nat.

Definition digit_value (c : ascii) : Z := Z.of_nat (nat_of_ascii c) - 48.

Fixpoint lstrip (s : str) : str :=
  match s with
  | c :: s' => if is_space c then lstrip s' else s
  | [] => []
  end.

Definition strip (s : str) : str := rev (lstrip (rev (lstrip s))).

(** Underscores in a numeric literal: each one stands between two
    digits.  The result is the literal without them. *)
Fixpoint remove_underscores (prev : ascii) (s : str) : option str :=
  match s with
  | [] => if ascii_eqb prev "_" then None else Some []
  | c :: s' =>
      if ascii_eqb c "_" then
        if is_digit prev then remove_underscores c s' else None
      else if ascii_eqb prev "_" && negb (is_digit c) then None
      else option_map (cons c) (remove_underscores c s')
  end.

(** The longest prefix of digits, and the rest. *)
Fixpoint span_digits (s : str) : str * str :=
  match s with
  | c :: s' =>
      if is_digit c then let (ds, r) := span_digits s' in (c :: ds, r)
      else ([], s)
  | [] => ([], [])
  end.

Definition digits_value (ds : str) : Z :=
  fold_left (fun acc c => 10 * acc + digit_value c) ds 0.

(** An optional sign: [true] for a minus sign. *)
Definition take_sign (s : str) : bool * str :=
  match s with
  | "+"%char :: s' => (false, s')
  | "-"%char :: s' => (true, s')
  | _ => (false, s)
  end.

Definition lower (c : ascii) : ascii :=
  let n := nat_of_ascii c in
  if ((65 <=? n) && (n <=? 90))%nat then ascii_of_nat (n + 32) else c.

Definition str_of (s : string) : str := list_ascii_of_string s.

(** The exponent part of a decimal literal: nothing, or [e] or [E], an
    optional sign and at least one digit, up to the end of the string. *)
Definition parse_exponent (s : str) : option Z :=
  match s with
  | [] => Some 0
  | c :: s' =>
      if ascii_eqb (lower c) "e" then
        let (neg, s'') := take_sign s' in
        let (ds, rest) := span_digits s'' in
        match ds, rest with
        | _ :: _, [] => Some (if neg then - digits_value ds else digits_value ds)
        | _, _ => None
        end
      else None
  end.

Definition pow10 (e : Z) : Q := (inject_Z 10 ^ e)%Q.

(** The digits after the decimal point, when there is one, and the rest. *)
Definition fraction_part (s : str) : str * str :=
  match s with
  | "."%char :: t => span_digits t
  | _ => ([], s)
  end.

(** A decimal literal without sign: digits, an optional point and digits
    (at least one digit in all), and an optional exponent.  The result is
    the exact value. *)
Definition parse_decimal (s : str) : option Q :=
  let (ip, r1) := span_digits s in
  let (fp, r2) := fraction_part r1 in
  match ip ++ fp with
  | [] => None
  | ds =>
      match parse_exponent r2 with
      | Some e =>
          Some (Qred (inject_Z (digits_value ds)
                      * pow10 (e - Z.of_nat (List.length fp))))
      | None => None
      end
  end.

(** [float(s)] for a string [s] of ASCII characters: surrounding
    whitespace is dropped, then come an optional sign and [inf],
    [infinity], [nan] (in any case) or a decimal literal, which is rounded
    correctly.  Anything else is a [ValueError]. *)
Definition float_of_str (s : str) : result float :=
  match remove_underscores " " (strip s) with
  | None => Raise ValueError
  | Some t =>
      let (neg, u) := take_sign t in
      let l := map lower u in
      if str_eqb l (str_of "inf") || str_eqb l (str_of "infinity")
      then Ok (FInf neg)
      else if str_eqb l (str_of "nan") then Ok FNan
      else
        match parse_decimal u with
        | Some q => Ok (round64 (if neg then - q else q))
        | None => Raise ValueError
        end
  end.

(** [int(s)] for a string [s], in base 10. *)
Definition int_of_str (s : str) : result Z :=
  match remove_underscores " " (strip s) with
  | None => Raise ValueError
  | Some t =>
      let (neg, u) := take_sign t in
      let (ds, rest) := span_digits u in
      match ds, rest with
      | _ :: _, [] => Ok (if neg then - digits_value ds else digits_value ds)
      | _, _ => Raise ValueError
      end
  end.

(* ================================================================== *)
(** * The time parser *)
(* ================================================================== *)

(** What [parse_time] returns: an integer, or [None] when the function
    ends without a [return]. *)
Inductive pyval : Type :=
| PyInt (z : Z)
| PyNone.

Definition ret_int (c : result Z) : result pyval :=
  n <- c ;; Ok (PyInt n).

Definition parse_time (time_str : string) : result pyval :=
  let s := str_of time_str in
  if endswith s (str_of "s") then
    ret_int (x <- float_of_str (slice_to_neg s 1) ;;
             int_of_float (mul x (lit 1000)))
  else if endswith s (str_of "ms") then
    ret_int (int_of_str (slice_to_neg s 2))
  else if endswith s (str_of "m") then
    ret_int (x <- float_of_str (slice_to_neg s 1) ;;
             int_of_float (mul (mul x (lit 60)) (lit 1000)))
  else if contains ":" s then
    match split ":" s with
    | [minutes; seconds] =>
        ret_int (m <- float_of_str minutes ;;
                 sec <- float_of_str seconds ;;
                 int_of_float (add (mul (mul m (lit 60)) (lit 1000))
                                   (mul sec (lit 1000))))
    | [hours; minutes; seconds] =>
        ret_int (h <- float_of_str hours ;;
                 m <- float_of_str minutes ;;
                 sec <- float_of_str seconds ;;
                 int_of_float
                   (add (add (mul (mul h (lit 3600)) (lit 1000))
                             (mul (mul m (lit 60)) (lit 1000)))
                        (mul sec (lit 1000))))
    | _ => Ok PyNone
    end
  else
    ret_int (x <- float_of_str s ;; int_of_float (mul x (lit 1000))).

(* ================================================================== *)
(** * The [wave] module *)
(* ================================================================== *)

(** An open [wave.Wave_read]: the parameters read from the header, the
    bytes of the data chunk and the current position, in frames. *)
Record Wave_read : Type := {
  framerate : Z;
  nchannels : Z;
  sampwidth : Z;
  nframes : Z;
  data : list byte;
  soundpos : Z
}.

Definition framesize (w : Wave_read) : Z := nchannels w * sampwidth w.

Definition set_soundpos (w : Wave_read) (pos : Z) : Wave_read :=
  {| framerate := framerate w; nchannels := nchannels w;
     sampwidth := sampwidth w; nframes := nframes w;
     data := data w; soundpos := pos |}.

(** [w.setpos(pos)] *)
Definition setpos (w : Wave_read) (pos : Z) : result Wave_read :=
  if (pos <? 0) || (nframes w <? pos) then Raise WaveError
  else Ok (set_soundpos w pos).

(** [w.readframes(n)]: at most [n] frames from the current position; a
    negative [n] reads up to the end of the data chunk.  The bytes are
    those of the file, as on a little-endian machine. *)
Definition readframes (w : Wave_read) (n : Z) : list byte * Wave_read :=
  if n =? 0 then ([], w)
  else
    let rest := skipn (Z.to_nat (soundpos w * framesize w)) (data w) in
    let size := n * framesize w in
    let chunk := if size <? 0 then rest else firstn (Z.to_nat size) rest in
    (chunk,
     set_soundpos w (soundpos w + Z.of_nat (List.length chunk) / framesize w)).

(** What the [wave] module guarantees of a complete file it has opened:
    the header fields are 16 and 32 bit numbers, there is at least one
    channel and one byte per sample, the data chunk holds less than [2^32]
    bytes and the number of frames is its length divided by the frame
    size. *)
Record wave_ok (w : Wave_read) : Prop := {
  ok_framerate : 0 <= framerate w < 2 ^ 32;
  ok_nchannels : 0 < nchannels w < 2 ^ 16;
  ok_sampwidth : 0 < sampwidth w <= 2 ^ 13;
  ok_data : Z.of_nat (List.length (data w)) < 2 ^ 32;
  ok_nframes : nframes w = Z.of_nat (List.length (data w)) / framesize w
}.

(* ================================================================== *)
(** * The segment editor *)
(* ================================================================== *)

(** The cutter of the [wave] backend: the attributes [__init__] sets. *)
Record WaveCutter : Type := {
  wave_file : Wave_read;
  sample_rate : Z;
  channels : Z;
  sample_width : Z;
  total_frames : Z;
  duration_ms : Z
}.

Definition set_wave_file (self : WaveCutter) (w : Wave_read) : WaveCutter :=
  {| wave_file := w; sample_rate := sample_rate self;
     channels := channels self; sample_width := sample_width self;
     total_frames := total_frames self; duration_ms := duration_ms self |}.

(** [int((ms / 1000) * sample_rate)], the expression by which each of the
    four [_wav_] methods turns a time into a frame index. *)
Definition frame_of_ms (ms rate : Z) : result Z :=
  x <- int_truediv ms 1000 ;;
  y <- mul_int x rate ;;
  int_of_float y.

(** [int((total_frames / sample_rate) * 1000)] *)
Definition duration_of_frames (frames rate : Z) : result Z :=
  x <- int_truediv frames rate ;;
  int_of_float (mul x (lit 1000)).

(** The methods of the [wave] backend return the bytes read, and leave the
    file at a new position. *)
Definition _wav_cut_from_front (self : WaveCutter) (duration_ms : Z)
  : result (list byte * WaveCutter) :=
  start_frame <- frame_of_ms duration_ms (sample_rate self) ;;
  w <- setpos (wave_file self) start_frame ;;
  let remaining_frames := total_frames self - start_frame in
  let (frames, w') := readframes w remaining_frames in
  Ok (frames, set_wave_file self w').

Definition _wav_cut_from_back (self : WaveCutter) (duration_ms : Z)
  : result (list byte * WaveCutter) :=
  cut_frames <- frame_of_ms duration_ms (sample_rate self) ;;
  let keep_frames := total_frames self - cut_frames in
  w <- setpos (wave_file self) 0 ;;
  let (frames, w') := readframes w keep_frames in
  Ok (frames, set_wave_file self w').

Definition _wav_cut_from_middle (self : WaveCutter) (start_ms end_ms : Z)
  : result (list byte * WaveCutter) :=
  start_frame <- frame_of_ms start_ms (sample_rate self) ;;
  end_frame <- frame_of_ms end_ms (sample_rate self) ;;
  w0 <- setpos (wave_file self) 0 ;;
  let (before_data, w1) := readframes w0 start_frame in
  w2 <- setpos w1 end_frame ;;
  let (after_data, w3) := readframes w2 (total_frames self - end_frame) in
  Ok (before_data ++ after_data, set_wave_file self w3).

Definition _wav_extract_segment (self : WaveCutter) (start_ms end_ms : Z)
  : result (list byte * WaveCutter) :=
  start_frame <- frame_of_ms start_ms (sample_rate self) ;;
  end_frame <- frame_of_ms end_ms (sample_rate self) ;;
  w <- setpos (wave_file self) start_frame ;;
  let (frames, w') := readframes w (end_frame - start_frame) in
  Ok (frames, set_wave_file self w').

(** The [wave] branch of [__init__], once [wave.open] has returned [w]:
    any exception of the block becomes a [ValueError]. *)
Definition init_wave (w : Wave_read) : result WaveCutter :=
  match duration_of_frames (nframes w) (framerate w) with
  | Ok d =>
      Ok {| wave_file := w; sample_rate := framerate w;
            channels := nchannels w; sample_width := sampwidth w;
            total_frames := nframes w; duration_ms := d |}
  | Raise _ => Raise ValueError
  end.

(* ================================================================== *)
(** * [pathlib] and the [wave] writer *)
(* ================================================================== *)

(** A [pathlib.PurePosixPath]: the root ([/], [//] or none) and the
    components after it. *)
Record PurePath : Type := {
  root : str;
  parts : list str
}.

Fixpoint count_leading (c : ascii) (s : str) : nat :=
  match s with
  | x :: s' => if ascii_eqb x c then S (count_leading c s') else O
  | [] => O
  end.

(** [Path(s)]: slashes that repeat, and the components [.], are dropped;
    exactly two slashes in front are kept. *)
Definition Path (s : str) : PurePath :=
  {| root := match count_leading "/" s with
             | O => []
             | 2%nat => str_of "//"
             | _ => str_of "/"
             end;
     parts := filter (fun p => negb (str_eqb p [] || str_eqb p (str_of ".")))
                     (split "/" s) |}.

Fixpoint join (sep : ascii) (l : list str) : str :=
  match l with
  | [] => []
  | [p] => p
  | p :: l' => p ++ sep :: join sep l'
  end.

(** [str(p)] *)
Definition path_str (p : PurePath) : str :=
  match root p, parts p with
  | [], [] => str_of "."
  | r, ps => r ++ join "/" ps
  end.

(** [p.name]: the last component, or the empty string. *)
Definition path_name (p : PurePath) : str := last (parts p) [].

(** [s.rfind(c)]: the index of the last [c] in [s]. *)
Fixpoint rfind (c : ascii) (s : str) : option nat :=
  match s with
  | [] => None
  | x :: s' =>
      match rfind c s' with
      | Some i => Some (S i)
      | None => if ascii_eqb x c then Some O else None
      end
  end.

(** [p.suffix]: the name from its last dot on, when that dot is neither
    the first nor the last character of the name. *)
Definition path_suffix (p : PurePath) : str :=
  let name := path_name p in
  match rfind "." name with
  | Some i =>
      if (0 <? i)%nat && (i <? List.length name - 1)%nat then skipn i name
      else []
  | None => []
  end.

(** [p.with_suffix(suffix)], for a suffix such as [.wav]. *)
Definition with_suffix (p : PurePath) (suffix : str) : result PurePath :=
  let name := path_name p in
  match name with
  | [] => Raise ValueError
  | _ =>
      let old_suffix := path_suffix p in
      let name' :=
        match old_suffix with
        | [] => name ++ suffix
        | _ => slice_to_neg name (List.length old_suffix) ++ suffix
        end in
      Ok {| root := root p; parts := removelast (parts p) ++ [name'] |}
  end.

(** A file that [wave.Wave_write] has written: a RIFF/WAVE container of
    linear PCM with its parameters and frames. *)
Record WavFile : Type := {
  wav_nchannels : Z;
  wav_sampwidth : Z;
  wav_framerate : Z;
  wav_frames : list byte
}.

(** The [with wave.open(path, 'wb')] block of [save_audio]: the writer
    accepts at least one channel, one to four bytes per sample and a
    positive frame rate.  The file system takes every write. *)
Definition wave_write (nchannels sampwidth framerate : Z) (frames : list byte)
  : result WavFile :=
  if nchannels <? 1 then Raise WaveError
  else if (sampwidth <? 1) || (4 <? sampwidth) then Raise WaveError
  else if framerate <=? 0 then Raise WaveError
  else Ok {| wav_nchannels := nchannels; wav_sampwidth := sampwidth;
             wav_framerate := framerate; wav_frames := frames |}.

Section Cutter.

(** pydub's [AudioSegment], an external library: its length in
    milliseconds [len(a)], its slices [a[i:j]] by milliseconds (a bound
    may be absent) and the concatenation [a + b]. *)
Variable AudioSegment : Type.
Variable seg_len : AudioSegment -> Z.
Variable seg_slice : AudioSegment -> option Z -> option Z -> AudioSegment.
Variable seg_add : AudioSegment -> AudioSegment -> AudioSegment.

(** An [AudioCutter] has one of two shapes, by its [backend]. *)
Inductive AudioCutter : Type :=
| Pydub (audio : AudioSegment)
| Wave (self : WaveCutter).

(** What the cutting methods return: an [AudioSegment] or raw frames. *)
Inductive AudioData : Type :=
| Segment (a : AudioSegment)
| Frames (b : list byte).

(** What [__init__] finds outside the program: whether the input file
    exists, whether pydub was imported, the result of
    [AudioSegment.from_file] and the result of [wave.open]. *)
Record Env : Type := {
  file_exists : bool;
  PYDUB_AVAILABLE : bool;
  from_file : result AudioSegment;
  wave_open : result Wave_read
}.

Definition AudioCutter_init (env : Env) (input_file : string)
  : result AudioCutter :=
  if negb (file_exists env) then Raise FileNotFoundError
  else if PYDUB_AVAILABLE env then
    match from_file env with
    | Ok audio => Ok (Pydub audio)
    | Raise _ => Raise ValueError
    end
  else if negb (endswith (map lower (path_str (Path (str_of input_file))))
                        (str_of ".wav"))
  then Raise ValueError
  else
    match w <- wave_open env ;; init_wave w with
    | Ok self => Ok (Wave self)
    | Raise _ => Raise ValueError
    end.

Definition get_duration (self : AudioCutter) : Z :=
  match self with
  | Pydub audio => seg_len audio
  | Wave self => duration_ms self
  end.

Definition wav_result (r : result (list byte * WaveCutter))
  : result (AudioData * AudioCutter) :=
  p <- r ;; Ok (Frames (fst p), Wave (snd p)).

Definition cut_from_front (self : AudioCutter) (duration_ms : Z)
  : result (AudioData * AudioCutter) :=
  if duration_ms <=? 0 then Raise ValueError
  else if get_duration self <=? duration_ms then Raise ValueError
  else
    match self with
    | Pydub audio => Ok (Segment (seg_slice audio (Some duration_ms) None), self)
    | Wave w => wav_result (_wav_cut_from_front w duration_ms)
    end.

Definition cut_from_back (self : AudioCutter) (duration_ms : Z)
  : result (AudioData * AudioCutter) :=
  if duration_ms <=? 0 then Raise ValueError
  else if get_duration self <=? duration_ms then Raise ValueError
  else
    match self with
    | Pydub audio =>
        Ok (Segment (seg_slice audio None (Some (- duration_ms))), self)
    | Wave w => wav_result (_wav_cut_from_back w duration_ms)
    end.

Definition cut_from_middle (self : AudioCutter) (start_ms end_ms : Z)
  : result (AudioData * AudioCutter) :=
  if (start_ms <? 0) || (end_ms <? 0) then Raise ValueError
  else if end_ms <=? start_ms then Raise ValueError
  else if get_duration self <? end_ms then Raise ValueError
  else
    match self with
    | Pydub audio =>
        let before_cut := seg_slice audio None (Some start_ms) in
        let after_cut := seg_slice audio (Some end_ms) None in
        Ok (Segment (seg_add before_cut after_cut), self)
    | Wave w => wav_result (_wav_cut_from_middle w start_ms end_ms)
    end.

Definition extract_segment (self : AudioCutter) (start_ms end_ms : Z)
  : result (AudioData * AudioCutter) :=
  if (start_ms <? 0) || (end_ms <? 0) then Raise ValueError
  else if end_ms <=? start_ms then Raise ValueError
  else if get_duration self <? end_ms then Raise ValueError
  else
    match self with
    | Pydub audio =>
        Ok (Segment (seg_slice audio (Some start_ms) (Some end_ms)), self)
    | Wave w => wav_result (_wav_extract_segment w start_ms end_ms)
    end.

(** What [save_audio] leaves on disk: a file that pydub has encoded in
    some format, or a WAV file. *)
Inductive SavedFile : Type :=
| Exported (a : AudioSegment) (format : str)
| Wav (f : WavFile).

(** Whether [a.export(path, format=fmt)] of pydub succeeds. *)
Variable export_ok : AudioSegment -> str -> str -> bool.

(** [save_audio] returns the path it wrote to; the model adds the file
    written there.  [format] is [None] when [--format] is absent. *)
Definition save_audio (self : AudioCutter) (audio_data : AudioData)
    (output_file : string) (format : option string)
  : result (PurePath * SavedFile) :=
  let output_path := Path (str_of output_file) in
  match self with
  | Pydub _ =>
      let format :=
        match format with
        | Some f => str_of f
        | None =>
            match path_suffix output_path with
            | [] => str_of "mp3"
            | sfx => map lower (skipn 1 sfx)
            end
        end in
      match audio_data with
      | Segment a =>
          if export_ok a (path_str output_path) format
          then Ok (output_path, Exported a format)
          else Raise ValueError
      | Frames _ => Raise ValueError
      end
  | Wave self =>
      output_path <-
        (if negb (endswith (map lower (path_str output_path)) (str_of ".wav"))
         then with_suffix output_path (str_of ".wav")
         else Ok output_path) ;;
      match audio_data with
      | Frames b =>
          match wave_write (channels self) (sample_width self)
                           (sample_rate self) b with
          | Ok f => Ok (output_path, Wav f)
          | Raise _ => Raise ValueError
          end
      | Segment _ => Raise ValueError
      end
  end.

End Cutter.

(* ================================================================== *)
(** * The duration formatter *)
(* ================================================================== *)

(** C's [fmod x y], which is exact: [x] minus the multiple of [y] that is
    next to [x / y] toward zero. *)
Definition fmod (x y : Q) : Q := (x - inject_Z (Qtrunc (x / y)) * y)%Q.

Definition Qltb (x y : Q) : bool := negb (Qle_bool y x).

(** The remainder and the quotient part of CPython's [float_divmod], for a
    divisor [y] that is a finite number other than zero: the remainder
    takes the sign of the divisor, and the quotient is corrected by one
    when the remainder was moved. *)
Definition float_divmod_parts (x y : Q) : float * float :=
  let mod_ := fmod x y in
  let div_ := div (sub (FFin x) (FFin mod_)) (FFin y) in
  if negb (Qeq_bool mod_ 0) && negb (Bool.eqb (Qltb y 0) (Qltb mod_ 0))
  then (add (FFin mod_) (FFin y), sub div_ (lit 1))
  else (FFin mod_, div_).

Definition float_floor (x : float) : float :=
  match x with
  | FFin q => FFin (inject_Z (Qfloor q))
  | _ => x
  end.

(** [x % y] for a float [x] and a literal [y]. *)
Definition float_mod (x : float) (y : Z) : float :=
  match x with
  | FFin q => fst (float_divmod_parts q (inject_Z y))
  | _ => FNan
  end.

(** [x // y] for a float [x] and a literal [y]: the quotient of
    [float_divmod], snapped to the nearest whole number. *)
Definition float_floordiv (x : float) (y : Z) : float :=
  match x with
  | FFin q =>
      let div_ := snd (float_divmod_parts q (inject_Z y)) in
      if is_zero div_ then FFin 0
      else
        let floordiv := float_floor div_ in
        match sub div_ floordiv with
        | FFin d => if Qltb (1 # 2) d then add floordiv (lit 1) else floordiv
        | FInf false => add floordiv (lit 1)
        | _ => floordiv
        end
  | _ => FNan
  end.

Definition digit_char (d : Z) : ascii := ascii_of_nat (Z.to_nat (48 + d)).

(** The decimal digits of a natural number, most significant first. *)
Fixpoint digits_aux (fuel : nat) (n : Z) (acc : str) : str :=
  match fuel with
  | O => acc
  | S fuel' =>
      let acc' := digit_char (n mod 10) :: acc in
      if n <? 10 then acc' else digits_aux fuel' (n / 10) acc'
  end.

Definition digits_of (n : Z) : str :=
  digits_aux (S (Z.to_nat (Z.log2 n))) n [].

(** Zeros in front, up to a width. *)
Definition zfill (width : nat) (s : str) : str :=
  repeat "0"%char (width - List.length s) ++ s.

(** [format(n, '02d')] for an integer [n]: the sign counts in the width. *)
Definition format_02d (n : Z) : str :=
  if n <? 0 then "-"%char :: zfill 1 (digits_of (- n))
  else zfill 2 (digits_of n).

(** [format(x, '06.3f')] for a float [x]: three decimals, rounded
    correctly, and zeros in front up to six characters. *)
Definition format_06_3f (x : float) : str :=
  match x with
  | FFin q =>
      let n := rne (Qabs q * inject_Z 1000) in
      let body := digits_of (n / 1000)
                  ++ "."%char :: zfill 3 (digits_of (n mod 1000)) in
      if Qltb q 0 then "-"%char :: zfill 5 body else zfill 6 body
  | FInf neg =>
      if neg then "-"%char :: zfill 5 (str_of "inf") else zfill 6 (str_of "inf")
  | FNan => zfill 6 (str_of "nan")
  end.

Definition format_duration (duration_ms : Z) : result string :=
  total_seconds <- int_truediv duration_ms 1000 ;;
  hours <- int_of_float (float_floordiv total_seconds 3600) ;;
  minutes <- int_of_float (float_floordiv (float_mod total_seconds 3600) 60) ;;
  let seconds := float_mod total_seconds 60 in
  if 0 <? hours then
    Ok (string_of_list_ascii
          (format_02d hours ++ ":"%char :: format_02d minutes
           ++ ":"%char :: format_06_3f seconds))
  else
    Ok (string_of_list_ascii
          (format_02d minutes ++ ":"%char :: format_06_3f seconds)).

(* ================================================================== *)
(** * The values the program computes *)
(* ================================================================== *)

(** The frame index [frame_of_ms] returns, as a rational expression: the
    quotient [ms / 1000] rounded, its product with the rate rounded, and
    the whole part of that. *)
Definition frame_val (ms rate : Z) : Z :=
  Qfloor (round_real (round_real (inject_Z ms / inject_Z 1000) * inject_Z rate)).

(** The duration [duration_of_frames] returns. *)
Definition duration_val (frames rate : Z) : Z :=
  Qfloor (round_real (round_real (inject_Z frames / inject_Z rate) * inject_Z 1000)).

(** The bytes of the frames [a] to [b] (without [b]) of the data chunk. *)
Definition frame_range (w : Wave_read) (a b : Z) : list byte :=
  firstn (Z.to_nat ((b - a) * framesize w))
         (skipn (Z.to_nat (a * framesize w)) (data w)).

(** The length of a byte string in frames, as [main] computes it. *)
Definition frames_in (self : WaveCutter) (b : list byte) : Z :=
  Z.of_nat (List.length b) / (sample_width self * channels self).

(** The result of a method without the state it leaves. *)
Definition value {A S : Type} (r : result (A * S)) : result A :=
  match r with
  | Ok p => Ok (fst p)
  | Raise e => Raise e
  end.

(** What holds of a cutter of the [wave] backend once [__init__] has
    built it. *)
Record cutter_ok (self : WaveCutter) : Prop := {
  ok_file : wave_ok (wave_file self);
  ok_rate : sample_rate self = framerate (wave_file self);
  ok_channels : channels self = nchannels (wave_file self);
  ok_width : sample_width self = sampwidth (wave_file self);
  ok_total : total_frames self = nframes (wave_file self);
  ok_rate_pos : 0 < sample_rate self;
  ok_duration :
    duration_ms self = duration_val (total_frames self) (sample_rate self)
}.

(** Following the specification: [frame = floor(ms / 1000 * sampleRate)],
    in exact arithmetic. *)
Definition spec_frame (ms rate : Z) : Z :=
  Qfloor (inject_Z ms / inject_Z 1000 * inject_Z rate).

Arguments Pydub {AudioSegment} audio.
Arguments Wave {AudioSegment} self.
Arguments Segment {AudioSegment} a.
Arguments Frames {AudioSegment} b.
Arguments Exported {AudioSegment} a format.
Arguments Wav {AudioSegment} f.
Arguments file_exists {AudioSegment} e.
Arguments PYDUB_AVAILABLE {AudioSegment} e.
Arguments from_file {AudioSegment} e.
Arguments wave_open {AudioSegment} e.
Arguments AudioCutter_init {AudioSegment} env input_file.
Arguments get_duration {AudioSegment} seg_len self.
Arguments wav_result {AudioSegment} r.
Arguments cut_from_front {AudioSegment} seg_len seg_slice self duration_ms.
Arguments cut_from_back {AudioSegment} seg_len seg_slice self duration_ms.
Arguments cut_from_middle {AudioSegment} seg_len seg_slice seg_add self start_ms end_ms.
Arguments extract_segment {AudioSegment} seg_len seg_slice self start_ms end_ms.
Arguments save_audio {AudioSegment} export_ok self audio_data output_file format.

(** A loaded audio source: a cutter that [__init__] has returned, in a
    world where the files that [wave.open] opens are as [wave_ok] says. *)
Definition loaded {AudioSegment : Type} (self : AudioCutter AudioSegment) : Prop :=
  exists (env : Env AudioSegment) (input_file : string),
    (forall w, wave_open env = Ok w -> wave_ok w)
    /\ AudioCutter_init env input_file = Ok self.

(** ** Examples *)

(** An [AudioSegment] for the examples: one sample for each millisecond,
    sliced as Python slices a list. *)
Definition ms_segment : Type := list Z.

Definition ms_len (a : ms_segment) : Z := Z.of_nat (List.length a).

Definition ms_index (a : ms_segment) (i : Z) : nat :=
  Z.to_nat (Z.min (ms_len a) (if i <? 0 then Z.max 0 (ms_len a + i) else i)).

Definition ms_slice (a : ms_segment) (i j : option Z) : ms_segment :=
  let lo := match i with Some i => ms_index a i | None => O end in
  let hi := match j with Some j => ms_index a j | None => List.length a end in
  firstn (hi - lo) (skipn lo a).

Definition ms_add (a b : ms_segment) : ms_segment := a ++ b.

(** A WAV file of sixteen frames of one byte each, at 8000 frames per
    second: two milliseconds of sound. *)
Definition example_wave : Wave_read :=
  {| framerate := 8000; nchannels := 1; sampwidth := 1; nframes := 16;
     data := [x00; x01; x02; x03; x04; x05; x06; x07;
              x08; x09; x0a; x0b; x0c; x0d; x0e; x0f];
     soundpos := 0 |}.

Definition example_env : Env ms_segment :=
  {| file_exists := true; PYDUB_AVAILABLE := false;
     from_file := Raise ValueError; wave_open := Ok example_wave |}.

Definition example_self : WaveCutter :=
  {| wave_file := example_wave; sample_rate := 8000; channels := 1;
     sample_width := 1; total_frames := 16; duration_ms := 2 |}.

Definition example_cutter : AudioCutter ms_segment := Wave example_self.

(** The seconds of a duration as [format_duration] prints them, for a
    number [n] of milliseconds below a minute. *)
Definition seconds_str (n : Z) : str :=
  zfill 6 (digits_of (n / 1000) ++ "."%char :: zfill 3 (digits_of (n mod 1000))).

(** The string [format_duration] builds for [v] milliseconds, by whole
    number arithmetic. *)
Definition duration_str (v : Z) : str :=
  let hours := v / 3600000 in
  let minutes := (v / 60000) mod 60 in
  let n := v mod 60000 in
  if 0 <? hours then
    format_02d hours ++ ":"%char :: format_02d minutes
    ++ ":"%char :: seconds_str n
  else format_02d minutes ++ ":"%char :: seconds_str n.

(** Strings of digits, strings without underscore and strings without
    colon. *)
Definition all_digits (s : str) : Prop := Forall (fun c => is_digit c = true) s.

Definition plain (s : str) : Prop :=
  Forall (fun c => ascii_eqb c "_" = false) s.

Definition no_colon (s : str) : Prop :=
  Forall (fun c => ascii_eqb c ":" = false) s.

(* ================================================================== *)
(** * Calls in sequence *)
(* ================================================================== *)
(** The cutter [self] with its file at another position. *)
Definition moved (self : WaveCutter) (p : Z) : WaveCutter :=
  set_wave_file self (set_soundpos (wave_file self) p).

Section History.

Variable AudioSegment : Type.
Variable seg_len : AudioSegment -> Z.
Variable seg_slice : AudioSegment -> option Z -> option Z -> AudioSegment.
Variable seg_add : AudioSegment -> AudioSegment -> AudioSegment.

(** One successful call of a cutting method takes the cutter [c] to the
    cutter [c']. *)
Inductive call (c c' : AudioCutter AudioSegment) : Prop :=
| call_cut_from_front (d : Z) (x : AudioData AudioSegment) :
    cut_from_front seg_len seg_slice c d = Ok (x, c') -> call c c'
| call_cut_from_back (d : Z) (x : AudioData AudioSegment) :
    cut_from_back seg_len seg_slice c d = Ok (x, c') -> call c c'
| call_cut_from_middle (s e : Z) (x : AudioData AudioSegment) :
    cut_from_middle seg_len seg_slice seg_add c s e = Ok (x, c') -> call c c'
| call_extract_segment (s e : Z) (x : AudioData AudioSegment) :
    extract_segment seg_len seg_slice c s e = Ok (x, c') -> call c c'.

(** Any number of successful calls, one after the other. *)
Inductive calls (c : AudioCutter AudioSegment) : AudioCutter AudioSegment -> Prop :=
| calls_none : calls c c
| calls_more (c' c'' : AudioCutter AudioSegment) :
    calls c c' -> call c' c'' -> calls c c''.

End History.

Arguments call {AudioSegment} seg_len seg_slice seg_add c c'.
Arguments calls {AudioSegment} seg_len seg_slice seg_add c _.

(* ================================================================== *)
(** * The command line *)
(* ================================================================== *)

(** [str(n)] for an integer [n]. *)
Definition str_of_int (n : Z) : str :=
  if n <? 0 then "-"%char :: digits_of (- n) else digits_of n.

(** [a // b] on integers. *)
Definition int_floordiv (a b : Z) : result Z :=
  if b =? 0 then Raise ZeroDivisionError else Ok (a / b).

(** What [parser.parse_args()] returns: the attributes of the namespace.
    An option that is absent from the command line is [None]. *)
Record Args : Type := {
  input_file : string;
  output : string;
  cut_front : option string;
  cut_back : option string;
  cut_middle : option (string * string);
  extract : option (string * string);
  format : option string;
  info : bool
}.

(** [argparse] accepts a command line with exactly one option of the
    group of the four operations. *)
Definition one_operation (args : Args) : Prop :=
  match cut_front args, cut_back args, cut_middle args, extract args with
  | Some _, None, None, None
  | None, Some _, None, None
  | None, None, Some _, None
  | None, None, None, Some _ => True
  | _, _, _, _ => False
  end.

(** The truth value of an optional string in an [if]: [None] and the
    empty string are false. *)
Definition truthy (o : option string) : bool :=
  match o with
  | Some s => negb (String.eqb s EmptyString)
  | None => false
  end.

(** How [main] ends: it returns, it prints an error and leaves with
    [sys.exit(1)], or an exception that it does not catch goes through
    it. *)
Inductive Uncaught : Type :=
| Propagated (e : exn)
| UnboundLocalError.

Inductive Status : Type :=
| Returned
| Exit1 (e : exn)
| Traceback (u : Uncaught).

Section Program.

Variable AudioSegment : Type.
Variable seg_len : AudioSegment -> Z.
Variable seg_slice : AudioSegment -> option Z -> option Z -> AudioSegment.
Variable seg_add : AudioSegment -> AudioSegment -> AudioSegment.
Variable export_ok : AudioSegment -> str -> str -> bool.

(** A run of [main]: how it ends, the lines it has printed on the
    standard output and what [save_audio] has returned, when it was called
    and has returned. *)
Record Run : Type := {
  status : Status;
  stdout : list string;
  saved : option (PurePath * SavedFile AudioSegment)
}.

(** The [except] clauses of [main], for an exception [e] of the [try]
    block. *)
Definition handle (e : exn) (out : list string)
    (file : option (PurePath * SavedFile AudioSegment)) : Run :=
  {| status := match e with
               | FileNotFoundError | ValueError => Exit1 e
               | _ => Traceback (Propagated e)
               end;
     stdout := out; saved := file |}.

(** A guard of a cutting method on what [parse_time] has returned: the
    comparison of [None] with a number is a [TypeError]. *)
Definition with_duration {A : Type} (v : pyval) (method : Z -> result A)
  : result A :=
  match v with
  | PyInt duration_ms => method duration_ms
  | PyNone => Raise TypeError
  end.

(** The same for the two times of [cut_from_middle] and of
    [extract_segment], whose first guard is
    [start_ms < 0 or end_ms < 0]: the second comparison is not made when
    the first one holds. *)
Definition with_times {A : Type} (s e : pyval) (method : Z -> Z -> result A)
  : result A :=
  match s, e with
  | PyInt start_ms, PyInt end_ms => method start_ms end_ms
  | PyInt start_ms, PyNone =>
      if start_ms <? 0 then Raise ValueError else Raise TypeError
  | PyNone, _ => Raise TypeError
  end.

(** [format_duration] on an argument of [main], which [parse_time] has
    returned and a cutting method has accepted. *)
Definition format_time (v : pyval) : result string :=
  match v with
  | PyInt ms => format_duration ms
  | PyNone => Raise TypeError
  end.

(** The lines of [main] under [if args.info]. *)
Definition show_info (cutter : AudioCutter AudioSegment) (args : Args)
  : result (list string) :=
  if info args then
    let duration := get_duration seg_len cutter in
    t <- format_duration duration ;;
    Ok [("Audio duration: " ++ t ++ " ("
         ++ string_of_list_ascii (str_of_int duration) ++ " ms)")%string]
  else Ok [].

(** The chain of [if] and [elif] of [main]: the audio that the chosen
    operation returns, the cutter after it and the line printed; nothing
    when no condition of the chain holds, and [result_audio] is then
    unbound. *)
Definition operate (cutter : AudioCutter AudioSegment) (args : Args)
  : result (option (AudioData AudioSegment * AudioCutter AudioSegment * string)) :=
  if truthy (cut_front args) then
    duration_ms <- parse_time (match cut_front args with Some s => s | None => EmptyString end) ;;
    r <- with_duration duration_ms (cut_from_front seg_len seg_slice cutter) ;;
    t <- format_time duration_ms ;;
    Ok (Some (fst r, snd r, ("Cutting " ++ t ++ " from front")%string))
  else if truthy (cut_back args) then
    duration_ms <- parse_time (match cut_back args with Some s => s | None => EmptyString end) ;;
    r <- with_duration duration_ms (cut_from_back seg_len seg_slice cutter) ;;
    t <- format_time duration_ms ;;
    Ok (Some (fst r, snd r, ("Cutting " ++ t ++ " from back")%string))
  else
    match cut_middle args, extract args with
    | Some (s, e), _ =>
        start_ms <- parse_time s ;;
        end_ms <- parse_time e ;;
        r <- with_times start_ms end_ms
               (cut_from_middle seg_len seg_slice seg_add cutter) ;;
        t1 <- format_time start_ms ;;
        t2 <- format_time end_ms ;;
        Ok (Some (fst r, snd r,
                  ("Cutting section from " ++ t1 ++ " to " ++ t2)%string))
    | None, Some (s, e) =>
        start_ms <- parse_time s ;;
        end_ms <- parse_time e ;;
        r <- with_times start_ms end_ms
               (extract_segment seg_len seg_slice cutter) ;;
        t1 <- format_time start_ms ;;
        t2 <- format_time end_ms ;;
        Ok (Some (fst r, snd r,
                  ("Extracting section from " ++ t1 ++ " to " ++ t2)%string))
    | None, None => Ok None
    end.

(** [len(result_audio)] *)
Definition audio_len (audio_data : AudioData AudioSegment) : Z :=
  match audio_data with
  | Segment a => seg_len a
  | Frames b => Z.of_nat (List.length b)
  end.

(** The duration of the output, as [main] computes it by the backend. *)
Definition output_duration (cutter : AudioCutter AudioSegment)
    (result_audio : AudioData AudioSegment) : result Z :=
  match cutter with
  | Pydub _ => Ok (audio_len result_audio)
  | Wave self =>
      let bytes_per_sample := sample_width self * channels self in
      samples <- int_floordiv (audio_len result_audio) bytes_per_sample ;;
      duration_of_frames samples (sample_rate self)
  end.

(** The [try] block of [main] and its [except] clauses for the exceptions
    of the program.  [env] is what the program finds outside, [args] what
    [argparse] has read.  A [KeyboardInterrupt] comes from outside the
    program at any moment and is left out. *)
Definition main (env : Env AudioSegment) (args : Args) : Run :=
  match AudioCutter_init env (input_file args) with
  | Raise e => handle e [] None
  | Ok cutter =>
  match show_info cutter args with
  | Raise e => handle e [] None
  | Ok out1 =>
  match operate cutter args with
  | Raise e => handle e out1 None
  | Ok None =>
      {| status := Traceback UnboundLocalError; stdout := out1; saved := None |}
  | Ok (Some (result_audio, cutter, line)) =>
  let out2 := out1 ++ [line] in
  match save_audio export_ok cutter result_audio (output args) (format args) with
  | Raise e => handle e out2 None
  | Ok (output_path, file) =>
  let out3 :=
    out2 ++ [("Saved to: " ++ string_of_list_ascii (path_str output_path))%string] in
  match d <- output_duration cutter result_audio ;;
        t <- format_duration d ;;
        Ok (d, t) with
  | Raise e => handle e out3 (Some (output_path, file))
  | Ok (output_duration_ms, t) =>
      {| status := Returned;
         stdout := out3 ++ [("Output duration: " ++ t ++ " ("
                             ++ string_of_list_ascii (str_of_int output_duration_ms)
                             ++ " ms)")%string];
         saved := Some (output_path, file) |}
  end end end end end.

(** What the chain of operations returns on the [wave] backend: frames
    whose duration [main] can compute, and a cutter that differs by the
    position of its file only. *)
Definition operated (self : WaveCutter)
    (r : option (AudioData AudioSegment * AudioCutter AudioSegment * string)) : Prop :=
  match r with
  | None => True
  | Some (audio_data, c', _) =>
      exists (x : list byte) (q D' : Z),
        audio_data = Frames x /\ c' = Wave (moved self q)
        /\ output_duration (Wave self) (Frames x) = Ok D'
        /\ 0 <= D' <= duration_ms self
  end.

End Program.

Arguments status {AudioSegment} r.
Arguments stdout {AudioSegment} r.
Arguments saved {AudioSegment} r.
Arguments handle {AudioSegment} e out file.
Arguments show_info {AudioSegment} seg_len cutter args.
Arguments operate {AudioSegment} seg_len seg_slice seg_add cutter args.
Arguments audio_len {AudioSegment} seg_len audio_data.
Arguments output_duration {AudioSegment} seg_len cutter result_audio.
Arguments operated {AudioSegment} seg_len self r.
Arguments main {AudioSegment} seg_len seg_slice seg_add export_ok env args.

(* ================================================================== *)
(** * More examples *)
(* ================================================================== *)

(** A longer WAV file for the examples: forty frames of one byte each at
    8000 frames per second, five milliseconds of sound. *)
Definition long_wave : Wave_read :=
  {| framerate := 8000; nchannels := 1; sampwidth := 1; nframes := 40;
     data := [x00; x01; x02; x03; x04; x05; x06; x07;
              x08; x09; x0a; x0b; x0c; x0d; x0e; x0f;
              x10; x11; x12; x13; x14; x15; x16; x17;
              x18; x19; x1a; x1b; x1c; x1d; x1e; x1f;
              x20; x21; x22; x23; x24; x25; x26; x27];
     soundpos := 0 |}.

Definition long_env : Env ms_segment :=
  {| file_exists := true; PYDUB_AVAILABLE := false;
     from_file := Raise ValueError; wave_open := Ok long_wave |}.

Definition long_self : WaveCutter :=
  {| wave_file := long_wave; sample_rate := 8000; channels := 1;
     sample_width := 1; total_frames := 40; duration_ms := 5 |}.

Definition long_cutter : AudioCutter ms_segment := Wave long_self.

(** A command line for the examples:
    [in.wav -o out.mp3 --cut-front t --info]. *)
Definition cut_front_args (t : string) : Args :=
  {| input_file := "in.wav"; output := "out.mp3"; cut_front := Some t;
     cut_back := None; cut_middle := None; extract := None;
     format := None; info := true |}.

(** And one more: [in.wav -o part --extract s e]. *)
Definition extract_args (s e : string) : Args :=
  {| input_file := "in.wav"; output := "part"; cut_front := None;
     cut_back := None; cut_middle := None; extract := Some (s, e);
     format := None; info := false |}.

(* ================================================================== *)
(** * Facts on binary64 rounding *)
(* ================================================================== *)

Module FloatFacts.
Local Open Scope Q_scope.

Lemma pow2_pos (e : Z) : 0 < pow2 e.
Proof. unfold pow2. apply Qpower_0_lt. reflexivity. Qed.

Lemma pow2_add (a b : Z) : pow2 (a + b) == pow2 a * pow2 b.
Proof. unfold pow2. apply Qpower_plus. discriminate. Qed.

Lemma pow2_sub (a b : Z) : pow2 (a - b) == pow2 a / pow2 b.
Proof. unfold pow2. apply Qpower_minus. discriminate. Qed.

Lemma pow2_le (a b : Z) : (a <= b)%Z -> pow2 a <= pow2 b.
Proof. intros H. unfold pow2. apply Qpower_le_compat_l; [exact H | discriminate]. Qed.

Lemma pow2_Z (e : Z) : (0 <= e)%Z -> pow2 e == inject_Z (2 ^ e).
Proof. intros H. unfold pow2. symmetry. apply (Zpower_Qpower 2 e H). Qed.

Lemma pow2_succ (e : Z) : pow2 (e + 1) == 2 * pow2 e.
Proof. rewrite pow2_add. unfold pow2 at 2. simpl. ring. Qed.

Lemma log2_bounds (n : Z) :
  (0 < n)%Z -> pow2 (Z.log2 n) <= inject_Z n /\ inject_Z n < 2 * pow2 (Z.log2 n).
Proof.
  intros Hn. pose proof (Z.log2_spec n Hn) as [Hlo Hhi].
  pose proof (Z.log2_nonneg n) as Hnn.
  split.
  - rewrite pow2_Z by exact Hnn. rewrite <- Zle_Qle. exact Hlo.
  - rewrite <- pow2_succ. rewrite pow2_Z by lia. rewrite <- Zlt_Qlt.
    replace (Z.log2 n + 1)%Z with (Z.succ (Z.log2 n)) by lia. exact Hhi.
Qed.

Lemma ilog2_spec (x : Q) :
  0 < x -> pow2 (ilog2 x) <= x /\ x < pow2 (ilog2 x + 1).
Proof.
  intros Hx. destruct x as [n d].
  assert (Hn : (0 < n)%Z).
  { unfold Qlt in Hx. simpl in Hx. lia. }
  unfold ilog2. cbn [Qnum Qden].
  set (a := Z.log2 n). set (b := Z.log2 (Zpos d)).
  destruct (log2_bounds n Hn) as [Ha1 Ha2]. fold a in Ha1, Ha2.
  destruct (log2_bounds (Zpos d) eq_refl) as [Hb1 Hb2]. fold b in Hb1, Hb2.
  assert (HX : (n # d) * inject_Z (Zpos d) == inject_Z n).
  { rewrite (Qmake_Qdiv n d). field. discriminate. }
  pose proof (pow2_pos a) as Hpa. pose proof (pow2_pos b) as Hpb.
  pose proof (pow2_pos (a - b)) as Hpe.
  assert (HE : pow2 (a - b) * pow2 b == pow2 a).
  { rewrite <- pow2_add. replace (a - b + b)%Z with a by lia. reflexivity. }
  assert (HE1 : pow2 (a - b + 1) == 2 * pow2 (a - b)) by apply pow2_succ.
  assert (HE2 : 2 * pow2 (a - b - 1) == pow2 (a - b)).
  { rewrite <- pow2_succ. replace (a - b - 1 + 1)%Z with (a - b)%Z by lia. reflexivity. }
  set (X := n # d) in *. set (E := pow2 (a - b)) in *.
  set (Dd := inject_Z (Zpos d)) in *. set (N := inject_Z n) in *.
  destruct (Qle_bool E X) eqn:Ht.
  - apply Qle_bool_iff in Ht. split; [exact Ht|].
    rewrite HE1.
    destruct (Qlt_le_dec X (2 * E)) as [|Hc]; [assumption|exfalso].
    nra.
  - assert (Hlt : X < E).
    { destruct (Qlt_le_dec X E) as [|Hc]; [assumption|].
      apply Qle_bool_iff in Hc. congruence. }
    replace (a - b - 1 + 1)%Z with (a - b)%Z by lia. split; [|exact Hlt].
    destruct (Qlt_le_dec X (pow2 (a - b - 1))) as [Hc|]; [exfalso|assumption].
    set (E' := pow2 (a - b - 1)) in *. nra.
Qed.

Lemma pow2_lt (a b : Z) : (a < b)%Z -> pow2 a < pow2 b.
Proof.
  intros H. apply Qlt_le_trans with (pow2 (a + 1)).
  - rewrite pow2_succ. pose proof (pow2_pos a). lra.
  - apply pow2_le. lia.
Qed.

Lemma pow2_le_inv (a b : Z) : pow2 a <= pow2 b -> (a <= b)%Z.
Proof.
  intros H. destruct (Z_le_gt_dec a b) as [|Hc]; [assumption|exfalso].
  pose proof (pow2_lt b a ltac:(lia)). lra.
Qed.

Lemma pow2_lt_inv (a b : Z) : pow2 a < pow2 b -> (a < b)%Z.
Proof.
  intros H. destruct (Z_lt_le_dec a b) as [|Hc]; [assumption|exfalso].
  pose proof (pow2_le b a Hc). lra.
Qed.

Lemma ilog2_ge (x : Q) (e : Z) : 0 < x -> pow2 e <= x -> (e <= ilog2 x)%Z.
Proof.
  intros Hx H. destruct (ilog2_spec x Hx) as [_ Hhi].
  assert (pow2 e < pow2 (ilog2 x + 1)) by lra.
  apply pow2_lt_inv in H0. lia.
Qed.

Lemma ilog2_lt (x : Q) (e : Z) : 0 < x -> x < pow2 e -> (ilog2 x < e)%Z.
Proof.
  intros Hx H. destruct (ilog2_spec x Hx) as [Hlo _].
  apply pow2_lt_inv. lra.
Qed.

Lemma ilog2_unique (x : Q) (e : Z) :
  pow2 e <= x -> x < pow2 (e + 1) -> ilog2 x = e.
Proof.
  intros Hlo Hhi. assert (Hx : 0 < x) by (pose proof (pow2_pos e); lra).
  pose proof (ilog2_ge x e Hx Hlo). pose proof (ilog2_lt x (e + 1) Hx Hhi). lia.
Qed.

Lemma ilog2_mono (x y : Q) : 0 < x -> x <= y -> (ilog2 x <= ilog2 y)%Z.
Proof.
  intros Hx Hxy. apply ilog2_ge; [lra|].
  destruct (ilog2_spec x Hx). lra.
Qed.

(** ** Rounding to the nearest integer *)

Lemma rne_cases (x : Q) :
  let f := Qfloor x in
  (rne x = f /\ x - inject_Z f < 1 # 2)
  \/ (rne x = (f + 1)%Z /\ 1 # 2 < x - inject_Z f)
  \/ (x - inject_Z f == 1 # 2 /\ rne x = if Z.even f then f else (f + 1)%Z).
Proof.
  intros f. unfold rne. fold f.
  destruct (x - inject_Z f ?= 1 # 2) eqn:Hc.
  - right; right. split; [|reflexivity]. apply Qeq_alt. exact Hc.
  - left. split; [reflexivity|]. apply Qlt_alt. exact Hc.
  - right; left. split; [reflexivity|]. apply Qgt_alt in Hc. exact Hc.
Qed.

Lemma floor_bounds (x : Q) :
  inject_Z (Qfloor x) <= x /\ x < inject_Z (Qfloor x) + 1.
Proof.
  split; [apply Qfloor_le|].
  pose proof (Qlt_floor x) as H. rewrite inject_Z_plus in H. exact H.
Qed.

Lemma rne_error (x : Q) :
  x - (1 # 2) <= inject_Z (rne x) /\ inject_Z (rne x) <= x + (1 # 2).
Proof.
  destruct (floor_bounds x) as [Hlo Hhi].
  destruct (rne_cases x) as [[-> H]|[[-> H]|[H H']]].
  - lra.
  - rewrite inject_Z_plus. change (inject_Z 1) with 1. lra.
  - rewrite H'. destruct (Z.even (Qfloor x)).
    + lra.
    + rewrite inject_Z_plus. change (inject_Z 1) with 1. lra.
Qed.

Lemma rne_Z (n : Z) : rne (inject_Z n) = n.
Proof.
  destruct (rne_cases (inject_Z n)) as [[-> H]|[[H' H]|[H H']]].
  - apply Qfloor_Z.
  - rewrite Qfloor_Z in H. lra.
  - rewrite Qfloor_Z in H. lra.
Qed.

Lemma rne_mono (x y : Q) : x <= y -> (rne x <= rne y)%Z.
Proof.
  intros Hxy. pose proof (Qfloor_resp_le x y Hxy) as Hf.
  destruct (floor_bounds x) as [Hx1 Hx2]. destruct (floor_bounds y) as [Hy1 Hy2].
  destruct (Z.eq_dec (Qfloor x) (Qfloor y)) as [He|Hne].
  - destruct (rne_cases x) as [[Hx H]|[[Hx H]|[H Hx]]];
    destruct (rne_cases y) as [[Hy H0]|[[Hy H0]|[H0 Hy]]];
    rewrite Hx, Hy; rewrite <- ?He in *;
    try destruct (Z.even (Qfloor x)); try lia; exfalso; lra.
  - assert (rne x <= Qfloor x + 1)%Z.
    { destruct (rne_cases x) as [[-> _]|[[-> _]|[_ ->]]];
      try destruct (Z.even (Qfloor x)); lia. }
    assert (Qfloor y <= rne y)%Z.
    { destruct (rne_cases y) as [[-> _]|[[-> _]|[_ ->]]];
      try destruct (Z.even (Qfloor y)); lia. }
    lia.
Qed.

Lemma rne_comp (x y : Q) : x == y -> rne x = rne y.
Proof.
  intros H. apply Z.le_antisymm; apply rne_mono; rewrite H; apply Qle_refl.
Qed.

(** ** Rounding to binary64 *)

Lemma ilog2_comp (x y : Q) : 0 < x -> x == y -> ilog2 x = ilog2 y.
Proof.
  intros Hx Hxy. symmetry. destruct (ilog2_spec x Hx).
  apply ilog2_unique; rewrite <- Hxy; assumption.
Qed.

Lemma ulp_eq (x : Q) : 0 < x -> ulp x = pow2 (expo x - 52).
Proof.
  intros Hx. unfold ulp, expo.
  rewrite (ilog2_comp (Qabs x) x).
  - reflexivity.
  - rewrite Qabs_pos; lra.
  - apply Qabs_pos. lra.
Qed.

Lemma ulp_pos (x : Q) : 0 < ulp x.
Proof. apply pow2_pos. Qed.

Lemma round_real_pos (x : Q) :
  0 < x -> round_real x == inject_Z (rne (x / ulp x)) * ulp x.
Proof.
  intros Hx. unfold round_real.
  destruct (Qeq_bool x 0) eqn:He.
  - apply Qeq_bool_iff in He. lra.
  - apply Qred_correct.
Qed.

Lemma round_real_zero (x : Q) : x == 0 -> round_real x = 0.
Proof.
  intros H. unfold round_real. apply Qeq_bool_iff in H. rewrite H. reflexivity.
Qed.

(** The scaled value [x / ulp x] lies between [2^52] and [2^53] for a
    normal [x], and below [2^52] for a subnormal one. *)
Lemma scaled_upper (x : Q) : 0 < x -> x / ulp x < pow2 53.
Proof.
  intros Hx. rewrite (ulp_eq x Hx). pose proof (pow2_pos (expo x - 52)) as Hu.
  apply Qlt_shift_div_r; [exact Hu|].
  rewrite <- pow2_add. replace (53 + (expo x - 52))%Z with (expo x + 1)%Z by lia.
  destruct (ilog2_spec x Hx) as [_ Hhi].
  apply Qlt_le_trans with (1 := Hhi). apply pow2_le. unfold expo. lia.
Qed.

Lemma scaled_lower (x : Q) :
  0 < x -> pow2 emin <= x -> pow2 52 <= x / ulp x.
Proof.
  intros Hx Hn. rewrite (ulp_eq x Hx). pose proof (pow2_pos (expo x - 52)) as Hu.
  apply Qle_shift_div_l; [exact Hu|].
  rewrite <- pow2_add. replace (52 + (expo x - 52))%Z with (expo x) by lia.
  destruct (ilog2_spec x Hx) as [Hlo _].
  pose proof (ilog2_ge x emin Hx Hn). unfold expo.
  replace (Z.max (ilog2 x) emin) with (ilog2 x) by lia. exact Hlo.
Qed.

Lemma round_real_upper (x : Q) (e : Z) :
  0 < x -> (emin <= e)%Z -> x <= pow2 (e + 1) -> round_real x <= pow2 (e + 1).
Proof.
  intros Hx He Hle. rewrite (round_real_pos x Hx).
  destruct (Qlt_le_dec x (pow2 (e + 1))) as [Hlt|Hge].
  - (* x lies in a binade not above e *)
    assert (Hex : (expo x <= e)%Z).
    { unfold expo. pose proof (ilog2_lt x (e + 1) Hx Hlt). lia. }
    pose proof (scaled_upper x Hx) as Hs.
    assert (Hr : (rne (x / ulp x) <= 2 ^ 53)%Z).
    { rewrite <- (rne_Z (2 ^ 53)). apply rne_mono.
      rewrite <- pow2_Z by lia. lra. }
    rewrite Zle_Qle in Hr. rewrite <- pow2_Z in Hr by lia.
    pose proof (ulp_pos x) as Hu.
    apply Qle_trans with (pow2 53 * ulp x).
    + apply Qmult_le_compat_r; [exact Hr | lra].
    + rewrite (ulp_eq x Hx), <- pow2_add. apply pow2_le. lia.
  - (* x is the power of two itself *)
    assert (Hxe : x == pow2 (e + 1)) by lra.
    assert (Hi : ilog2 x = (e + 1)%Z).
    { apply ilog2_unique; [lra|]. rewrite Hxe. apply pow2_lt. lia. }
    rewrite (ulp_eq x Hx). unfold expo. rewrite Hi.
    replace (Z.max (e + 1) emin) with (e + 1)%Z by lia.
    assert (Hq : x / pow2 (e + 1 - 52) == inject_Z (2 ^ 52)).
    { rewrite Hxe, <- pow2_sub, <- pow2_Z by lia.
      replace (e + 1 - (e + 1 - 52))%Z with 52%Z by lia. reflexivity. }
    rewrite (rne_comp _ _ Hq), rne_Z, <- pow2_Z, <- pow2_add by lia.
    apply pow2_le. lia.
Qed.

Lemma round_real_lower (x : Q) (e : Z) :
  (emin <= e)%Z -> pow2 e <= x -> pow2 e <= round_real x.
Proof.
  intros He Hle. assert (Hx : 0 < x) by (pose proof (pow2_pos e); lra).
  rewrite (round_real_pos x Hx).
  assert (Hn : pow2 emin <= x).
  { apply Qle_trans with (2 := Hle). apply pow2_le. exact He. }
  pose proof (ilog2_ge x e Hx Hle) as Hi.
  pose proof (scaled_lower x Hx Hn) as Hs.
  assert (Hr : (2 ^ 52 <= rne (x / ulp x))%Z).
  { rewrite <- (rne_Z (2 ^ 52)). apply rne_mono.
    rewrite <- pow2_Z by lia. exact Hs. }
  rewrite Zle_Qle in Hr. rewrite <- pow2_Z in Hr by lia.
  pose proof (ulp_pos x) as Hu.
  apply Qle_trans with (pow2 52 * ulp x).
  - rewrite (ulp_eq x Hx), <- pow2_add. apply pow2_le. unfold expo. lia.
  - apply Qmult_le_compat_r; [exact Hr | lra].
Qed.

Lemma round_real_mono_pos (x y : Q) :
  0 < x -> x <= y -> round_real x <= round_real y.
Proof.
  intros Hx Hxy. assert (Hy : 0 < y) by lra.
  pose proof (ilog2_mono x y Hx Hxy) as Hi.
  destruct (Z.eq_dec (expo x) (expo y)) as [He|Hne].
  - rewrite (round_real_pos x Hx), (round_real_pos y Hy).
    rewrite (ulp_eq x Hx), (ulp_eq y Hy), He.
    pose proof (pow2_pos (expo y - 52)) as Hu.
    apply Qmult_le_compat_r; [|lra].
    rewrite <- Zle_Qle. apply rne_mono.
    apply Qmult_le_compat_r; [exact Hxy|].
    apply Qinv_le_0_compat. lra.
  - assert (Hlt : (expo x < expo y)%Z) by (unfold expo in *; lia).
    assert (Hey : expo y = ilog2 y) by (unfold expo in *; lia).
    destruct (ilog2_spec x Hx) as [_ Hx2]. destruct (ilog2_spec y Hy) as [Hy1 _].
    apply Qle_trans with (pow2 (expo x + 1)).
    + apply round_real_upper; [exact Hx | unfold expo; lia |].
      apply Qle_trans with (pow2 (ilog2 x + 1)); [lra|].
      apply pow2_le. unfold expo. lia.
    + apply Qle_trans with (pow2 (expo y)).
      * apply pow2_le. lia.
      * apply round_real_lower; [unfold expo; lia|]. rewrite Hey. exact Hy1.
Qed.

Lemma round_real_nonneg (x : Q) : 0 <= x -> 0 <= round_real x.
Proof.
  intros Hx. destruct (Qeq_dec x 0) as [H0|Hn0].
  - rewrite (round_real_zero x H0). lra.
  - assert (Hp : 0 < x).
    { destruct (Qlt_le_dec 0 x) as [|Hc]; [assumption|]. exfalso. apply Hn0. lra. }
    rewrite (round_real_pos x Hp).
    pose proof (ulp_pos x) as Hu.
    apply Qmult_le_0_compat; [|lra].
    change 0 with (inject_Z 0). rewrite <- Zle_Qle.
    rewrite <- (rne_Z 0). apply rne_mono. change (inject_Z 0) with 0.
    apply Qle_shift_div_l; [exact Hu | lra].
Qed.

Lemma round_real_mono (x y : Q) :
  0 <= x -> x <= y -> round_real x <= round_real y.
Proof.
  intros Hx Hxy. destruct (Qeq_dec x 0) as [H0|Hn0].
  - rewrite (round_real_zero x H0). apply round_real_nonneg. lra.
  - apply round_real_mono_pos; [|exact Hxy].
    destruct (Qlt_le_dec 0 x) as [|Hc]; [assumption|]. exfalso. apply Hn0. lra.
Qed.

(** A number [k * 2^j] with [|k| < 2^53] and [j >= -1074] is a binary64
    number: rounding leaves it as it is. *)
Lemma round_real_exact (x : Q) (k j : Z) :
  (0 < k < 2 ^ 53)%Z -> (-1074 <= j)%Z -> x == inject_Z k * pow2 j ->
  round_real x == x.
Proof.
  intros Hk Hj Hx.
  assert (Hk1 : 0 < inject_Z k) by (change 0 with (inject_Z 0); rewrite <- Zlt_Qlt; lia).
  assert (Hk2 : inject_Z k < pow2 53).
  { rewrite pow2_Z by lia. rewrite <- Zlt_Qlt. lia. }
  pose proof (pow2_pos j) as Hpj.
  assert (Hxp : 0 < x) by (rewrite Hx; apply Qmult_lt_0_compat; assumption).
  assert (Hxu : x < pow2 (53 + j)).
  { rewrite Hx, pow2_add. apply Qmult_lt_compat_r; assumption. }
  pose proof (ilog2_lt x _ Hxp Hxu) as Hi.
  assert (HE : (expo x - 52 <= j)%Z) by (unfold expo, emin; lia).
  rewrite (round_real_pos x Hxp), (ulp_eq x Hxp).
  revert HE. generalize (expo x - 52)%Z. intros e HE.
  pose proof (pow2_pos e) as Hpe.
  assert (Hq : x / pow2 e == inject_Z (k * 2 ^ (j - e))).
  { rewrite inject_Z_mult, <- pow2_Z by lia.
    rewrite (pow2_sub j), Hx. field. lra. }
  rewrite (rne_comp _ _ Hq), rne_Z, <- Hq. field. lra.
Qed.

Lemma round_real_Z (n : Z) :
  (0 <= n < 2 ^ 53)%Z -> round_real (inject_Z n) == inject_Z n.
Proof.
  intros Hn. destruct (Z.eq_dec n 0) as [->|Hne].
  - reflexivity.
  - apply (round_real_exact _ n 0); [lia | lia |].
    change (pow2 0) with 1. ring.
Qed.

Lemma eps_pow2 : eps == pow2 (-53).
Proof. reflexivity. Qed.

Lemma round_real_half_ulp (x : Q) :
  0 < x ->
  x - (1 # 2) * ulp x <= round_real x /\ round_real x <= x + (1 # 2) * ulp x.
Proof.
  intros Hx. rewrite (round_real_pos x Hx).
  pose proof (ulp_pos x) as Hu.
  destruct (rne_error (x / ulp x)) as [Hlo Hhi].
  assert (Hxu : x / ulp x * ulp x == x) by (field; lra).
  set (r := inject_Z (rne (x / ulp x))) in *.
  set (u := ulp x) in *. set (q := x / u) in *.
  clearbody r. clearbody q. clearbody u. split; nra.
Qed.

Lemma ulp_normal (x : Q) : pow2 emin <= x -> ulp x <= 2 * eps * x.
Proof.
  intros Hn. assert (Hx : 0 < x) by (pose proof (pow2_pos emin); lra).
  rewrite (ulp_eq x Hx). unfold expo.
  pose proof (ilog2_ge x emin Hx Hn).
  replace (Z.max (ilog2 x) emin) with (ilog2 x) by lia.
  destruct (ilog2_spec x Hx) as [Hlo _].
  rewrite (pow2_add (ilog2 x) (-52) : pow2 (ilog2 x - 52) == _).
  assert (He : pow2 (-52) == 2 * eps) by reflexivity.
  rewrite He. unfold eps. lra.
Qed.

(** The relative error of rounding a normal number is at most [eps]. *)
Lemma round_real_rel (x : Q) :
  pow2 emin <= x ->
  x * (1 - eps) <= round_real x /\ round_real x <= x * (1 + eps).
Proof.
  intros Hn. assert (Hx : 0 < x) by (pose proof (pow2_pos emin); lra).
  destruct (round_real_half_ulp x Hx) as [Hlo Hhi].
  pose proof (ulp_normal x Hn) as Hu. unfold eps in *. split; lra.
Qed.

Lemma round64_finite (x : Q) :
  0 <= x -> x <= pow2 1023 -> round64 x = FFin (round_real x).
Proof.
  intros H0 Hx. unfold round64.
  assert (Hr : round_real x <= pow2 1023).
  { destruct (Qeq_dec x 0) as [Hz|Hnz].
    - rewrite (round_real_zero x Hz). pose proof (pow2_pos 1023). lra.
    - apply (round_real_upper x 1022); [|unfold emin; lia|exact Hx].
      destruct (Qlt_le_dec 0 x) as [|Hc]; [assumption|]. exfalso. apply Hnz. lra. }
  pose proof (round_real_nonneg x H0) as Hnn.
  destruct (Qle_bool (pow2 emax) (Qabs (round_real x))) eqn:Hb; [|reflexivity].
  apply Qle_bool_iff in Hb. rewrite Qabs_pos in Hb by exact Hnn.
  pose proof (pow2_lt 1023 emax ltac:(unfold emax; lia)). lra.
Qed.

Lemma round_real_comp (x y : Q) : x == y -> round_real x = round_real y.
Proof.
  intros Hxy. unfold round_real.
  destruct (Qeq_bool x 0) eqn:Hx.
  - apply Qeq_bool_iff in Hx.
    assert (Hy : y == 0) by (rewrite <- Hxy; exact Hx).
    apply Qeq_bool_iff in Hy. rewrite Hy. reflexivity.
  - assert (Hy : Qeq_bool y 0 = false).
    { destruct (Qeq_bool y 0) eqn:Hy; [|reflexivity].
      apply Qeq_bool_iff in Hy. rewrite <- Hxy in Hy.
      apply Qeq_bool_iff in Hy. congruence. }
    rewrite Hy. apply Qeq_bool_neq in Hx.
    assert (Ha : 0 < Qabs x).
    { pose proof (Qabs_nonneg x) as Hn.
      destruct (Qeq_dec (Qabs x) 0) as [Hz|Hnz].
      - exfalso. apply Hx. revert Hz. apply Qabs_case; intros; lra.
      - destruct (Qlt_le_dec 0 (Qabs x)) as [|Hc]; [assumption|].
        exfalso. apply Hnz. lra. }
    assert (Hu : ulp x = ulp y).
    { unfold ulp. f_equal. f_equal. f_equal.
      apply ilog2_comp; [exact Ha|]. rewrite Hxy. reflexivity. }
    rewrite <- Hu. apply Qred_complete.
    rewrite (rne_comp (x / ulp x) (y / ulp x)); [reflexivity|].
    generalize (ulp x). intros u. rewrite Hxy. reflexivity.
Qed.

Lemma round64_comp (x y : Q) : x == y -> round64 x = round64 y.
Proof. intros H. unfold round64. rewrite (round_real_comp x y H). reflexivity. Qed.

Lemma Qtrunc_nonneg (q : Q) : 0 <= q -> Qtrunc q = Qfloor q.
Proof.
  intros H. unfold Qtrunc. apply Qle_bool_iff in H. rewrite H. reflexivity.
Qed.

Lemma Qfloor_nonneg (q : Q) : 0 <= q -> (0 <= Qfloor q)%Z.
Proof.
  intros H. rewrite <- (Qfloor_Z 0). apply Qfloor_resp_le. exact H.
Qed.

End FloatFacts.

Module ModelChecks.

(** The rounding of this model against the Standard Library's executable
    specification of IEEE 754 ([SpecFloat], instantiated at binary64), on
    the operations and values the counterexamples go through. *)

Example div_350_1000 :
  round64 (350 # 1000) = of_spec_float (sf_div 350 1000).
Proof. vm_compute. reflexivity. Qed.

Example mul_350_44100 :
  mul (round64 (350 # 1000)) (lit 44100)
  = of_spec_float (SFmul prec emax (sf_div 350 1000) (spec_of_Z 44100)).
Proof. vm_compute. reflexivity. Qed.

Example mul_9_48000 :
  mul (round64 (9 # 1000)) (lit 48000)
  = of_spec_float (SFmul prec emax (sf_div 9 1000) (spec_of_Z 48000)).
Proof. vm_compute. reflexivity. Qed.

Example div_large :
  round64 (100000000000000005 # 1000)
  = of_spec_float (SFdiv prec emax
                     (binary_normalize prec emax 100000000000000005 0 false)
                     (spec_of_Z 1000)).
Proof. vm_compute. reflexivity. Qed.

Example add_third :
  add (round64 (1 # 3)) (lit 44100)
  = of_spec_float (SFadd prec emax (sf_div 1 3) (spec_of_Z 44100)).
Proof. vm_compute. reflexivity. Qed.

Example mul_subnormal :
  mul (round64 (3 * pow2 (-100))) (round64 (pow2 (-975)))
  = of_spec_float (SFmul prec emax (binary_normalize prec emax 3 (-100) false)
                     (binary_normalize prec emax 1 (-975) false)).
Proof. vm_compute. reflexivity. Qed.

Example mul_overflow :
  mul (round64 (pow2 1000)) (round64 (pow2 100))
  = of_spec_float (SFmul prec emax (binary_normalize prec emax 1 1000 false)
                     (binary_normalize prec emax 1 100 false)).
Proof. vm_compute. reflexivity. Qed.

End ModelChecks.

(* ================================================================== *)
(** * Facts on the conversions between milliseconds and frames *)
(* ================================================================== *)

Module FrameFacts.
Import FloatFacts.
Local Open Scope Q_scope.

Lemma round_real_le_pow2 (x : Q) (e : Z) :
  (emin < e)%Z -> 0 <= x -> x <= pow2 e -> round_real x <= pow2 e.
Proof.
  intros He H0 Hx. destruct (Qeq_dec x 0) as [Hz|Hnz].
  - rewrite (round_real_zero x Hz). pose proof (pow2_pos e). lra.
  - replace e with (e - 1 + 1)%Z by lia.
    apply round_real_upper; [|lia|replace (e - 1 + 1)%Z with e by lia; exact Hx].
    destruct (Qlt_le_dec 0 x) as [|Hc]; [assumption|]. exfalso. apply Hnz. lra.
Qed.

Lemma round64_small (x : Q) (e : Z) :
  (emin < e <= 1023)%Z -> 0 <= x -> x <= pow2 e ->
  round64 x = FFin (round_real x).
Proof.
  intros He H0 Hx. apply round64_finite; [exact H0|].
  apply Qle_trans with (1 := Hx). apply pow2_le. lia.
Qed.

Lemma inject_Z_le_pow2 (n e : Z) :
  (0 <= e)%Z -> (n <= 2 ^ e)%Z -> inject_Z n <= pow2 e.
Proof. intros He Hn. rewrite pow2_Z by exact He. rewrite <- Zle_Qle. exact Hn. Qed.

Lemma inject_Z_nonneg (n : Z) : (0 <= n)%Z -> 0 <= inject_Z n.
Proof. intros H. change 0 with (inject_Z 0). rewrite <- Zle_Qle. exact H. Qed.

Lemma inject_Z_pos (n : Z) : (0 < n)%Z -> 0 < inject_Z n.
Proof. intros H. change 0 with (inject_Z 0). rewrite <- Zlt_Qlt. exact H. Qed.

Lemma Qdiv_nonneg (a b : Q) : 0 <= a -> 0 < b -> 0 <= a / b.
Proof. intros Ha Hb. apply Qle_shift_div_l; [exact Hb | lra]. Qed.

Lemma Qdiv_le_self (a b : Q) : 0 <= a -> 1 <= b -> a / b <= a.
Proof. intros Ha Hb. apply Qle_shift_div_r; [lra | nra]. Qed.

Lemma frame_of_ms_ok (ms rate : Z) :
  (0 <= ms < 2 ^ 64)%Z -> (0 <= rate < 2 ^ 53)%Z ->
  frame_of_ms ms rate = Ok (frame_val ms rate).
Proof.
  intros Hms Hrate. unfold frame_of_ms, int_truediv, mul_int, float_of_int.
  change (1000 =? 0)%Z with false. cbv iota.
  set (x := inject_Z ms / inject_Z 1000).
  assert (Hx0 : 0 <= x).
  { apply Qdiv_nonneg; [apply inject_Z_nonneg; lia | reflexivity]. }
  assert (Hx1 : x <= pow2 64).
  { apply Qle_trans with (inject_Z ms).
    - apply Qdiv_le_self; [apply inject_Z_nonneg; lia | discriminate].
    - apply inject_Z_le_pow2; lia. }
  rewrite (round64_small x 64) by (unfold emin; lia || assumption).
  cbn [bind].
  assert (Hr0 : 0 <= inject_Z rate) by (apply inject_Z_nonneg; lia).
  assert (Hr1 : inject_Z rate <= pow2 53) by (apply inject_Z_le_pow2; lia).
  rewrite (round64_small (inject_Z rate) 53) by (unfold emin; lia || assumption).
  cbn [bind mul].
  pose proof (round_real_nonneg x Hx0) as Ha0.
  pose proof (round_real_le_pow2 x 64 ltac:(unfold emin; lia) Hx0 Hx1) as Ha1.
  pose proof (round_real_Z rate Hrate) as Hrr.
  set (a := round_real x) in *.
  assert (Hp0 : 0 <= a * round_real (inject_Z rate)).
  { rewrite Hrr. apply Qmult_le_0_compat; assumption. }
  assert (Hp1 : a * round_real (inject_Z rate) <= pow2 117).
  { rewrite Hrr. rewrite (pow2_add 64 53 : pow2 117 == _).
    pose proof (pow2_pos 64). pose proof (pow2_pos 53).
    apply Qle_trans with (pow2 64 * inject_Z rate).
    - apply Qmult_le_compat_r; assumption.
    - apply Qmult_le_l; assumption. }
  rewrite (round64_small _ 117) by (unfold emin; lia || assumption).
  unfold int_of_float. f_equal.
  rewrite Qtrunc_nonneg by (apply round_real_nonneg; exact Hp0).
  unfold frame_val. fold x. fold a. f_equal.
  apply round_real_comp. rewrite Hrr. reflexivity.
Qed.

Lemma duration_of_frames_ok (frames rate : Z) :
  (0 <= frames < 2 ^ 64)%Z -> (0 < rate)%Z ->
  duration_of_frames frames rate = Ok (duration_val frames rate).
Proof.
  intros Hf Hrate. unfold duration_of_frames, int_truediv.
  replace (rate =? 0)%Z with false by (symmetry; apply Z.eqb_neq; lia).
  set (x := inject_Z frames / inject_Z rate).
  assert (Hr1 : 1 <= inject_Z rate).
  { change 1 with (inject_Z 1). rewrite <- Zle_Qle. lia. }
  assert (Hx0 : 0 <= x).
  { apply Qdiv_nonneg; [apply inject_Z_nonneg; lia | lra]. }
  assert (Hx1 : x <= pow2 64).
  { apply Qle_trans with (inject_Z frames).
    - apply Qdiv_le_self; [apply inject_Z_nonneg; lia | exact Hr1].
    - apply inject_Z_le_pow2; lia. }
  rewrite (round64_small x 64) by (unfold emin; lia || assumption).
  cbn [bind mul lit].
  pose proof (round_real_nonneg x Hx0) as Ha0.
  pose proof (round_real_le_pow2 x 64 ltac:(unfold emin; lia) Hx0 Hx1) as Ha1.
  set (a := round_real x) in *.
  assert (Hp0 : 0 <= a * inject_Z 1000).
  { apply Qmult_le_0_compat; [assumption | discriminate]. }
  assert (Hp1 : a * inject_Z 1000 <= pow2 74).
  { rewrite (pow2_add 64 10 : pow2 74 == _).
    assert (inject_Z 1000 <= pow2 10) by (apply inject_Z_le_pow2; lia).
    pose proof (pow2_pos 64). pose proof (pow2_pos 10).
    apply Qle_trans with (pow2 64 * inject_Z 1000).
    - apply Qmult_le_compat_r; [assumption | discriminate].
    - apply Qmult_le_l; assumption. }
  rewrite (round64_small _ 74) by (unfold emin; lia || assumption).
  unfold int_of_float. f_equal.
  rewrite Qtrunc_nonneg by (apply round_real_nonneg; exact Hp0).
  reflexivity.
Qed.

(** Two roundings in a row: of [x], and of the product with [y]. *)
Lemma round_mul_bounds (x y : Q) (e : Z) :
  (emin <= e)%Z -> pow2 e <= x -> 1 <= y ->
  x * y * ((1 - eps) * (1 - eps)) <= round_real (round_real x * y)
  /\ round_real (round_real x * y) <= x * y * ((1 + eps) * (1 + eps)).
Proof.
  intros He Hx Hy.
  assert (Hn : pow2 emin <= x).
  { apply Qle_trans with (2 := Hx). apply pow2_le. exact He. }
  destruct (round_real_rel x Hn) as [Ha1 Ha2].
  pose proof (round_real_lower x e He Hx) as Ha3.
  pose proof (pow2_pos e) as Hpe. pose proof (pow2_pos emin) as Hpm.
  pose proof (pow2_le emin e He) as Hme.
  set (a := round_real x) in *. clearbody a.
  assert (Hay : pow2 emin <= a * y).
  { apply Qle_trans with (a * 1); [lra|]. apply Qmult_le_l; lra. }
  destruct (round_real_rel (a * y) Hay) as [Hz1 Hz2].
  set (z := round_real (a * y)) in *. clearbody z.
  set (pe := pow2 e) in *. set (pm := pow2 emin) in *. clearbody pe pm.
  unfold eps in *. split; nra.
Qed.

Lemma round_mul_zero (x y : Q) :
  x == 0 -> round_real (round_real x * y) = 0.
Proof.
  intros Hx. rewrite (round_real_zero x Hx). apply round_real_zero. ring.
Qed.

Lemma round_mul_mono (x x' y : Q) :
  0 <= x -> x <= x' -> 0 <= y ->
  round_real (round_real x * y) <= round_real (round_real x' * y).
Proof.
  intros Hx Hxx Hy.
  pose proof (round_real_nonneg x Hx). pose proof (round_real_mono x x' Hx Hxx).
  apply round_real_mono.
  - apply Qmult_le_0_compat; assumption.
  - apply Qmult_le_compat_r; assumption.
Qed.

Lemma round_mul_nonneg (x y : Q) :
  0 <= x -> 0 <= y -> 0 <= round_real (round_real x * y).
Proof.
  intros Hx Hy. apply round_real_nonneg.
  apply Qmult_le_0_compat; [apply round_real_nonneg; exact Hx | exact Hy].
Qed.

Lemma frame_val_nonneg (ms rate : Z) :
  (0 <= ms)%Z -> (0 <= rate)%Z -> (0 <= frame_val ms rate)%Z.
Proof.
  intros Hms Hr. unfold frame_val. apply Qfloor_nonneg, round_mul_nonneg.
  - apply Qdiv_nonneg; [apply inject_Z_nonneg; exact Hms | reflexivity].
  - apply inject_Z_nonneg. exact Hr.
Qed.

Lemma frame_val_mono (ms ms' rate : Z) :
  (0 <= ms <= ms')%Z -> (0 <= rate)%Z ->
  (frame_val ms rate <= frame_val ms' rate)%Z.
Proof.
  intros Hms Hr. unfold frame_val. apply Qfloor_resp_le, round_mul_mono.
  - apply Qdiv_nonneg; [apply inject_Z_nonneg; lia | reflexivity].
  - apply Qmult_le_compat_r; [rewrite <- Zle_Qle; lia | discriminate].
  - apply inject_Z_nonneg. exact Hr.
Qed.

Lemma frame_val_zero (rate : Z) : frame_val 0 rate = 0%Z.
Proof.
  unfold frame_val. rewrite round_mul_zero by reflexivity. reflexivity.
Qed.

(** The computed product is within a thousandth of the exact one. *)
Lemma frame_product_near (ms rate : Z) :
  (1 <= ms)%Z -> (1 <= rate)%Z -> (ms * rate < 2 ^ 51)%Z ->
  let z := round_real (round_real (inject_Z ms / inject_Z 1000) * inject_Z rate) in
  inject_Z (ms * rate) - 1 < 1000 * z /\ 1000 * z < inject_Z (ms * rate) + 1.
Proof.
  intros Hms Hr Hb z.
  assert (HM : 1 <= inject_Z ms) by (change 1 with (inject_Z 1); rewrite <- Zle_Qle; lia).
  assert (HR : 1 <= inject_Z rate) by (change 1 with (inject_Z 1); rewrite <- Zle_Qle; lia).
  assert (Hx : pow2 (-10) <= inject_Z ms / inject_Z 1000).
  { apply Qle_shift_div_l; [reflexivity|].
    apply Qle_trans with 1; [|exact HM]. discriminate. }
  destruct (round_mul_bounds _ (inject_Z rate) (-10) ltac:(unfold emin; lia) Hx HR)
    as [Hlo Hhi].
  fold z in Hlo, Hhi.
  assert (HP : inject_Z (ms * rate) < inject_Z (2 ^ 51)) by (rewrite <- Zlt_Qlt; exact Hb).
  rewrite inject_Z_mult in *.
  assert (Hv : 1000 * (inject_Z ms / inject_Z 1000 * inject_Z rate)
               == inject_Z ms * inject_Z rate) by (field; discriminate).
  set (v := inject_Z ms / inject_Z 1000 * inject_Z rate) in *.
  set (M := inject_Z ms) in *. set (R := inject_Z rate) in *.
  assert (HMR : 1 <= M * R) by nra.
  clearbody z v M R. unfold eps in *.
  change (inject_Z (2 ^ 51)) with (2251799813685248 # 1) in HP.
  split; nra.
Qed.

(** The frame index the program computes is the exact one,
    [ms * rate / 1000] rounded down, or one less; and it is the exact one
    whenever [ms * rate] is not a multiple of [1000]. *)
Lemma frame_val_near (ms rate : Z) :
  (0 <= ms)%Z -> (0 < rate)%Z -> (ms * rate < 2 ^ 51)%Z ->
  (ms * rate / 1000 - 1 <= frame_val ms rate <= ms * rate / 1000)%Z
  /\ ((ms * rate) mod 1000 <> 0 -> frame_val ms rate = ms * rate / 1000)%Z.
Proof.
  intros Hms Hr Hb.
  destruct (Z.eq_dec ms 0) as [->|Hne].
  - rewrite frame_val_zero. cbn. split; [lia | intros H; reflexivity].
  - destruct (frame_product_near ms rate ltac:(lia) ltac:(lia) Hb) as [Hlo Hhi].
    cbv zeta in Hlo, Hhi. unfold frame_val.
    set (z := round_real (round_real (inject_Z ms / inject_Z 1000) * inject_Z rate)) in *.
    destruct (floor_bounds z) as [Hf1 Hf2].
    set (f := Qfloor z) in *.
    pose proof (Z.div_mod (ms * rate) 1000 ltac:(lia)) as Hdm.
    pose proof (Z.mod_pos_bound (ms * rate) 1000 ltac:(lia)) as Hmod.
    set (P := (ms * rate)%Z) in *. set (F := (P / 1000)%Z) in *.
    assert (H1 : (1000 * f < P + 1)%Z).
    { rewrite Zlt_Qlt, inject_Z_mult, inject_Z_plus.
      change (inject_Z 1000) with 1000. change (inject_Z 1) with 1. lra. }
    assert (H2 : (P - 1 < 1000 * (f + 1))%Z).
    { rewrite Zlt_Qlt, inject_Z_mult, inject_Z_plus. unfold Zminus.
      rewrite inject_Z_plus.
      change (inject_Z 1000) with 1000. change (inject_Z 1) with 1.
      change (inject_Z (- (1))) with (- (1)). lra. }
    split; [lia|]. intros Hnz. lia.
Qed.

End FrameFacts.

(* ================================================================== *)
(** * Facts on the [wave] reader and the cutting methods *)
(* ================================================================== *)

Module WaveFacts.
Import FloatFacts FrameFacts.

Lemma framesize_pos (w : Wave_read) : wave_ok w -> 0 < framesize w.
Proof. intros [? ? ? ? ?]. unfold framesize. nia. Qed.

Lemma nframes_bounds (w : Wave_read) :
  wave_ok w ->
  0 <= nframes w < 2 ^ 32
  /\ nframes w * framesize w <= Z.of_nat (List.length (data w)).
Proof.
  intros Hw. pose proof (framesize_pos w Hw) as Hfs.
  destruct Hw as [_ _ _ Hd Hn]. rewrite Hn.
  set (len := Z.of_nat (List.length (data w))) in *.
  assert (0 <= len) by (unfold len; lia).
  pose proof (Z.mul_div_le len (framesize w) Hfs).
  pose proof (Z.div_pos len (framesize w) ltac:(lia) Hfs).
  pose proof (Z.div_le_upper_bound len (framesize w) len Hfs ltac:(nia)).
  split; [lia | nia].
Qed.

Lemma setpos_ok (w : Wave_read) (pos : Z) :
  0 <= pos <= nframes w -> setpos w pos = Ok (set_soundpos w pos).
Proof.
  intros H. unfold setpos.
  replace (pos <? 0) with false by (symmetry; apply Z.ltb_ge; lia).
  replace (nframes w <? pos) with false by (symmetry; apply Z.ltb_ge; lia).
  reflexivity.
Qed.

Lemma readframes_range (w : Wave_read) (pos n : Z) :
  wave_ok w -> 0 <= n ->
  fst (readframes (set_soundpos w pos) n) = frame_range w pos (pos + n).
Proof.
  intros Hw Hn. pose proof (framesize_pos w Hw) as Hfs.
  unfold readframes, frame_range.
  replace (pos + n - pos) with n by lia.
  destruct (n =? 0) eqn:H0.
  - apply Z.eqb_eq in H0. subst n. reflexivity.
  - cbn [fst soundpos set_soundpos data].
    change (framesize (set_soundpos w pos)) with (framesize w).
    replace (n * framesize w <? 0) with false by (symmetry; apply Z.ltb_ge; nia).
    reflexivity.
Qed.

Lemma frame_range_length (w : Wave_read) (a b : Z) :
  wave_ok w -> 0 <= a <= b -> b <= nframes w ->
  Z.of_nat (List.length (frame_range w a b)) = (b - a) * framesize w.
Proof.
  intros Hw Hab Hb. pose proof (framesize_pos w Hw) as Hfs.
  destruct (nframes_bounds w Hw) as [_ Hlen].
  unfold frame_range. rewrite length_firstn, length_skipn.
  nia.
Qed.

Lemma frame_range_set_soundpos (w : Wave_read) (pos a b : Z) :
  frame_range (set_soundpos w pos) a b = frame_range w a b.
Proof. reflexivity. Qed.

(** ** The duration and the frame indices of a loaded file *)

Local Open Scope Q_scope.

Lemma duration_val_zero (rate : Z) : duration_val 0 rate = 0%Z.
Proof.
  unfold duration_val. rewrite round_mul_zero; [reflexivity|].
  unfold Qdiv. ring.
Qed.

Lemma duration_val_bound (frames rate : Z) :
  (0 <= frames < 2 ^ 32)%Z -> (0 < rate < 2 ^ 32)%Z ->
  (0 <= duration_val frames rate)%Z
  /\ (duration_val frames rate * rate < 1000 * (frames + 1))%Z.
Proof.
  intros Hf Hr.
  assert (HR1 : 1 <= inject_Z rate).
  { change 1 with (inject_Z 1). rewrite <- Zle_Qle. lia. }
  assert (HR2 : inject_Z rate <= pow2 32) by (apply inject_Z_le_pow2; lia).
  destruct (Z.eq_dec frames 0) as [->|Hne].
  - rewrite duration_val_zero. lia.
  - assert (HT1 : 1 <= inject_Z frames).
    { change 1 with (inject_Z 1). rewrite <- Zle_Qle. lia. }
    assert (HT2 : inject_Z frames < inject_Z (2 ^ 32)) by (rewrite <- Zlt_Qlt; lia).
    assert (Hx : pow2 (-32) <= inject_Z frames / inject_Z rate).
    { apply Qle_shift_div_l; [lra|].
      assert (pow2 (-32) * pow2 32 == 1) by (rewrite <- pow2_add; reflexivity).
      pose proof (pow2_pos (-32)). nra. }
    destruct (round_mul_bounds _ (inject_Z 1000) (-32) ltac:(unfold emin; lia) Hx
                ltac:(discriminate)) as [Hlo Hhi].
    unfold duration_val.
    set (p := round_real (round_real (inject_Z frames / inject_Z rate) * inject_Z 1000)) in *.
    destruct (floor_bounds p) as [Hd1 Hd2].
    assert (Hp0 : 0 <= p).
    { apply round_mul_nonneg; [|discriminate]. apply Qdiv_nonneg; lra. }
    assert (Hq : inject_Z frames / inject_Z rate * inject_Z rate == inject_Z frames).
    { field. lra. }
    split.
    + apply Qfloor_nonneg. exact Hp0.
    + rewrite Zlt_Qlt, !inject_Z_mult, inject_Z_plus.
      change (inject_Z 1000) with 1000 in *. change (inject_Z 1) with 1.
      change (inject_Z (2 ^ 32)) with 4294967296 in HT2.
      set (q := inject_Z frames / inject_Z rate) in *.
      set (T := inject_Z frames) in *. set (R := inject_Z rate) in *.
      set (D := inject_Z (Qfloor p)) in *.
      clearbody D p q T R. unfold eps in *.
      assert (HDR : D * R <= p * R) by (apply Qmult_le_compat_r; lra).
      assert (HpR : p * R <= T * (1000 * ((1 + (1 # 9007199254740992)) * (1 + (1 # 9007199254740992))))).
      { apply Qle_trans with (q * 1000 * ((1 + (1 # 9007199254740992)) * (1 + (1 # 9007199254740992))) * R).
        - apply Qmult_le_compat_r; lra.
        - rewrite <- Hq. apply Qle_lteq. right. ring. }
      lra.
Qed.
End WaveFacts.

Module CutterFacts.
Import FloatFacts FrameFacts WaveFacts.

Lemma init_wave_ok (w : Wave_read) (self : WaveCutter) :
  wave_ok w -> init_wave w = Ok self -> cutter_ok self.
Proof.
  intros Hw Hinit. unfold init_wave in Hinit.
  destruct (nframes_bounds w Hw) as [HT _].
  pose proof (ok_framerate w Hw) as HR.
  destruct (Z.eq_dec (framerate w) 0) as [H0|Hn0].
  - unfold duration_of_frames, int_truediv in Hinit. rewrite H0 in Hinit.
    cbn in Hinit. discriminate.
  - rewrite duration_of_frames_ok in Hinit by lia.
    injection Hinit as <-. constructor; cbn; try reflexivity; try assumption. lia.
Qed.

Lemma total_frames_bounds (self : WaveCutter) :
  cutter_ok self ->
  0 <= total_frames self < 2 ^ 32 /\ 0 < sample_rate self < 2 ^ 32.
Proof.
  intros H. destruct (nframes_bounds _ (ok_file self H)) as [HT _].
  pose proof (ok_framerate _ (ok_file self H)). pose proof (ok_rate_pos self H).
  rewrite (ok_total self H), (ok_rate self H) in *. lia.
Qed.

Lemma duration_ms_bounds (self : WaveCutter) :
  cutter_ok self ->
  0 <= duration_ms self
  /\ duration_ms self * sample_rate self < 1000 * (total_frames self + 1).
Proof.
  intros H. destruct (total_frames_bounds self H) as [HT HR].
  rewrite (ok_duration self H). apply duration_val_bound; assumption.
Qed.

(** Under the guards of the cutting methods a time in milliseconds becomes
    a frame index of the file. *)
Lemma frame_in_file (self : WaveCutter) (ms : Z) :
  cutter_ok self -> 0 <= ms <= duration_ms self ->
  frame_of_ms ms (sample_rate self) = Ok (frame_val ms (sample_rate self))
  /\ 0 <= frame_val ms (sample_rate self) <= total_frames self.
Proof.
  intros H Hms. destruct (total_frames_bounds self H) as [HT HR].
  destruct (duration_ms_bounds self H) as [HD0 HD].
  set (R := sample_rate self) in *. set (T := total_frames self) in *.
  set (D := duration_ms self) in *.
  assert (Hprod : ms * R < 1000 * (T + 1)) by nia.
  assert (Hms64 : ms < 2 ^ 64) by nia.
  split.
  - apply frame_of_ms_ok; lia.
  - split; [apply frame_val_nonneg; lia|].
    destruct (frame_val_near ms R ltac:(lia) ltac:(lia) ltac:(lia)) as [[_ Hup] _].
    pose proof (Z.div_lt_upper_bound (ms * R) 1000 (T + 1) ltac:(lia) Hprod).
    lia.
Qed.

Lemma frame_order (self : WaveCutter) (a b : Z) :
  cutter_ok self -> 0 <= a <= b ->
  frame_val a (sample_rate self) <= frame_val b (sample_rate self).
Proof.
  intros H Hab. apply frame_val_mono; [exact Hab|].
  pose proof (ok_rate_pos self H). lia.
Qed.

Lemma wav_cut_from_front_value (self : WaveCutter) (ms : Z) :
  cutter_ok self -> 0 <= ms <= duration_ms self ->
  value (_wav_cut_from_front self ms)
  = Ok (frame_range (wave_file self) (frame_val ms (sample_rate self))
                    (total_frames self)).
Proof.
  intros H Hms. destruct (frame_in_file self ms H Hms) as [Hf Hb].
  pose proof (ok_file self H) as Hw. pose proof (ok_total self H) as HT.
  unfold _wav_cut_from_front. rewrite Hf. cbn [bind].
  set (f := frame_val ms (sample_rate self)) in *.
  rewrite setpos_ok by lia. cbn [bind].
  pose proof (readframes_range (wave_file self) f (total_frames self - f) Hw ltac:(lia)) as Hr.
  destruct (readframes _ _) as [frames w']. cbn [fst] in Hr. cbn [value fst].
  rewrite Hr. do 2 f_equal. lia.
Qed.

Lemma wav_cut_from_back_value (self : WaveCutter) (ms : Z) :
  cutter_ok self -> 0 <= ms <= duration_ms self ->
  value (_wav_cut_from_back self ms)
  = Ok (frame_range (wave_file self) 0
                    (total_frames self - frame_val ms (sample_rate self))).
Proof.
  intros H Hms. destruct (frame_in_file self ms H Hms) as [Hf Hb].
  pose proof (ok_file self H) as Hw. pose proof (ok_total self H) as HT.
  unfold _wav_cut_from_back. rewrite Hf. cbn [bind].
  set (f := frame_val ms (sample_rate self)) in *.
  rewrite setpos_ok by lia. cbn [bind].
  pose proof (readframes_range (wave_file self) 0 (total_frames self - f) Hw ltac:(lia)) as Hr.
  destruct (readframes _ _) as [frames w']. cbn [fst] in Hr. cbn [value fst].
  rewrite Hr. reflexivity.
Qed.

Lemma wav_extract_segment_value (self : WaveCutter) (start_ms end_ms : Z) :
  cutter_ok self -> 0 <= start_ms <= end_ms -> end_ms <= duration_ms self ->
  value (_wav_extract_segment self start_ms end_ms)
  = Ok (frame_range (wave_file self) (frame_val start_ms (sample_rate self))
                    (frame_val end_ms (sample_rate self))).
Proof.
  intros H Hse He.
  destruct (frame_in_file self start_ms H ltac:(lia)) as [Hf1 Hb1].
  destruct (frame_in_file self end_ms H ltac:(lia)) as [Hf2 Hb2].
  pose proof (frame_order self start_ms end_ms H Hse) as Ho.
  pose proof (ok_file self H) as Hw. pose proof (ok_total self H) as HT.
  unfold _wav_extract_segment. rewrite Hf1, Hf2. cbn [bind].
  set (f1 := frame_val start_ms (sample_rate self)) in *.
  set (f2 := frame_val end_ms (sample_rate self)) in *.
  rewrite setpos_ok by lia. cbn [bind].
  pose proof (readframes_range (wave_file self) f1 (f2 - f1) Hw ltac:(lia)) as Hr.
  destruct (readframes _ _) as [frames w']. cbn [fst] in Hr. cbn [value fst].
  rewrite Hr. do 2 f_equal. lia.
Qed.

Lemma wav_cut_from_middle_value (self : WaveCutter) (start_ms end_ms : Z) :
  cutter_ok self -> 0 <= start_ms <= end_ms -> end_ms <= duration_ms self ->
  value (_wav_cut_from_middle self start_ms end_ms)
  = Ok (frame_range (wave_file self) 0 (frame_val start_ms (sample_rate self))
        ++ frame_range (wave_file self) (frame_val end_ms (sample_rate self))
                       (total_frames self)).
Proof.
  intros H Hse He.
  destruct (frame_in_file self start_ms H ltac:(lia)) as [Hf1 Hb1].
  destruct (frame_in_file self end_ms H ltac:(lia)) as [Hf2 Hb2].
  pose proof (ok_file self H) as Hw. pose proof (ok_total self H) as HT.
  unfold _wav_cut_from_middle. rewrite Hf1, Hf2. cbn [bind].
  set (f1 := frame_val start_ms (sample_rate self)) in *.
  set (f2 := frame_val end_ms (sample_rate self)) in *.
  rewrite setpos_ok by lia. cbn [bind].
  pose proof (readframes_range (wave_file self) 0 f1 Hw ltac:(lia)) as Hr1.
  destruct (readframes (set_soundpos (wave_file self) 0) f1) as [before_data w1] eqn:E1.
  cbn [fst] in Hr1.
  assert (Hw1 : w1 = set_soundpos (wave_file self) (soundpos w1)).
  { unfold readframes in E1. destruct (f1 =? 0); injection E1 as _ <-; reflexivity. }
  assert (Hn1 : nframes w1 = nframes (wave_file self)) by (rewrite Hw1; reflexivity).
  rewrite setpos_ok by lia. cbn [bind].
  rewrite Hw1.
  pose proof (readframes_range (wave_file self) f2 (total_frames self - f2) Hw ltac:(lia)) as Hr2.
  change (set_soundpos (set_soundpos (wave_file self) (soundpos w1)) f2)
    with (set_soundpos (wave_file self) f2).
  destruct (readframes (set_soundpos (wave_file self) f2) _) as [after_data w3].
  cbn [fst] in Hr2. cbn [value fst].
  rewrite Hr1, Hr2. do 3 f_equal. lia.
Qed.
End CutterFacts.

Module ExampleFacts.

Lemma example_wave_ok : wave_ok example_wave.
Proof. constructor; cbn; try lia; reflexivity. Defined.

Lemma example_loaded : loaded example_cutter.
Proof.
  exists example_env, "in.wav"%string. split.
  - intros w H. injection H as <-. exact example_wave_ok.
  - vm_compute. reflexivity.
Defined.

End ExampleFacts.

(* ================================================================== *)
(** * The segment editor: guards and results *)
(* ================================================================== *)

Section EditorClaims.

Import FloatFacts FrameFacts WaveFacts CutterFacts.

Variable AudioSegment : Type.
Variable seg_len : AudioSegment -> Z.
Variable seg_slice : AudioSegment -> option Z -> option Z -> AudioSegment.
Variable seg_add : AudioSegment -> AudioSegment -> AudioSegment.

Local Abbreviation cutter := (AudioCutter AudioSegment).

Lemma loaded_wave (self : WaveCutter) :
  loaded (Wave self : cutter) -> cutter_ok self.
Proof.
  intros (env & input_file & Hopen & Hinit).
  unfold AudioCutter_init in Hinit.
  destruct (negb (file_exists env)); [discriminate|].
  destruct (PYDUB_AVAILABLE env).
  { destruct (from_file env); discriminate. }
  destruct (negb _); [discriminate|].
  destruct (wave_open env) as [w|e] eqn:Hw; [|discriminate].
  cbn [bind] in Hinit.
  destruct (init_wave w) as [self'|e] eqn:Hi; [|discriminate].
  injection Hinit as <-. apply (init_wave_ok w); [apply Hopen; reflexivity | exact Hi].
Qed.

Lemma value_wav_result (r : result (list byte * WaveCutter)) (b : list byte) :
  value r = Ok b -> value (wav_result r : result (AudioData AudioSegment * cutter)) = Ok (Frames b).
Proof.
  destruct r as [[b' s']|e]; cbn; [|discriminate].
  intros H. injection H as <-. reflexivity.
Qed.

Lemma value_ok_not_raises {A S : Type} (r : result (A * S)) (a : A) :
  value r = Ok a -> ~ raises r.
Proof. intros H [e He]. rewrite He in H. discriminate. Qed.

(** C3. For every loaded audio source and every duration [d], [cutFront]
    and [cutBack] fail, with a [ValueError], exactly when [d <= 0] or
    [d >= duration]; otherwise [cutFront] returns the samples from [d] to
    the end and [cutBack] those from the start to [d] before the end.  On
    the raw-PCM backend [d] counts in frames, as [frame_of_ms] converts
    it. *)
Theorem cut_front_back_spec (c : cutter) (d : Z) :
  loaded c ->
  (raises (cut_from_front seg_len seg_slice c d)
   <-> d <= 0 \/ get_duration seg_len c <= d)
  /\ (raises (cut_from_back seg_len seg_slice c d)
      <-> d <= 0 \/ get_duration seg_len c <= d)
  /\ (d <= 0 \/ get_duration seg_len c <= d ->
      cut_from_front seg_len seg_slice c d = Raise ValueError
      /\ cut_from_back seg_len seg_slice c d = Raise ValueError)
  /\ (0 < d < get_duration seg_len c ->
      match c with
      | Pydub audio =>
          value (cut_from_front seg_len seg_slice c d)
          = Ok (Segment (seg_slice audio (Some d) None))
          /\ value (cut_from_back seg_len seg_slice c d)
             = Ok (Segment (seg_slice audio None (Some (- d))))
      | Wave self =>
          let f := frame_val d (sample_rate self) in
          value (cut_from_front seg_len seg_slice c d)
          = Ok (Frames (frame_range (wave_file self) f (total_frames self)))
          /\ value (cut_from_back seg_len seg_slice c d)
             = Ok (Frames (frame_range (wave_file self) 0 (total_frames self - f)))
      end).
Proof.
  intros Hl.
  assert (Hfail : d <= 0 \/ get_duration seg_len c <= d ->
                  cut_from_front seg_len seg_slice c d = Raise ValueError
                  /\ cut_from_back seg_len seg_slice c d = Raise ValueError).
  { intros Hg. unfold cut_from_front, cut_from_back.
    destruct (d <=? 0) eqn:H0; [split; reflexivity|].
    apply Z.leb_gt in H0.
    replace (get_duration seg_len c <=? d) with true
      by (symmetry; apply Z.leb_le; lia).
    split; reflexivity. }
  assert (Hok : 0 < d < get_duration seg_len c ->
      match c with
      | Pydub audio =>
          value (cut_from_front seg_len seg_slice c d)
          = Ok (Segment (seg_slice audio (Some d) None))
          /\ value (cut_from_back seg_len seg_slice c d)
             = Ok (Segment (seg_slice audio None (Some (- d))))
      | Wave self =>
          let f := frame_val d (sample_rate self) in
          value (cut_from_front seg_len seg_slice c d)
          = Ok (Frames (frame_range (wave_file self) f (total_frames self)))
          /\ value (cut_from_back seg_len seg_slice c d)
             = Ok (Frames (frame_range (wave_file self) 0 (total_frames self - f)))
      end).
  { intros Hg. unfold cut_from_front, cut_from_back.
    replace (d <=? 0) with false by (symmetry; apply Z.leb_gt; lia).
    replace (get_duration seg_len c <=? d) with false
      by (symmetry; apply Z.leb_gt; lia).
    destruct c as [audio|self]; [split; reflexivity|].
    pose proof (loaded_wave self Hl) as Hc. cbn [get_duration] in Hg.
    cbv zeta. split; apply value_wav_result.
    - apply wav_cut_from_front_value; [exact Hc | lia].
    - apply wav_cut_from_back_value; [exact Hc | lia]. }
  assert (Hcases : d <= 0 \/ get_duration seg_len c <= d
                   \/ 0 < d < get_duration seg_len c) by lia.
  split; [|split; [|split; assumption]].
  - split.
    + intros Hr. destruct Hcases as [H|[H|H]]; [lia | lia | exfalso].
      specialize (Hok H). destruct c; destruct Hok as [H1 _];
        exact (value_ok_not_raises _ _ H1 Hr).
    + intros Hg. exists ValueError. apply Hfail. exact Hg.
  - split.
    + intros Hr. destruct Hcases as [H|[H|H]]; [lia | lia | exfalso].
      specialize (Hok H). destruct c; destruct Hok as [_ H2];
        exact (value_ok_not_raises _ _ H2 Hr).
    + intros Hg. exists ValueError. apply Hfail. exact Hg.
Qed.


(** C4. For every loaded audio source and all boundaries, [cutMiddle] and
    [extract] fail, with a [ValueError], exactly when [start < 0],
    [end < 0], [start >= end] or [end > duration]; otherwise [cutMiddle]
    returns the part before [start] followed by the part from [end] on,
    and [extract] returns the part from [start] to [end]. *)
Theorem cut_middle_extract_spec (c : cutter) (start_ms end_ms : Z) :
  loaded c ->
  let bad := start_ms < 0 \/ end_ms < 0 \/ end_ms <= start_ms
             \/ get_duration seg_len c < end_ms in
  (raises (cut_from_middle seg_len seg_slice seg_add c start_ms end_ms) <-> bad)
  /\ (raises (extract_segment seg_len seg_slice c start_ms end_ms) <-> bad)
  /\ (bad ->
      cut_from_middle seg_len seg_slice seg_add c start_ms end_ms = Raise ValueError
      /\ extract_segment seg_len seg_slice c start_ms end_ms = Raise ValueError)
  /\ (~ bad ->
      match c with
      | Pydub audio =>
          value (cut_from_middle seg_len seg_slice seg_add c start_ms end_ms)
          = Ok (Segment (seg_add (seg_slice audio None (Some start_ms))
                                 (seg_slice audio (Some end_ms) None)))
          /\ value (extract_segment seg_len seg_slice c start_ms end_ms)
             = Ok (Segment (seg_slice audio (Some start_ms) (Some end_ms)))
      | Wave self =>
          let sf := frame_val start_ms (sample_rate self) in
          let ef := frame_val end_ms (sample_rate self) in
          value (cut_from_middle seg_len seg_slice seg_add c start_ms end_ms)
          = Ok (Frames (frame_range (wave_file self) 0 sf
                        ++ frame_range (wave_file self) ef (total_frames self)))
          /\ value (extract_segment seg_len seg_slice c start_ms end_ms)
             = Ok (Frames (frame_range (wave_file self) sf ef))
      end).
Proof.
  intros Hl bad.
  assert (Hfail : bad ->
      cut_from_middle seg_len seg_slice seg_add c start_ms end_ms = Raise ValueError
      /\ extract_segment seg_len seg_slice c start_ms end_ms = Raise ValueError).
  { intros Hg. unfold cut_from_middle, extract_segment.
    destruct ((start_ms <? 0) || (end_ms <? 0)) eqn:H0; [split; reflexivity|].
    apply orb_false_elim in H0 as [H1 H2].
    apply Z.ltb_ge in H1, H2.
    destruct (end_ms <=? start_ms) eqn:H3; [split; reflexivity|].
    apply Z.leb_gt in H3.
    replace (get_duration seg_len c <? end_ms) with true
      by (symmetry; apply Z.ltb_lt; unfold bad in Hg; lia).
    split; reflexivity. }
  assert (Hok : ~ bad ->
      match c with
      | Pydub audio =>
          value (cut_from_middle seg_len seg_slice seg_add c start_ms end_ms)
          = Ok (Segment (seg_add (seg_slice audio None (Some start_ms))
                                 (seg_slice audio (Some end_ms) None)))
          /\ value (extract_segment seg_len seg_slice c start_ms end_ms)
             = Ok (Segment (seg_slice audio (Some start_ms) (Some end_ms)))
      | Wave self =>
          let sf := frame_val start_ms (sample_rate self) in
          let ef := frame_val end_ms (sample_rate self) in
          value (cut_from_middle seg_len seg_slice seg_add c start_ms end_ms)
          = Ok (Frames (frame_range (wave_file self) 0 sf
                        ++ frame_range (wave_file self) ef (total_frames self)))
          /\ value (extract_segment seg_len seg_slice c start_ms end_ms)
             = Ok (Frames (frame_range (wave_file self) sf ef))
      end).
  { intros Hg. unfold bad in Hg. unfold cut_from_middle, extract_segment.
    replace (start_ms <? 0) with false by (symmetry; apply Z.ltb_ge; lia).
    replace (end_ms <? 0) with false by (symmetry; apply Z.ltb_ge; lia).
    replace (end_ms <=? start_ms) with false by (symmetry; apply Z.leb_gt; lia).
    replace (get_duration seg_len c <? end_ms) with false
      by (symmetry; apply Z.ltb_ge; lia).
    cbn [orb].
    destruct c as [audio|self]; [split; reflexivity|].
    pose proof (loaded_wave self Hl) as Hc. cbn [get_duration] in Hg.
    cbv zeta. split; apply value_wav_result.
    - apply wav_cut_from_middle_value; [exact Hc | lia | lia].
    - apply wav_extract_segment_value; [exact Hc | lia | lia]. }
  assert (Hdec : bad \/ ~ bad) by (unfold bad; lia).
  split; [|split; [|split; assumption]].
  - split.
    + intros Hr. destruct Hdec as [H|H]; [exact H | exfalso].
      specialize (Hok H). destruct c; destruct Hok as [H1 _];
        exact (value_ok_not_raises _ _ H1 Hr).
    + intros Hg. exists ValueError. apply Hfail. exact Hg.
  - split.
    + intros Hr. destruct Hdec as [H|H]; [exact H | exfalso].
      specialize (Hok H). destruct c; destruct Hok as [_ H2];
        exact (value_ok_not_raises _ _ H2 Hr).
    + intros Hg. exists ValueError. apply Hfail. exact Hg.
Qed.

Lemma cut_middle_extract_facts (self : WaveCutter) (start_ms end_ms : Z) :
  cutter_ok self ->
  0 <= start_ms -> start_ms < end_ms -> end_ms <= duration_ms self ->
  let sf := frame_val start_ms (sample_rate self) in
  let ef := frame_val end_ms (sample_rate self) in
  (0 <= sf /\ sf <= ef /\ ef <= total_frames self)
  /\ value (cut_from_middle seg_len seg_slice seg_add (Wave self : cutter) start_ms end_ms)
     = Ok (Frames (frame_range (wave_file self) 0 sf
                   ++ frame_range (wave_file self) ef (total_frames self)))
  /\ value (extract_segment seg_len seg_slice (Wave self : cutter) start_ms end_ms)
     = Ok (Frames (frame_range (wave_file self) sf ef)).
Proof.
  intros Hc H0 Hlt He sf ef.
  destruct (frame_in_file self start_ms Hc ltac:(lia)) as [_ Hb1].
  destruct (frame_in_file self end_ms Hc ltac:(lia)) as [_ Hb2].
  pose proof (frame_order self start_ms end_ms Hc ltac:(lia)) as Ho.
  split; [unfold sf, ef; lia|].
  unfold cut_from_middle, extract_segment.
  replace (start_ms <? 0) with false by (symmetry; apply Z.ltb_ge; lia).
  replace (end_ms <? 0) with false by (symmetry; apply Z.ltb_ge; lia).
  replace (end_ms <=? start_ms) with false by (symmetry; apply Z.leb_gt; lia).
  cbn [get_duration orb].
  replace (duration_ms self <? end_ms) with false by (symmetry; apply Z.ltb_ge; lia).
  split; apply value_wav_result.
  - apply wav_cut_from_middle_value; [exact Hc | lia | lia].
  - apply wav_extract_segment_value; [exact Hc | lia | lia].
Qed.

Lemma frames_in_range (self : WaveCutter) (a b : Z) :
  cutter_ok self -> 0 <= a <= b -> b <= total_frames self ->
  Z.of_nat (List.length (frame_range (wave_file self) a b))
  = (b - a) * (channels self * sample_width self)
  /\ frames_in self (frame_range (wave_file self) a b) = b - a.
Proof.
  intros Hc Hab Hb. pose proof (ok_file self Hc) as Hw.
  pose proof (framesize_pos _ Hw) as Hfs.
  assert (Hbpf : framesize (wave_file self) = channels self * sample_width self).
  { unfold framesize. rewrite (ok_channels self Hc), (ok_width self Hc). reflexivity. }
  pose proof (frame_range_length (wave_file self) a b Hw Hab
                ltac:(rewrite <- (ok_total self Hc); exact Hb)) as Hlen.
  rewrite Hbpf in Hlen, Hfs. split; [exact Hlen|].
  unfold frames_in. rewrite Hlen.
  replace (sample_width self * channels self)
    with (channels self * sample_width self) by lia.
  apply Z.div_mul. lia.
Qed.





End EditorClaims.

(* ================================================================== *)
(** * The conversion from milliseconds to frames *)
(* ================================================================== *)

Module ConversionClaims.
Import FloatFacts FrameFacts.

Lemma spec_frame_div (ms rate : Z) : spec_frame ms rate = ms * rate / 1000.
Proof.
  unfold spec_frame. rewrite Zdiv_Qdiv. apply Qfloor_comp.
  rewrite inject_Z_mult. field.
Qed.

(** C6, as the code has it.  The frame index is the whole part of the
    binary64 product [(ms / 1000) * rate], where the quotient and the
    product are each rounded to the nearest binary64 number.  For
    [rate < 2^53] and [ms * rate < 2^51] it is the exact
    [floor(ms * rate / 1000)] or one less, and it is the exact one
    whenever [ms * rate] is not a multiple of [1000]. *)
Theorem frame_of_ms_near_floor (ms rate : Z) :
  0 <= ms -> 0 < rate < 2 ^ 53 -> ms * rate < 2 ^ 51 ->
  exists f : Z,
    frame_of_ms ms rate = Ok f
    /\ f = Qfloor (round_real (round_real (inject_Z ms / inject_Z 1000)
                               * inject_Z rate))
    /\ spec_frame ms rate - 1 <= f <= spec_frame ms rate
    /\ ((ms * rate) mod 1000 <> 0 -> f = spec_frame ms rate).
Proof.
  intros Hms Hr Hb. exists (frame_val ms rate).
  destruct (frame_val_near ms rate Hms ltac:(lia) Hb) as [Hn He].
  rewrite spec_frame_div.
  split; [|split; [reflexivity | split; assumption]].
  assert (ms <= ms * rate) by nia.
  apply frame_of_ms_ok; lia.
Qed.

(** At 350 ms and 44100 frames per second the code computes frame 15434,
    and the exact floor is 15435. *)
Lemma frame_of_ms_not_floor :
  frame_of_ms 350 44100 = Ok 15434
  /\ spec_frame 350 44100 = 15435
  /\ frame_of_ms 350 44100 <> Ok (spec_frame 350 44100).
Proof.
  assert (H1 : frame_of_ms 350 44100 = Ok 15434) by (vm_compute; reflexivity).
  assert (H2 : spec_frame 350 44100 = 15435) by (vm_compute; reflexivity).
  split; [exact H1 | split; [exact H2|]].
  rewrite H1, H2. discriminate.
Qed.

Lemma frame_of_ms_near_floor_witness :
  exists f : Z,
    frame_of_ms 9 48000 = Ok f
    /\ f = Qfloor (round_real (round_real (inject_Z 9 / inject_Z 1000)
                               * inject_Z 48000))
    /\ spec_frame 9 48000 - 1 <= f <= spec_frame 9 48000
    /\ ((9 * 48000) mod 1000 <> 0 -> f = spec_frame 9 48000).
Proof.
  apply (frame_of_ms_near_floor 9 48000); [lia | lia | reflexivity].
Defined.

End ConversionClaims.
(* ================================================================== *)
(** * Saving on the raw-PCM backend *)
(* ================================================================== *)

Module StrFacts.

Lemma str_eqb_refl (a : str) : str_eqb a a = true.
Proof.
  induction a as [|x a IH]; [reflexivity|].
  cbn. unfold ascii_eqb. rewrite Ascii.eqb_refl. exact IH.
Qed.

Lemma str_eqb_eq (a b : str) : str_eqb a b = true -> a = b.
Proof.
  revert b. induction a as [|x a IH]; intros [|y b] H; try discriminate.
  - reflexivity.
  - cbn in H. apply andb_prop in H as [H1 H2].
    apply Ascii.eqb_eq in H1. subst y. f_equal. apply IH. exact H2.
Qed.

Lemma endswith_app (a b : str) : endswith (a ++ b) b = true.
Proof.
  unfold endswith. rewrite length_app.
  replace (List.length b <=? List.length a + List.length b)%nat with true
    by (symmetry; apply Nat.leb_le; lia).
  replace (List.length a + List.length b - List.length b)%nat
    with (List.length a) by lia.
  rewrite skipn_app, skipn_all, Nat.sub_diag. cbn. apply str_eqb_refl.
Qed.

Lemma endswith_inv (s suffix : str) :
  endswith s suffix = true -> exists a, s = a ++ suffix.
Proof.
  unfold endswith. intros H. apply andb_prop in H as [_ H].
  apply str_eqb_eq in H.
  set (n := (List.length s - List.length suffix)%nat) in H. clearbody n.
  exists (firstn n s). subst suffix. symmetry. apply firstn_skipn.
Qed.

Lemma join_cons (sep : ascii) (p : str) (l : list str) :
  l <> [] -> join sep (p :: l) = p ++ sep :: join sep l.
Proof. destruct l; [contradiction | reflexivity]. Qed.

Lemma join_last (sep : ascii) (l : list str) (x y : str) :
  join sep (l ++ [x ++ y]) = join sep (l ++ [x]) ++ y.
Proof.
  induction l as [|p l IH]; [reflexivity|].
  cbn [app]. rewrite !join_cons by (destruct l; discriminate).
  rewrite IH, <- app_assoc. reflexivity.
Qed.

Lemma path_str_parts (p : PurePath) :
  parts p <> [] -> path_str p = root p ++ join "/" (parts p).
Proof.
  intros H. unfold path_str. destruct (root p), (parts p); try reflexivity.
  contradiction.
Qed.

End StrFacts.

Section SaveClaims.

Import StrFacts.

Variable AudioSegment : Type.
Variable export_ok : AudioSegment -> str -> str -> bool.

Local Abbreviation cutter := (AudioCutter AudioSegment).

Lemma with_suffix_wav (p : PurePath) :
  path_name p <> [] ->
  exists p',
    with_suffix p (str_of ".wav") = Ok p'
    /\ endswith (map lower (path_str p')) (str_of ".wav") = true.
Proof.
  intros Hn. unfold with_suffix.
  destruct (path_name p) as [|c name] eqn:En; [contradiction|].
  eexists. split; [reflexivity|].
  set (base := match path_suffix p with
               | [] => c :: name
               | _ :: _ => slice_to_neg (c :: name) (List.length (path_suffix p))
               end).
  assert (Hb : match path_suffix p with
               | [] => (c :: name) ++ str_of ".wav"
               | _ :: _ => slice_to_neg (c :: name) (List.length (path_suffix p))
                           ++ str_of ".wav"
               end = base ++ str_of ".wav").
  { unfold base. destruct (path_suffix p); reflexivity. }
  rewrite Hb. rewrite path_str_parts by (cbn; destruct (removelast (parts p)); discriminate).
  cbn [root parts].
  rewrite join_last, app_assoc, map_app. apply endswith_app.
Qed.


End SaveClaims.

Module SaveExamples.



End SaveExamples.

(* ================================================================== *)
(** * The editor on the example file *)
(* ================================================================== *)

Module EditorExamples.
Import ExampleFacts.

Lemma cut_front_back_spec_witness :
  value (cut_from_front ms_len ms_slice example_cutter 1)
  = Ok (Frames [x08; x09; x0a; x0b; x0c; x0d; x0e; x0f])
  /\ value (cut_from_back ms_len ms_slice example_cutter 1)
     = Ok (Frames [x00; x01; x02; x03; x04; x05; x06; x07])
  /\ cut_from_front ms_len ms_slice example_cutter 2 = Raise ValueError.
Proof.
  destruct (cut_front_back_spec ms_segment ms_len ms_slice example_cutter 1
              example_loaded) as (_ & _ & _ & Hok).
  destruct (cut_front_back_spec ms_segment ms_len ms_slice example_cutter 2
              example_loaded) as (_ & _ & Hfail & _).
  specialize (Hok ltac:(cbn; lia)). specialize (Hfail ltac:(cbn; lia)).
  destruct Hok as [H1 H2]. destruct Hfail as [H3 _].
  split; [|split; [|exact H3]].
  - rewrite H1. vm_compute. reflexivity.
  - rewrite H2. vm_compute. reflexivity.
Defined.

Lemma cut_middle_extract_spec_witness :
  value (cut_from_middle ms_len ms_slice ms_add example_cutter 1 2)
  = Ok (Frames [x00; x01; x02; x03; x04; x05; x06; x07])
  /\ value (extract_segment ms_len ms_slice example_cutter 1 2)
     = Ok (Frames [x08; x09; x0a; x0b; x0c; x0d; x0e; x0f])
  /\ cut_from_middle ms_len ms_slice ms_add example_cutter 1 1 = Raise ValueError.
Proof.
  destruct (cut_middle_extract_spec ms_segment ms_len ms_slice ms_add
              example_cutter 1 2 example_loaded) as (_ & _ & _ & Hok).
  destruct (cut_middle_extract_spec ms_segment ms_len ms_slice ms_add
              example_cutter 1 1 example_loaded) as (_ & _ & Hfail & _).
  specialize (Hok ltac:(cbn; lia)). specialize (Hfail ltac:(cbn; lia)).
  destruct Hok as [H1 H2]. destruct Hfail as [H3 _].
  split; [|split; [|exact H3]].
  - rewrite H1. vm_compute. reflexivity.
  - rewrite H2. vm_compute. reflexivity.
Defined.




End EditorExamples.

(* ================================================================== *)
(** * The time parser on the documented inputs *)
(* ================================================================== *)

Module ParserClaims.
Local Open Scope string_scope.

(** C1. [parse_time] returns 90000 for [1:30], 5000 for [5s] and 5025000
    for [1:23:45]; for [500ms] it does not return 500 but raises a
    [ValueError]: the string ends in [s], so the first branch takes it and
    hands [500m] to [float]. *)
Theorem parse_time_documented_inputs :
  parse_time "1:30" = Ok (PyInt 90000)
  /\ parse_time "5s" = Ok (PyInt 5000)
  /\ parse_time "500ms" = Raise ValueError
  /\ parse_time "1:23:45" = Ok (PyInt 5025000).
Proof. vm_compute. repeat split; reflexivity. Qed.

(** C2. A string of four fields between colons is in none of the
    accepted forms, and [parse_time] raises nothing for it: the function
    ends without a [return], and the caller receives [None]. *)
Theorem parse_time_four_fields :
  parse_time "1:2:3:4" = Ok PyNone.
Proof. vm_compute. reflexivity. Qed.

End ParserClaims.

(* ================================================================== *)
(** * Facts on digits, on [float] of a string and on the formatter *)
(* ================================================================== *)

Module DigitFacts.

Lemma digit_char_spec (d : Z) :
  0 <= d < 10 ->
  is_digit (digit_char d) = true /\ digit_value (digit_char d) = d.
Proof.
  intros H.
  assert (Hc : d = 0 \/ d = 1 \/ d = 2 \/ d = 3 \/ d = 4
               \/ d = 5 \/ d = 6 \/ d = 7 \/ d = 8 \/ d = 9) by lia.
  repeat (destruct Hc as [->|Hc]; [split; reflexivity|]).
  subst d. split; reflexivity.
Qed.

Lemma digits_value_app (a b : str) :
  digits_value (a ++ b)
  = digits_value a * 10 ^ Z.of_nat (List.length b) + digits_value b.
Proof.
  unfold digits_value.
  assert (H : forall (b : str) (x : Z),
             fold_left (fun acc c => 10 * acc + digit_value c) b x
             = x * 10 ^ Z.of_nat (List.length b)
               + fold_left (fun acc c => 10 * acc + digit_value c) b 0).
  { clear. induction b as [|c b IH]; intros x.
    - cbn. lia.
    - cbn [fold_left List.length]. rewrite (IH (10 * x + digit_value c)).
      rewrite (IH (10 * 0 + digit_value c)).
      rewrite Nat2Z.inj_succ, Z.pow_succ_r by lia. lia. }
  rewrite fold_left_app. apply H.
Qed.

Lemma digits_value_single (c : ascii) : digits_value [c] = digit_value c.
Proof. unfold digits_value. cbn. lia. Qed.

Lemma digits_aux_app (fuel : nat) :
  forall (n : Z) (acc : str),
    digits_aux fuel n acc = digits_aux fuel n [] ++ acc.
Proof.
  induction fuel as [|fuel IH]; intros n acc; [reflexivity|].
  cbn [digits_aux]. destruct (n <? 10); [reflexivity|].
  rewrite (IH _ (_ :: acc)), (IH _ [_]), <- app_assoc. reflexivity.
Qed.

Lemma digits_aux_unfold (fuel : nat) (n : Z) :
  digits_aux (S fuel) n []
  = if n <? 10 then [digit_char (n mod 10)]
    else digits_aux fuel (n / 10) [] ++ [digit_char (n mod 10)].
Proof.
  cbn [digits_aux]. destruct (n <? 10); [reflexivity|]. apply digits_aux_app.
Qed.

(** Fuel beyond the binary size of [n] changes nothing. *)
Lemma digits_aux_fuel (fuel : nat) :
  forall (fuel' : nat) (n : Z),
    (1 <= fuel)%nat -> (1 <= fuel')%nat ->
    0 <= n < 2 ^ Z.of_nat fuel -> n < 2 ^ Z.of_nat fuel' ->
    digits_aux fuel n [] = digits_aux fuel' n [].
Proof.
  induction fuel as [|fuel IH]; intros fuel' n H1 H1' Hn Hn'; [lia|].
  destruct fuel' as [|fuel']; [lia|].
  rewrite !digits_aux_unfold. destruct (n <? 10) eqn:Hlt; [reflexivity|].
  apply Z.ltb_ge in Hlt. f_equal.
  rewrite Nat2Z.inj_succ, Z.pow_succ_r in Hn, Hn' by lia.
  assert (Hq : 1 <= n / 10) by (apply Z.div_le_lower_bound; lia).
  assert (Hq1 : n / 10 < 2 ^ Z.of_nat fuel) by (apply Z.div_lt_upper_bound; lia).
  assert (Hq2 : n / 10 < 2 ^ Z.of_nat fuel') by (apply Z.div_lt_upper_bound; lia).
  apply IH.
  - destruct fuel; [cbn in Hq1; lia | lia].
  - destruct fuel'; [cbn in Hq2; lia | lia].
  - lia.
  - exact Hq2.
Qed.

Lemma log2_fuel (n : Z) :
  0 <= n -> n < 2 ^ Z.of_nat (S (Z.to_nat (Z.log2 n))).
Proof.
  intros H. rewrite Nat2Z.inj_succ, Z2Nat.id by apply Z.log2_nonneg.
  destruct (Z.eq_dec n 0) as [->|Hn]; [cbn; lia|].
  apply Z.log2_spec. lia.
Qed.

Lemma digits_of_unfold (n : Z) :
  0 <= n ->
  digits_of n = if n <? 10 then [digit_char n]
                else digits_of (n / 10) ++ [digit_char (n mod 10)].
Proof.
  intros Hn. unfold digits_of. rewrite digits_aux_unfold.
  destruct (n <? 10) eqn:Hlt.
  - apply Z.ltb_lt in Hlt. rewrite Z.mod_small by lia. reflexivity.
  - apply Z.ltb_ge in Hlt. f_equal.
    assert (Hq : 1 <= n / 10) by (apply Z.div_le_lower_bound; lia).
    pose proof (log2_fuel n Hn) as Hf.
    rewrite Nat2Z.inj_succ, Z.pow_succ_r in Hf by lia.
    assert (Hq1 : n / 10 < 2 ^ Z.of_nat (Z.to_nat (Z.log2 n)))
      by (apply Z.div_lt_upper_bound; lia).
    apply digits_aux_fuel.
    + destruct (Z.to_nat (Z.log2 n)); [cbn in Hq1; lia | lia].
    + lia.
    + lia.
    + apply log2_fuel. lia.
Qed.

Lemma digits_of_spec (n : Z) :
  0 <= n ->
  all_digits (digits_of n) /\ digits_of n <> [] /\ digits_value (digits_of n) = n.
Proof.
  intros Hn. pattern n. apply Zlt_0_ind; [|exact Hn].
  clear n Hn. intros n IH Hn. rewrite (digits_of_unfold n Hn).
  destruct (n <? 10) eqn:Hlt.
  - apply Z.ltb_lt in Hlt. destruct (digit_char_spec n ltac:(lia)) as [Hd Hv].
    split; [repeat constructor; exact Hd|]. split; [discriminate|].
    rewrite digits_value_single. exact Hv.
  - apply Z.ltb_ge in Hlt.
    pose proof (Z.mod_pos_bound n 10 ltac:(lia)) as Hm.
    destruct (digit_char_spec (n mod 10) Hm) as [Hd Hv].
    assert (Hq : 0 <= n / 10 < n).
    { split; [apply Z.div_pos; lia | apply Z.div_lt; lia]. }
    destruct (IH (n / 10) Hq) as (Ha & Hne & Hval).
    split; [|split].
    + apply Forall_app. split; [exact Ha | repeat constructor; exact Hd].
    + destruct (digits_of (n / 10)); discriminate.
    + rewrite digits_value_app, digits_value_single, Hval, Hv. cbn.
      pose proof (Z.div_mod n 10 ltac:(lia)). lia.
Qed.

Lemma digits_of_length (n : Z) (k : nat) :
  0 <= n < 10 ^ Z.of_nat k -> (1 <= k)%nat ->
  (List.length (digits_of n) <= k)%nat.
Proof.
  revert n. induction k as [|k IH]; intros n Hn Hk; [lia|].
  rewrite (digits_of_unfold n) by lia.
  destruct (n <? 10) eqn:Hlt; [cbn; lia|]. apply Z.ltb_ge in Hlt.
  rewrite length_app. cbn [List.length].
  rewrite Nat2Z.inj_succ, Z.pow_succ_r in Hn by lia.
  assert (Hq : 0 <= n / 10 < 10 ^ Z.of_nat k).
  { split; [apply Z.div_pos; lia | apply Z.div_lt_upper_bound; lia]. }
  destruct k as [|k]; [cbn in Hq; lia|].
  specialize (IH (n / 10) Hq ltac:(lia)). lia.
Qed.

End DigitFacts.

Module ParseFacts.
Import DigitFacts StrFacts FloatFacts.

Ltac ascii_cases c :=
  destruct c as [[] [] [] [] [] [] [] []];
  cbn in *; try discriminate; try reflexivity.

Lemma digit_not_space (c : ascii) : is_digit c = true -> is_space c = false.
Proof. intros H. ascii_cases c. Qed.

Lemma digit_not_underscore (c : ascii) : is_digit c = true -> ascii_eqb c "_" = false.
Proof. intros H. ascii_cases c. Qed.

Lemma digit_not_colon (c : ascii) : is_digit c = true -> ascii_eqb c ":" = false.
Proof. intros H. ascii_cases c. Qed.

Lemma digit_take_sign (c : ascii) (t : str) :
  is_digit c = true -> take_sign (c :: t) = (false, c :: t).
Proof. intros H. ascii_cases c. Qed.

Lemma digit_not_special (c : ascii) (t : str) :
  is_digit c = true ->
  str_eqb (map lower (c :: t)) (str_of "inf")
  || str_eqb (map lower (c :: t)) (str_of "infinity") = false
  /\ str_eqb (map lower (c :: t)) (str_of "nan") = false.
Proof. intros H. ascii_cases c; split; reflexivity. Qed.

Lemma lstrip_head (c : ascii) (t : str) :
  is_space c = false -> lstrip (c :: t) = c :: t.
Proof. intros H. cbn. rewrite H. reflexivity. Qed.

(** A string that starts and ends with a digit has nothing to strip. *)
Lemma strip_digits_ends (c d : ascii) (t u : str) :
  is_digit c = true -> is_digit d = true -> c :: t = u ++ [d] ->
  strip (c :: t) = c :: t.
Proof.
  intros Hc Hd E. unfold strip.
  rewrite lstrip_head by (apply digit_not_space; exact Hc).
  rewrite E, rev_app_distr. cbn [rev app].
  rewrite lstrip_head by (apply digit_not_space; exact Hd).
  change (d :: rev u) with (rev [d] ++ rev u).
  rewrite <- rev_app_distr, rev_involutive. reflexivity.
Qed.

Lemma remove_underscores_id (s : str) :
  Forall (fun c => ascii_eqb c "_" = false) s ->
  forall prev, ascii_eqb prev "_" = false -> remove_underscores prev s = Some s.
Proof.
  induction 1 as [|c s Hc Hs IH]; intros prev Hp.
  - cbn. rewrite Hp. reflexivity.
  - cbn. rewrite Hc, Hp. cbn. rewrite (IH c Hc). reflexivity.
Qed.

Lemma span_digits_app (a rest : str) :
  all_digits a ->
  match rest with [] => True | c :: _ => is_digit c = false end ->
  span_digits (a ++ rest) = (a, rest).
Proof.
  intros Ha Hr. induction Ha as [|c a Hc Ha IH].
  - destruct rest as [|c r]; [reflexivity|]. cbn. rewrite Hr. reflexivity.
  - cbn. rewrite Hc, IH. reflexivity.
Qed.

(** ** What [float] reads in a string of digits, with or without a
    fraction *)

Lemma all_digits_plain (a : str) : all_digits a -> plain a.
Proof. apply Forall_impl. intros c. apply digit_not_underscore. Qed.

Lemma all_digits_last (a : str) :
  all_digits a -> a <> [] -> exists u d, a = u ++ [d] /\ is_digit d = true.
Proof.
  intros Ha Hne. destruct (exists_last Hne) as (u & d & E).
  exists u, d. split; [exact E|]. subst a.
  apply Forall_app in Ha as [_ Hd]. inversion Hd; assumption.
Qed.

Lemma parse_decimal_int (a : str) :
  all_digits a -> a <> [] ->
  exists q, parse_decimal a = Some q /\ (q == inject_Z (digits_value a))%Q.
Proof.
  intros Ha Hne. unfold parse_decimal.
  pose proof (span_digits_app a [] Ha I) as Hs. rewrite app_nil_r in Hs.
  rewrite Hs. cbn [fraction_part]. rewrite app_nil_r.
  destruct a as [|c a]; [contradiction|].
  cbn [parse_exponent List.length]. eexists. split; [reflexivity|].
  rewrite Qred_correct. change (pow10 (0 - Z.of_nat 0)) with 1%Q. ring.
Qed.

Lemma parse_decimal_frac (a b : str) :
  all_digits a -> all_digits b -> a <> [] ->
  exists q,
    parse_decimal (a ++ "."%char :: b) = Some q
    /\ (q == inject_Z (digits_value (a ++ b))
             * pow10 (- Z.of_nat (List.length b)))%Q.
Proof.
  intros Ha Hb Hne. unfold parse_decimal.
  rewrite (span_digits_app a ("."%char :: b) Ha eq_refl).
  pose proof (span_digits_app b [] Hb I) as Hs. rewrite app_nil_r in Hs.
  cbn [fraction_part]. rewrite Hs. destruct (a ++ b) as [|c ab] eqn:E.
  { destruct a; [contradiction | discriminate]. }
  cbn [parse_exponent]. eexists. split; [reflexivity|].
  rewrite Qred_correct. reflexivity.
Qed.

Lemma float_of_str_parsed (s : str) (c d : ascii) (t u : str) (q : Q) :
  s = c :: t -> s = u ++ [d] -> is_digit c = true -> is_digit d = true ->
  plain s -> parse_decimal s = Some q ->
  float_of_str s = Ok (round64 q).
Proof.
  intros E1 E2 Hc Hd Hp Hq. unfold float_of_str.
  rewrite E1 at 1. rewrite (strip_digits_ends c d t u Hc Hd) by (rewrite <- E1; exact E2).
  rewrite <- E1. rewrite (remove_underscores_id s Hp) by reflexivity.
  rewrite E1 at 1. rewrite (digit_take_sign c t Hc).
  destruct (digit_not_special c t Hc) as [H1 H2]. rewrite H1, H2.
  rewrite <- E1, Hq. reflexivity.
Qed.

End ParseFacts.

Module SplitFacts.
Import DigitFacts StrFacts ParseFacts.

Lemma all_digits_no_colon (a : str) : all_digits a -> no_colon a.
Proof. apply Forall_impl. intros c. apply digit_not_colon. Qed.

Lemma split_no_colon (s : str) : no_colon s -> split ":" s = [s].
Proof.
  induction 1 as [|c s Hc Hs IH]; [reflexivity|].
  cbn. rewrite Hc, IH. reflexivity.
Qed.

Lemma split_app (a b : str) :
  no_colon a -> split ":" (a ++ ":"%char :: b) = a :: split ":" b.
Proof.
  induction 1 as [|c a Hc Ha IH]; [reflexivity|].
  cbn. rewrite Hc. cbn in IH. rewrite IH. reflexivity.
Qed.

Lemma contains_app (a b : str) : contains ":" (a ++ ":"%char :: b) = true.
Proof.
  unfold contains. rewrite existsb_app. cbn. apply orb_true_r.
Qed.

Lemma endswith_last (t u : str) (d c : ascii) :
  endswith (t ++ [d]) (u ++ [c]) = true -> d = c.
Proof.
  intros H. apply endswith_inv in H as [a E].
  rewrite app_assoc in E. apply app_inj_tail in E as [_ E]. exact E.
Qed.

(** A string that ends with a digit ends with none of the unit letters. *)
Lemma endswith_digit (t : str) (d : ascii) :
  is_digit d = true ->
  endswith (t ++ [d]) (str_of "s") = false
  /\ endswith (t ++ [d]) (str_of "ms") = false
  /\ endswith (t ++ [d]) (str_of "m") = false.
Proof.
  intros Hd.
  assert (H : forall (u : str) (c : ascii), is_digit c = false ->
              endswith (t ++ [d]) (u ++ [c]) = false).
  { intros u c Hc. destruct (endswith _ _) eqn:E; [|reflexivity].
    apply endswith_last in E. subst c. congruence. }
  split; [|split].
  - apply (H [] "s"%char). reflexivity.
  - apply (H ["m"%char] "s"%char). reflexivity.
  - apply (H [] "m"%char). reflexivity.
Qed.

(** ** Zeros in front *)

Lemma zfill_eq (w : nat) (s : str) :
  zfill w s = repeat "0"%char (w - List.length s) ++ s.
Proof. reflexivity. Qed.

Lemma all_digits_zeros (k : nat) : all_digits (repeat "0"%char k).
Proof. induction k; constructor; [reflexivity | assumption]. Qed.

Lemma digits_value_zeros (k : nat) : digits_value (repeat "0"%char k) = 0.
Proof.
  induction k as [|k IH]; [reflexivity|].
  change (repeat "0"%char (S k)) with (["0"%char] ++ repeat "0"%char k).
  rewrite digits_value_app, IH, digits_value_single.
  change (digit_value "0") with 0. lia.
Qed.

Lemma zfill_digits (w : nat) (s : str) :
  all_digits s -> s <> [] ->
  all_digits (zfill w s) /\ zfill w s <> []
  /\ digits_value (zfill w s) = digits_value s.
Proof.
  intros Ha Hne. rewrite zfill_eq. split; [|split].
  - apply Forall_app. split; [apply all_digits_zeros | exact Ha].
  - destruct (repeat _ _); [exact Hne | discriminate].
  - rewrite digits_value_app, digits_value_zeros. lia.
Qed.

Lemma zfill_length (w : nat) (s : str) :
  (List.length s <= w)%nat -> List.length (zfill w s) = w.
Proof. intros H. rewrite zfill_eq, length_app, repeat_length. lia. Qed.

Lemma format_02d_spec (n : Z) :
  0 <= n ->
  all_digits (format_02d n) /\ format_02d n <> []
  /\ digits_value (format_02d n) = n.
Proof.
  intros Hn. unfold format_02d.
  replace (n <? 0) with false by (symmetry; apply Z.ltb_ge; lia).
  destruct (digits_of_spec n Hn) as (Ha & Hne & Hv).
  destruct (zfill_digits 2 _ Ha Hne) as (H1 & H2 & H3).
  rewrite Hv in H3. auto.
Qed.

End SplitFacts.

Module DivmodFacts.
Import FloatFacts FrameFacts ParseFacts.
Local Open Scope Q_scope.

Lemma Qfloor_unique (q : Q) (k : Z) :
  inject_Z k <= q -> q < inject_Z k + 1 -> Qfloor q = k.
Proof.
  intros H1 H2. destruct (floor_bounds q) as [F1 F2].
  assert (Ha : (Qfloor q < k + 1)%Z).
  { rewrite Zlt_Qlt, inject_Z_plus. change (inject_Z 1) with 1. lra. }
  assert (Hb : (k < Qfloor q + 1)%Z).
  { rewrite Zlt_Qlt, inject_Z_plus. change (inject_Z 1) with 1. lra. }
  lia.
Qed.

Lemma Qtrunc_Z (k : Z) : (0 <= k)%Z -> Qtrunc (inject_Z k) = k.
Proof.
  intros H. rewrite Qtrunc_nonneg by (apply inject_Z_nonneg; exact H).
  apply Qfloor_Z.
Qed.

Lemma round64_Z (n : Z) :
  (0 <= n <= 2 ^ 53)%Z ->
  exists q, round64 (inject_Z n) = FFin q /\ q == inject_Z n.
Proof.
  intros Hn. exists (round_real (inject_Z n)). split.
  - apply (round64_small _ 53); [unfold emin; lia | apply inject_Z_nonneg; lia |].
    apply inject_Z_le_pow2; lia.
  - destruct (Z.eq_dec n (2 ^ 53)) as [->|Hne].
    + apply (round_real_exact _ (2 ^ 52) 1); [lia | lia | reflexivity].
    + apply round_real_Z. lia.
Qed.

Lemma round64_of_Z (x : Q) (n : Z) :
  (0 <= n <= 2 ^ 53)%Z -> x == inject_Z n ->
  exists q, round64 x = FFin q /\ q == inject_Z n.
Proof.
  intros Hn Hx. destruct (round64_Z n Hn) as (q & Hq & He).
  exists q. split; [|exact He]. rewrite <- Hq.
  unfold round64. rewrite (round_real_comp x (inject_Z n) Hx). reflexivity.
Qed.

(** The quotient and the remainder of a non-negative float [x] by a
    positive literal [y], when [k * y <= x < (k + 1) * y]: the remainder is
    exact and [int(x // y)] is [k]. *)
Lemma float_divmod_nonneg (x : Q) (y k : Z) :
  (0 < y)%Z -> (0 <= k)%Z -> ((k + 1) * y <= 2 ^ 53)%Z ->
  inject_Z (k * y) <= x -> x < inject_Z ((k + 1) * y) ->
  float_mod (FFin x) y = FFin (fmod x (inject_Z y))
  /\ fmod x (inject_Z y) == x - inject_Z (k * y)
  /\ int_of_float (float_floordiv (FFin x) y) = Ok k.
Proof.
  intros Hy Hk Hb Hlo Hhi.
  assert (HY : 0 < inject_Z y) by (apply inject_Z_pos; exact Hy).
  assert (HK : 0 <= inject_Z k) by (apply inject_Z_nonneg; exact Hk).
  rewrite inject_Z_mult in Hlo. rewrite inject_Z_mult, inject_Z_plus in Hhi.
  change (inject_Z 1) with 1 in Hhi.
  assert (Hx0 : 0 <= x) by nra.
  assert (Hq1 : inject_Z k <= x / inject_Z y).
  { apply Qle_shift_div_l; assumption. }
  assert (Hq2 : x / inject_Z y < inject_Z k + 1).
  { apply Qlt_shift_div_r; assumption. }
  assert (Ht : Qtrunc (x / inject_Z y) = k).
  { rewrite Qtrunc_nonneg by lra. apply Qfloor_unique; assumption. }
  assert (Hm : fmod x (inject_Z y) == x - inject_Z (k * y)).
  { unfold fmod. rewrite Ht, inject_Z_mult. reflexivity. }
  set (m := fmod x (inject_Z y)) in *.
  assert (Hm0 : 0 <= m) by (rewrite Hm, inject_Z_mult; lra).
  (* the two parts *)
  assert (Hky : (0 <= k * y <= 2 ^ 53)%Z) by nia.
  destruct (round64_of_Z (x + - m) (k * y) Hky) as (a & Ha & Hae).
  { rewrite Hm. ring. }
  destruct (round64_of_Z (a / inject_Z y) k ltac:(nia)) as (q & Hq & Hqe).
  { rewrite Hae, inject_Z_mult. field. lra. }
  assert (Hparts : float_divmod_parts x (inject_Z y) = (FFin m, FFin q)).
  { unfold float_divmod_parts. fold m.
    assert (Hs1 : Qltb (inject_Z y) 0 = false).
    { unfold Qltb. apply negb_false_iff. apply Qle_bool_iff. lra. }
    assert (Hs2 : Qltb m 0 = false).
    { unfold Qltb. apply negb_false_iff. apply Qle_bool_iff. exact Hm0. }
    rewrite Hs1, Hs2. cbn [Bool.eqb negb]. rewrite andb_false_r.
    unfold sub, opp. cbn [add div]. rewrite Ha. cbn [div]. rewrite Hq.
    reflexivity. }
  split; [|split; [exact Hm|]].
  - unfold float_mod. rewrite Hparts. reflexivity.
  - unfold float_floordiv. rewrite Hparts. cbn [snd is_zero].
    destruct (Qeq_bool q 0) eqn:Hz.
    + apply Qeq_bool_iff in Hz. cbn. f_equal.
      assert (H0 : inject_Z k == inject_Z 0) by (rewrite <- Hqe, Hz; reflexivity).
      apply eq_sym. rewrite <- (Qfloor_Z k), <- (Qfloor_Z 0).
      apply Qfloor_comp. exact H0.
    + assert (Hf : Qfloor q = k).
      { rewrite <- (Qfloor_Z k). apply Qfloor_comp. exact Hqe. }
      cbn [float_floor]. rewrite Hf. unfold sub, opp. cbn [add].
      assert (Hd : round64 (q + - inject_Z k) = FFin 0).
      { rewrite (round64_comp (q + - inject_Z k) 0) by (rewrite Hqe; ring).
        vm_compute. reflexivity. }
      rewrite Hd. cbn. f_equal. apply Qtrunc_Z. exact Hk.
Qed.

End DivmodFacts.

Module FormatFacts.
Import FloatFacts FrameFacts ParseFacts DivmodFacts.
Local Open Scope Q_scope.

Lemma rne_near (q : Q) (n : Z) :
  inject_Z n - (1 # 4) <= q -> q <= inject_Z n + (1 # 4) -> rne q = n.
Proof.
  intros H1 H2. destruct (rne_error q) as [E1 E2].
  assert (Ha : (rne q < n + 1)%Z).
  { rewrite Zlt_Qlt, inject_Z_plus. change (inject_Z 1) with 1. lra. }
  assert (Hb : (n < rne q + 1)%Z).
  { rewrite Zlt_Qlt, inject_Z_plus. change (inject_Z 1) with 1. lra. }
  lia.
Qed.

(** The float [v / 1000], for [v] below [2^50]: it is within an eight
    thousandth of the exact quotient, and on the same side of every whole
    number. *)
Lemma seconds_float (v : Z) :
  (0 <= v < 2 ^ 50)%Z ->
  let X := inject_Z v / inject_Z 1000 in
  let x := round_real X in
  int_truediv v 1000 = Ok (FFin x)
  /\ X - (1 # 8000) <= x /\ x <= X + (1 # 8000)
  /\ (forall c : Z, (0 <= c < 2 ^ 53)%Z -> inject_Z c <= X -> inject_Z c <= x).
Proof.
  intros Hv X x.
  assert (HV0 : 0 <= inject_Z v) by (apply inject_Z_nonneg; lia).
  assert (HV1 : inject_Z v < inject_Z (2 ^ 50)) by (rewrite <- Zlt_Qlt; lia).
  change (inject_Z (2 ^ 50)) with 1125899906842624 in HV1.
  assert (HX : 1000 * X == inject_Z v) by (unfold X; field).
  assert (Hdiv : int_truediv v 1000 = Ok (FFin x)).
  { unfold int_truediv. change (1000 =? 0)%Z with false. cbv iota.
    fold X. rewrite (round64_small X 64); [reflexivity | unfold emin; lia | |].
    - apply Qdiv_nonneg; [exact HV0 | reflexivity].
    - apply Qle_trans with (inject_Z v); [|apply inject_Z_le_pow2; lia].
      apply Qdiv_le_self; [exact HV0 | discriminate]. }
  clearbody X.
  assert (HX0 : 0 <= X) by lra.
  assert (Herr : X - (1 # 8000) <= x /\ x <= X + (1 # 8000)).
  { destruct (Z.eq_dec v 0) as [->|Hne].
    - change (inject_Z 0) with 0 in HX.
      unfold x. rewrite (round_real_zero X) by lra. lra.
    - assert (1 <= inject_Z v) by (change 1 with (inject_Z 1); rewrite <- Zle_Qle; lia).
      assert (Hn : pow2 emin <= X).
      { apply Qle_trans with (pow2 (-10)); [apply pow2_le; unfold emin; lia|].
        change (pow2 (-10)) with (1 # 1024). lra. }
      destruct (round_real_rel X Hn) as [Hlo Hhi]. fold x in Hlo, Hhi.
      unfold eps in Hlo, Hhi. clearbody x. lra. }
  split; [exact Hdiv | split; [apply Herr | split; [apply Herr|]]].
  intros c Hc HcX. unfold x.
  rewrite <- (round_real_Z c Hc).
  apply round_real_mono; [apply inject_Z_nonneg; lia | exact HcX].
Qed.

(** What [format_duration] returns below [2^50] milliseconds. *)
Lemma format_duration_value (v : Z) :
  (0 <= v < 2 ^ 50)%Z ->
  format_duration v = Ok (string_of_list_ascii (duration_str v)).
Proof.
  intros Hv. destruct (seconds_float v Hv) as (Hdiv & He1 & He2 & Hmono).
  cbv zeta in Hdiv, He1, He2, Hmono.
  assert (HX : 1000 * (inject_Z v / inject_Z 1000) == inject_Z v) by field.
  set (X := inject_Z v / inject_Z 1000) in *. set (x := round_real X) in *.
  clearbody X.
  (* hours, minutes and milliseconds in whole numbers *)
  set (M := (v / 60000)%Z). set (N := (v mod 60000)%Z).
  set (h := (v / 3600000)%Z). set (m := (M mod 60)%Z).
  assert (HvM : (v = 60000 * M + N)%Z) by (apply Z.div_mod; lia).
  assert (HN : (0 <= N < 60000)%Z) by (apply Z.mod_pos_bound; lia).
  assert (Hh : (h = M / 60)%Z).
  { unfold h, M. rewrite Z.div_div by lia. reflexivity. }
  assert (HMh : (M = 60 * h + m)%Z) by (rewrite Hh; apply Z.div_mod; lia).
  assert (Hm : (0 <= m < 60)%Z) by (apply Z.mod_pos_bound; lia).
  assert (HM0 : (0 <= M)%Z) by (apply Z.div_pos; lia).
  assert (Hh0 : (0 <= h)%Z) by (apply Z.div_pos; lia).
  (* the float on the right side of whole numbers *)
  assert (Hlow : forall c : Z, (0 <= c)%Z -> (1000 * c <= v)%Z -> inject_Z c <= x).
  { intros c Hc0 Hc. apply Hmono; [lia|].
    rewrite Zle_Qle, inject_Z_mult in Hc. change (inject_Z 1000) with 1000 in Hc.
    lra. }
  assert (Hupp : forall c : Z, (v < 1000 * c)%Z -> x < inject_Z c).
  { intros c Hc. assert (Hc' : (v + 1 <= 1000 * c)%Z) by lia.
    rewrite Zle_Qle, inject_Z_mult, inject_Z_plus in Hc'.
    change (inject_Z 1000) with 1000 in Hc'. change (inject_Z 1) with 1 in Hc'.
    lra. }
  unfold format_duration. rewrite Hdiv. cbn [bind].
  destruct (float_divmod_nonneg x 3600 h) as (Hmod1 & Hm1 & Hhours);
    [lia | lia | lia | apply Hlow; lia | apply Hupp; lia |].
  rewrite Hhours. cbn [bind]. rewrite Hmod1.
  destruct (float_divmod_nonneg (fmod x (inject_Z 3600)) 60 m) as (_ & _ & Hmin);
    [lia | lia | lia | | |].
  { rewrite Hm1. pose proof (Hlow (60 * M)%Z ltac:(lia) ltac:(lia)) as H.
    replace (60 * M)%Z with (m * 60 + h * 3600)%Z in H by lia.
    rewrite inject_Z_plus in H. lra. }
  { rewrite Hm1. pose proof (Hupp (60 * (M + 1))%Z ltac:(lia)) as H.
    replace (60 * (M + 1))%Z with ((m + 1) * 60 + h * 3600)%Z in H by lia.
    rewrite inject_Z_plus in H. lra. }
  rewrite Hmin. cbn [bind].
  destruct (float_divmod_nonneg x 60 M) as (Hmod3 & Hm3 & _);
    [lia | lia | lia | apply Hlow; lia | apply Hupp; lia |].
  rewrite Hmod3.
  assert (Hsec : format_06_3f (FFin (fmod x (inject_Z 60))) = seconds_str N).
  { set (s := fmod x (inject_Z 60)) in *.
    pose proof (Hlow (M * 60)%Z ltac:(lia) ltac:(lia)) as Hs0.
    assert (Hs : 0 <= s) by (rewrite Hm3; lra).
    assert (HvQ : inject_Z v == 60000 * inject_Z M + inject_Z N).
    { rewrite HvM, inject_Z_plus, inject_Z_mult. reflexivity. }
    assert (HMQ : inject_Z (M * 60) == inject_Z M * 60).
    { rewrite inject_Z_mult. reflexivity. }
    unfold format_06_3f.
    replace (rne (Qabs s * inject_Z 1000)) with N.
    2:{ symmetry. apply rne_near; rewrite (Qabs_pos s Hs), Hm3;
          change (inject_Z 1000) with 1000; lra. }
    replace (Qltb s 0) with false.
    2:{ symmetry. unfold Qltb. apply negb_false_iff, Qle_bool_iff. exact Hs. }
    reflexivity. }
  rewrite Hsec. unfold duration_str. fold M N h m.
  destruct (0 <? h)%Z; reflexivity.
Qed.

End FormatFacts.

Module RoundTripFacts.
Import FloatFacts FrameFacts DigitFacts StrFacts ParseFacts SplitFacts DivmodFacts FormatFacts.

Lemma seconds_str_spec (n : Z) :
  0 <= n ->
  exists I F : str,
    seconds_str n = I ++ "."%char :: F
    /\ all_digits I /\ I <> [] /\ all_digits F /\ F <> []
    /\ List.length F = 3%nat /\ digits_value (I ++ F) = n.
Proof.
  intros Hn. unfold seconds_str.
  assert (Hq : 0 <= n / 1000) by (apply Z.div_pos; lia).
  pose proof (Z.mod_pos_bound n 1000 ltac:(lia)) as Hr.
  destruct (digits_of_spec (n / 1000) Hq) as (Ha & Hane & Hav).
  destruct (digits_of_spec (n mod 1000) ltac:(lia)) as (Hb & Hbne & Hbv).
  destruct (zfill_digits 3 _ Hb Hbne) as (HF & HFne & HFv).
  pose proof (digits_of_length (n mod 1000) 3 ltac:(cbn; lia) ltac:(lia)) as Hlen.
  pose proof (zfill_length 3 _ Hlen) as HFlen.
  set (F := zfill 3 (digits_of (n mod 1000))) in *.
  rewrite zfill_eq. set (k := (6 - _)%nat).
  exists (repeat "0"%char k ++ digits_of (n / 1000)), F.
  split; [rewrite <- app_assoc; reflexivity|].
  split; [apply Forall_app; split; [apply all_digits_zeros | exact Ha]|].
  split; [destruct (repeat _ _); [exact Hane | discriminate]|].
  split; [exact HF|]. split; [exact HFne|]. split; [exact HFlen|].
  rewrite digits_value_app, HFlen, HFv, Hbv.
  rewrite digits_value_app, digits_value_zeros, Hav.
  change (10 ^ Z.of_nat 3) with 1000.
  pose proof (Z.div_mod n 1000 ltac:(lia)). lia.
Qed.

Lemma dot_not_underscore : ascii_eqb "." "_" = false.
Proof. reflexivity. Qed.

Lemma dot_not_colon : ascii_eqb "." ":" = false.
Proof. reflexivity. Qed.

Lemma all_digits_head (a : str) :
  all_digits a -> a <> [] -> exists c t, a = c :: t /\ is_digit c = true.
Proof.
  intros Ha Hne. destruct a as [|c t]; [contradiction|].
  exists c, t. split; [reflexivity|]. inversion Ha; assumption.
Qed.

(** [float] of the seconds field. *)
Lemma float_of_seconds_str (n : Z) :
  0 <= n < 60000 ->
  float_of_str (seconds_str n)
  = Ok (FFin (round_real (inject_Z n / inject_Z 1000)))
  /\ no_colon (seconds_str n)
  /\ exists u d, seconds_str n = u ++ [d] /\ is_digit d = true.
Proof.
  intros Hn. destruct (seconds_str_spec n ltac:(lia))
    as (I & F & E & HI & HIne & HF & HFne & HFlen & Hval).
  destruct (all_digits_head I HI HIne) as (c & t & EI & Hc).
  destruct (all_digits_last F HF HFne) as (u & d & EF & Hd).
  assert (Elast : seconds_str n = (I ++ "."%char :: u) ++ [d]).
  { rewrite E, EF, <- app_assoc. reflexivity. }
  assert (Hplain : plain (seconds_str n)).
  { rewrite E. apply Forall_app. split; [apply all_digits_plain; exact HI|].
    constructor; [reflexivity | apply all_digits_plain; exact HF]. }
  destruct (parse_decimal_frac I F HI HF HIne) as (q & Hq & Hqe).
  rewrite HFlen, Hval in Hqe. rewrite <- E in Hq.
  split; [|split].
  - rewrite (float_of_str_parsed (seconds_str n) c d (t ++ "."%char :: F)
               (I ++ "."%char :: u) q); try assumption.
    + f_equal.
      rewrite (round64_comp q (inject_Z n / inject_Z 1000)).
      * apply (round64_small _ 16); [unfold emin; lia | |].
        -- apply Qdiv_nonneg; [apply inject_Z_nonneg; lia | reflexivity].
        -- apply Qle_trans with (inject_Z n).
           ++ apply Qdiv_le_self; [apply inject_Z_nonneg; lia | discriminate].
           ++ apply inject_Z_le_pow2; lia.
      * rewrite Hqe. reflexivity.
    + rewrite E, EI. reflexivity.
  - rewrite E. apply Forall_app. split; [apply all_digits_no_colon; exact HI|].
    constructor; [reflexivity | apply all_digits_no_colon; exact HF].
  - eauto.
Qed.

(** [float] of a field of hours or minutes. *)
Lemma float_of_format_02d (n : Z) :
  0 <= n <= 2 ^ 53 ->
  (exists q, float_of_str (format_02d n) = Ok (FFin q) /\ (q == inject_Z n)%Q)
  /\ no_colon (format_02d n).
Proof.
  intros Hn. destruct (format_02d_spec n ltac:(lia)) as (Ha & Hne & Hv).
  destruct (all_digits_head _ Ha Hne) as (c & t & E1 & Hc).
  destruct (all_digits_last _ Ha Hne) as (u & d & E2 & Hd).
  destruct (parse_decimal_int _ Ha Hne) as (q & Hq & Hqe).
  rewrite Hv in Hqe.
  split; [|apply all_digits_no_colon; exact Ha].
  destruct (round64_of_Z q n Hn Hqe) as (q' & Hq' & He).
  exists q'. split; [|exact He].
  rewrite (float_of_str_parsed _ c d t u q E1 E2 Hc Hd
             (all_digits_plain _ Ha) Hq).
  rewrite Hq'. reflexivity.
Qed.

Lemma str_of_string (l : str) : str_of (string_of_list_ascii l) = l.
Proof. apply list_ascii_of_string_of_list_ascii. Qed.

(** How [parse_time] reads two or three fields between colons, the last
    of which ends with a digit. *)
Lemma parse_time_two_fields (Mi S u : str) (d : ascii) :
  no_colon Mi -> no_colon S -> S = u ++ [d] -> is_digit d = true ->
  parse_time (string_of_list_ascii (Mi ++ ":"%char :: S))
  = ret_int (m <- float_of_str Mi ;;
             sec <- float_of_str S ;;
             int_of_float (add (mul (mul m (lit 60)) (lit 1000))
                               (mul sec (lit 1000)))).
Proof.
  intros HM HS E Hd. unfold parse_time. rewrite str_of_string.
  assert (El : Mi ++ ":"%char :: S = (Mi ++ ":"%char :: u) ++ [d]).
  { rewrite E, <- app_assoc. reflexivity. }
  destruct (endswith_digit (Mi ++ ":"%char :: u) d Hd) as (H1 & H2 & H3).
  rewrite <- El in H1, H2, H3. rewrite H1, H2, H3.
  rewrite contains_app, (split_app Mi S HM), (split_no_colon S HS).
  reflexivity.
Qed.

Lemma parse_time_three_fields (H Mi S u : str) (d : ascii) :
  no_colon H -> no_colon Mi -> no_colon S -> S = u ++ [d] -> is_digit d = true ->
  parse_time (string_of_list_ascii (H ++ ":"%char :: Mi ++ ":"%char :: S))
  = ret_int (h <- float_of_str H ;;
             m <- float_of_str Mi ;;
             sec <- float_of_str S ;;
             int_of_float
               (add (add (mul (mul h (lit 3600)) (lit 1000))
                         (mul (mul m (lit 60)) (lit 1000)))
                    (mul sec (lit 1000)))).
Proof.
  intros HH HM HS E Hd. unfold parse_time. rewrite str_of_string.
  assert (El : H ++ ":"%char :: Mi ++ ":"%char :: S
               = (H ++ ":"%char :: Mi ++ ":"%char :: u) ++ [d]).
  { rewrite E, <- !app_assoc. cbn. rewrite <- app_assoc. reflexivity. }
  destruct (endswith_digit (H ++ ":"%char :: Mi ++ ":"%char :: u) d Hd)
    as (H1 & H2 & H3).
  rewrite <- El in H1, H2, H3. rewrite H1, H2, H3.
  rewrite contains_app, (split_app H _ HH), (split_app Mi S HM),
    (split_no_colon S HS).
  reflexivity.
Qed.

Local Open Scope Q_scope.

Lemma mul_lit_Z (a : Q) (n c : Z) :
  a == inject_Z n -> (0 <= n * c <= 2 ^ 53)%Z ->
  exists q, mul (FFin a) (lit c) = FFin q /\ q == inject_Z (n * c).
Proof.
  intros Ha Hb. unfold mul, lit. apply round64_of_Z; [exact Hb|].
  rewrite Ha, inject_Z_mult. reflexivity.
Qed.

Lemma add_Z (a b : Q) (n1 n2 : Z) :
  a == inject_Z n1 -> b == inject_Z n2 -> (0 <= n1 + n2 <= 2 ^ 53)%Z ->
  exists q, add (FFin a) (FFin b) = FFin q /\ q == inject_Z (n1 + n2).
Proof.
  intros Ha Hb Hn. unfold add. apply round64_of_Z; [exact Hn|].
  rewrite Ha, Hb, inject_Z_plus. reflexivity.
Qed.

(** The sum of a whole number of milliseconds [A] and of the seconds
    field, read back: the whole number [A + n], or one less. *)
Lemma final_sum (a : Q) (A n : Z) :
  (0 <= A)%Z -> (0 <= n < 60000)%Z -> (A + n < 2 ^ 50)%Z -> a == inject_Z A ->
  exists r : Z,
    int_of_float
      (add (FFin a)
           (mul (FFin (round_real (inject_Z n / inject_Z 1000))) (lit 1000)))
    = Ok r
    /\ (A + n - 1 <= r <= A + n)%Z.
Proof.
  intros HA Hn HV Ha.
  set (z := round_real (round_real (inject_Z n / inject_Z 1000) * inject_Z 1000)).
  assert (HAq : 0 <= inject_Z A) by (apply inject_Z_nonneg; lia).
  assert (HAq2 : inject_Z A + inject_Z n < inject_Z (2 ^ 50)).
  { rewrite <- inject_Z_plus, <- Zlt_Qlt. exact HV. }
  change (inject_Z (2 ^ 50)) with 1125899906842624 in HAq2.
  assert (Hnq : 0 <= inject_Z n) by (apply inject_Z_nonneg; lia).
  assert (Hz : inject_Z n - (1 # 1000) <= z /\ z <= inject_Z n + (1 # 1000) /\ 0 <= z).
  { destruct (Z.eq_dec n 0) as [->|Hne].
    - unfold z. rewrite round_mul_zero by reflexivity.
      change (inject_Z 0) with 0. lra.
    - destruct (frame_product_near n 1000 ltac:(lia) ltac:(lia) ltac:(lia))
        as [H1 H2]. cbv zeta in H1, H2. fold z in H1, H2.
      rewrite inject_Z_mult in H1, H2. change (inject_Z 1000) with 1000 in H1, H2.
      assert (0 <= z).
      { apply round_mul_nonneg; [|discriminate].
        apply Qdiv_nonneg; [exact Hnq | reflexivity]. }
      lra. }
  destruct Hz as (Hz1 & Hz2 & Hz0).
  assert (Hmul : mul (FFin (round_real (inject_Z n / inject_Z 1000))) (lit 1000)
                 = FFin z).
  { unfold mul, lit. apply (round64_small _ 17); [unfold emin; lia | |].
    - apply Qmult_le_0_compat; [|discriminate]. apply round_real_nonneg.
      apply Qdiv_nonneg; [exact Hnq | reflexivity].
    - assert (Hs : round_real (inject_Z n / inject_Z 1000) <= pow2 7).
      { apply round_real_le_pow2; [unfold emin; lia | |].
        - apply Qdiv_nonneg; [exact Hnq | reflexivity].
        - apply Qle_shift_div_r; [reflexivity|].
          assert (inject_Z n <= inject_Z 60000) by (rewrite <- Zle_Qle; lia).
          change (inject_Z 60000) with 60000 in *. change (pow2 7) with 128.
          change (inject_Z 1000) with 1000. lra. }
      set (s := round_real (inject_Z n / inject_Z 1000)) in *. clearbody s.
      change (pow2 7) with 128 in Hs. change (pow2 17) with 131072.
      change (inject_Z 1000) with 1000. lra. }
  rewrite Hmul. unfold add.
  assert (Hsum0 : 0 <= a + z) by (rewrite Ha; lra).
  rewrite (round64_small (a + z) 51); [|unfold emin; lia | exact Hsum0 |].
  2:{ rewrite Ha. change (pow2 51) with 2251799813685248. lra. }
  set (y := round_real (a + z)).
  assert (Hy0 : 0 <= y) by (apply round_real_nonneg; exact Hsum0).
  assert (Hyhi : y <= inject_Z (A + n) + (1 # 2)).
  { rewrite <- (round_real_exact (inject_Z (A + n) + (1 # 2)) (2 * (A + n) + 1) (-1)).
    - apply round_real_mono; [exact Hsum0|]. rewrite Ha, inject_Z_plus. lra.
    - lia.
    - lia.
    - rewrite !inject_Z_plus, inject_Z_mult, inject_Z_plus.
      change (pow2 (-1)) with (1 # 2).
      change (inject_Z 2) with 2. change (inject_Z 1) with 1. ring. }
  assert (Hylo : inject_Z (A + n - 1) <= y).
  { destruct (Z.eq_dec (A + n) 0) as [H0|Hne].
    - rewrite H0. change (inject_Z (0 - 1)) with (-1 # 1). lra.
    - rewrite <- (round_real_Z (A + n - 1)) by lia.
      apply round_real_mono; [apply inject_Z_nonneg; lia|].
      unfold Z.sub. rewrite Ha, !inject_Z_plus.
      change (inject_Z (- (1))) with (-1 # 1). lra. }
  exists (Qfloor y). unfold int_of_float. rewrite Qtrunc_nonneg by exact Hy0.
  split; [reflexivity|].
  destruct (floor_bounds y) as [F1 F2]. split.
  - rewrite <- (Qfloor_Z (A + n - 1)). apply Qfloor_resp_le. exact Hylo.
  - assert (Hlt : (Qfloor y < A + n + 1)%Z).
    { rewrite Zlt_Qlt, inject_Z_plus. change (inject_Z 1) with 1. lra. }
    lia.
Qed.

End RoundTripFacts.

(* ================================================================== *)
(** * Formatting a duration and parsing it back *)
(* ================================================================== *)

Module RoundTripClaims.
Import FloatFacts FrameFacts DigitFacts StrFacts ParseFacts SplitFacts.
Import DivmodFacts FormatFacts RoundTripFacts.

(** C8, as the code has it.  For every number [v] of milliseconds with
    [0 <= v < 2^50], [format_duration] returns a string, [parse_time]
    accepts it, and the number it returns is [v] or [v - 1]. *)
Theorem format_parse_round_trip (v : Z) :
  0 <= v < 2 ^ 50 ->
  exists (s : string) (n : Z),
    format_duration v = Ok s
    /\ parse_time s = Ok (PyInt n)
    /\ v - 1 <= n <= v.
Proof.
  intros Hv. exists (string_of_list_ascii (duration_str v)).
  rewrite (format_duration_value v Hv).
  set (M := v / 60000). set (N := v mod 60000).
  set (h := v / 3600000). set (m := M mod 60).
  assert (HvM : v = 60000 * M + N) by (apply Z.div_mod; lia).
  assert (HN : 0 <= N < 60000) by (apply Z.mod_pos_bound; lia).
  assert (Hh : h = M / 60).
  { unfold h, M. rewrite Z.div_div by lia. reflexivity. }
  assert (HMh : M = 60 * h + m) by (rewrite Hh; apply Z.div_mod; lia).
  assert (Hm : 0 <= m < 60) by (apply Z.mod_pos_bound; lia).
  assert (Hh0 : 0 <= h) by (apply Z.div_pos; lia).
  destruct (float_of_seconds_str N HN) as (HfS & HncS & u & d & ES & Hd).
  destruct (float_of_format_02d m ltac:(lia)) as ((qm & Hfm & Hqm) & Hncm).
  destruct (mul_lit_Z qm m 60 Hqm ltac:(lia)) as (qm1 & Hm1 & Hqm1).
  destruct (mul_lit_Z qm1 (m * 60) 1000 Hqm1 ltac:(lia)) as (qm2 & Hm2 & Hqm2).
  unfold duration_str. fold M N h m.
  destruct (0 <? h) eqn:Hpos.
  - apply Z.ltb_lt in Hpos.
    destruct (float_of_format_02d h ltac:(lia)) as ((qh & Hfh & Hqh) & Hnch).
    destruct (mul_lit_Z qh h 3600 Hqh ltac:(lia)) as (qh1 & Hh1 & Hqh1).
    destruct (mul_lit_Z qh1 (h * 3600) 1000 Hqh1 ltac:(lia)) as (qh2 & Hh2 & Hqh2).
    destruct (add_Z qh2 qm2 _ _ Hqh2 Hqm2 ltac:(lia)) as (qa & Hadd & Hqa).
    destruct (final_sum qa (h * 3600 * 1000 + m * 60 * 1000) N
                ltac:(lia) HN ltac:(lia) Hqa) as (r & Hr & Hb).
    exists r. split; [reflexivity|]. split; [|lia].
    rewrite (parse_time_three_fields _ _ _ u d Hnch Hncm HncS ES Hd).
    rewrite Hfh, Hfm, HfS. cbn [bind]. rewrite Hh1, Hh2, Hm1, Hm2, Hadd, Hr.
    reflexivity.
  - apply Z.ltb_ge in Hpos.
    destruct (final_sum qm2 (m * 60 * 1000) N ltac:(lia) HN ltac:(lia) Hqm2)
      as (r & Hr & Hb).
    exists r. split; [reflexivity|]. split; [|lia].
    rewrite (parse_time_two_fields _ _ u d Hncm HncS ES Hd).
    rewrite Hfm, HfS. cbn [bind]. rewrite Hm1, Hm2, Hr.
    reflexivity.
Qed.

(** At 100000000000000005 ms the formatter prints the string of
    100000000000000000 ms, which the parser reads back: five milliseconds
    are lost. *)
Lemma round_trip_loses_milliseconds :
  format_duration 100000000000000005 = Ok "27777777777:46:40.000"%string
  /\ parse_time "27777777777:46:40.000" = Ok (PyInt 100000000000000000).
Proof. vm_compute. split; reflexivity. Qed.

Lemma format_parse_round_trip_witness :
  exists (s : string) (n : Z),
    format_duration 1001 = Ok s
    /\ parse_time s = Ok (PyInt n)
    /\ 1001 - 1 <= n <= 1001.
Proof. apply (format_parse_round_trip 1001). lia. Defined.

End RoundTripClaims.

(* ================================================================== *)
(** * The unit suffixes of the time parser *)
(* ================================================================== *)

Module SuffixFacts.
Import StrFacts ParseFacts.

Lemma lstrip_snoc (a : str) (m : ascii) :
  is_space m = false -> exists a1, lstrip (a ++ [m]) = a1 ++ [m].
Proof.
  intros Hm. induction a as [|c a IH].
  - exists []. cbn. rewrite Hm. reflexivity.
  - cbn. destruct (is_space c); [exact IH|]. exists (c :: a). reflexivity.
Qed.

Lemma strip_snoc (a : str) (m : ascii) :
  is_space m = false -> exists a1, strip (a ++ [m]) = a1 ++ [m].
Proof.
  intros Hm. unfold strip. destruct (lstrip_snoc a m Hm) as (a1 & ->).
  rewrite rev_app_distr. cbn [rev app]. rewrite lstrip_head by exact Hm.
  exists a1. change (m :: rev a1) with (rev [m] ++ rev a1).
  rewrite <- rev_app_distr. apply rev_involutive.
Qed.

Lemma remove_underscores_snoc (a : str) (m : ascii) :
  ascii_eqb m "_" = false ->
  forall prev,
    remove_underscores prev (a ++ [m]) = None
    \/ exists u, remove_underscores prev (a ++ [m]) = Some (u ++ [m]).
Proof.
  intros Hm. induction a as [|c a IH]; intros prev.
  - cbn. rewrite Hm. destruct (ascii_eqb prev "_" && negb (is_digit m)); [left; reflexivity|].
    right. exists []. reflexivity.
  - cbn. destruct (ascii_eqb c "_").
    + destruct (is_digit prev); [apply IH | left; reflexivity].
    + destruct (ascii_eqb prev "_" && negb (is_digit c)); [left; reflexivity|].
      destruct (IH c) as [->|(u & ->)]; [left; reflexivity|].
      right. exists (c :: u). reflexivity.
Qed.

Lemma take_sign_cases (s : str) :
  take_sign s = (false, s)
  \/ exists c t, s = c :: t /\ (take_sign s = (false, t) \/ take_sign s = (true, t)).
Proof.
  destruct s as [|c t]; [left; reflexivity|].
  destruct c as [[] [] [] [] [] [] [] []]; try (left; reflexivity);
    right; do 2 eexists; (split; [reflexivity|]);
    first [left; reflexivity | right; reflexivity].
Qed.

Lemma take_sign_snoc (u : str) :
  exists neg u', take_sign (u ++ ["m"%char]) = (neg, u' ++ ["m"%char]).
Proof.
  destruct (take_sign_cases (u ++ ["m"%char])) as [H|(c & t & E & H)].
  - exists false, u. exact H.
  - destruct u as [|c' u'].
    + cbn in E. injection E as <- <-. exists false, []. reflexivity.
    + cbn in E. injection E as <- <-.
      destruct H as [H|H]; rewrite H; [exists false, u' | exists true, u']; reflexivity.
Qed.

Lemma span_digits_snoc (s : str) (m : ascii) :
  is_digit m = false -> exists ds r, span_digits (s ++ [m]) = (ds, r ++ [m]).
Proof.
  intros Hm. induction s as [|c s IH].
  - exists [], []. cbn. rewrite Hm. reflexivity.
  - cbn. destruct (is_digit c).
    + destruct IH as (ds & r & ->). exists (c :: ds), r. reflexivity.
    + exists [], (c :: s). reflexivity.
Qed.

Lemma parse_exponent_snoc (r : str) : parse_exponent (r ++ ["m"%char]) = None.
Proof.
  destruct r as [|c r]; [reflexivity|].
  cbn [app parse_exponent]. destruct (ascii_eqb (lower c) "e"); [|reflexivity].
  destruct (take_sign_snoc r) as (neg & u' & ->).
  destruct (span_digits_snoc u' "m" eq_refl) as (ds & rest & ->).
  destruct ds, rest; reflexivity.
Qed.

Lemma fraction_snoc (r : str) :
  exists fp r2, fraction_part (r ++ ["m"%char]) = (fp, r2 ++ ["m"%char]).
Proof.
  destruct r as [|c r]; [exists [], []; reflexivity|].
  cbn [app]. unfold fraction_part.
  destruct (span_digits_snoc r "m" eq_refl) as (ds & r' & E).
  destruct c as [[] [] [] [] [] [] [] []]; cbv beta iota;
    first [exists ds, r'; exact E
          | match goal with
            | |- exists fp r2, (_, ?c :: r ++ _) = _ => exists [], (c :: r); reflexivity
            end].
Qed.

Lemma parse_decimal_snoc (u : str) : parse_decimal (u ++ ["m"%char]) = None.
Proof.
  unfold parse_decimal.
  destruct (span_digits_snoc u "m" eq_refl) as (ip & r1 & ->).
  destruct (fraction_snoc r1) as (fp & r2 & ->).
  destruct (ip ++ fp); [reflexivity|].
  rewrite parse_exponent_snoc. reflexivity.
Qed.

Lemma not_special_snoc (u : str) :
  str_eqb (map lower (u ++ ["m"%char])) (str_of "inf")
  || str_eqb (map lower (u ++ ["m"%char])) (str_of "infinity") = false
  /\ str_eqb (map lower (u ++ ["m"%char])) (str_of "nan") = false.
Proof.
  assert (H : forall w : str, str_eqb (map lower (u ++ ["m"%char])) w = true ->
              exists w', w = w' ++ ["m"%char]).
  { intros w E. apply str_eqb_eq in E. rewrite map_app in E.
    exists (map lower u). symmetry. exact E. }
  assert (Hn : forall (w' : str) (c : ascii), c <> "m"%char ->
               str_eqb (map lower (u ++ ["m"%char])) (w' ++ [c]) = false).
  { intros w' c Hc. destruct (str_eqb _ _) eqn:E; [|reflexivity].
    apply H in E as (w'' & E). apply app_inj_tail in E as [_ E]. contradiction. }
  split.
  - change (str_of "inf") with (str_of "in" ++ ["f"%char]).
    change (str_of "infinity") with (str_of "infinit" ++ ["y"%char]).
    rewrite !Hn by discriminate. reflexivity.
  - apply (Hn (str_of "na") "n"%char). discriminate.
Qed.

(** [float] accepts no string that ends with the letter [m]. *)
Lemma float_of_str_snoc_m (a : str) :
  float_of_str (a ++ ["m"%char]) = Raise ValueError.
Proof.
  unfold float_of_str.
  destruct (strip_snoc a "m" eq_refl) as (a1 & ->).
  destruct (remove_underscores_snoc a1 "m" eq_refl " "%char) as [->|(u & ->)];
    [reflexivity|].
  destruct (take_sign_snoc u) as (neg & u' & ->).
  destruct (not_special_snoc u') as [-> ->].
  rewrite parse_decimal_snoc. reflexivity.
Qed.

End SuffixFacts.

Module SuffixClaims.
Import StrFacts SuffixFacts.

(** The branch of [parse_time] for milliseconds is never reached: a string
    that ends in [ms] ends in [s], the branch for seconds takes it, and
    [float] refuses what is left, which ends in [m].  So [parse_time]
    raises a [ValueError] for every string that ends in [ms]. *)
Theorem parse_time_ms_suffix (time_str : string) :
  endswith (str_of time_str) (str_of "ms") = true ->
  parse_time time_str = Raise ValueError.
Proof.
  intros H. apply endswith_inv in H as (a & E).
  unfold parse_time. rewrite E.
  change (a ++ str_of "ms") with (a ++ ["m"%char] ++ ["s"%char]).
  change (str_of "s") with ["s"%char].
  rewrite app_assoc.
  rewrite (endswith_app (a ++ ["m"%char]) ["s"%char]).
  assert (Hs : slice_to_neg ((a ++ ["m"%char]) ++ ["s"%char]) 1 = a ++ ["m"%char]).
  { unfold slice_to_neg. rewrite length_app. cbn [List.length].
    replace (List.length (a ++ ["m"%char]) + 1 - 1)%nat
      with (List.length (a ++ ["m"%char]) + 0)%nat by lia.
    rewrite firstn_app_2. cbn. apply app_nil_r. }
  rewrite Hs, float_of_str_snoc_m. reflexivity.
Qed.

Lemma parse_time_ms_suffix_witness : parse_time "500ms" = Raise ValueError.
Proof. apply (parse_time_ms_suffix "500ms"). reflexivity. Defined.

(** A string that ends neither in [s] nor in [m] and has four fields or
    more between colons makes [parse_time] return [None]. *)
Theorem parse_time_many_fields (time_str : string) :
  endswith (str_of time_str) (str_of "s") = false ->
  endswith (str_of time_str) (str_of "m") = false ->
  (4 <= List.length (split ":" (str_of time_str)))%nat ->
  parse_time time_str = Ok PyNone.
Proof.
  intros Hs Hm Hlen. unfold parse_time. rewrite Hs, Hm.
  assert (Hms : endswith (str_of time_str) (str_of "ms") = false).
  { destruct (endswith _ (str_of "ms")) eqn:E; [|reflexivity].
    apply endswith_inv in E as (a & E).
    rewrite E in Hs.
    change (a ++ str_of "ms") with (a ++ ["m"%char] ++ str_of "s") in Hs.
    rewrite app_assoc, endswith_app in Hs. discriminate. }
  rewrite Hms.
  assert (Hc : contains ":" (str_of time_str) = true).
  { destruct (contains ":" (str_of time_str)) eqn:E; [reflexivity|].
    exfalso. revert Hlen.
    assert (Hsplit : split ":" (str_of time_str) = [str_of time_str]).
    { clear -E. induction (str_of time_str) as [|c s IH]; [reflexivity|].
      unfold contains in E. cbn [existsb] in E.
      apply orb_false_elim in E as [E1 E2].
      cbn [split]. unfold ascii_eqb in *. rewrite Ascii.eqb_sym, E1.
      rewrite (IH E2). reflexivity. }
    rewrite Hsplit. cbn. lia. }
  rewrite Hc.
  destruct (split ":" (str_of time_str)) as [|p1 [|p2 [|p3 [|p4 ps]]]];
    cbn in Hlen; try lia.
  reflexivity.
Qed.

Lemma parse_time_many_fields_witness : parse_time "1:2:3:4" = Ok PyNone.
Proof.
  apply (parse_time_many_fields "1:2:3:4"); [reflexivity | reflexivity | cbn; lia].
Defined.

End SuffixClaims.

(* ================================================================== *)
(** * The time parser on whole numbers and on decimals *)
(* ================================================================== *)

Module WholeFacts.
Import FloatFacts FrameFacts DigitFacts StrFacts ParseFacts SplitFacts.
Import DivmodFacts FormatFacts RoundTripFacts.

Lemma is_digit_value (c : ascii) : is_digit c = true -> 0 <= digit_value c <= 9.
Proof. intros H. ascii_cases c; unfold digit_value; cbn; lia. Qed.

Lemma digits_value_nonneg (ds : str) : all_digits ds -> 0 <= digits_value ds.
Proof.
  intros H. induction ds as [|c ds IH] using rev_ind.
  - cbn. lia.
  - apply Forall_app in H as [Hds Hc]. inversion Hc as [|? ? Hd _]; subst.
    rewrite digits_value_app, digits_value_single. cbn [List.length].
    pose proof (is_digit_value c Hd). specialize (IH Hds).
    change (10 ^ Z.of_nat 1) with 10. lia.
Qed.

(** [float] of a string of digits is the number they write, up to
    [2^53]. *)
Lemma float_of_digits (ds : str) :
  all_digits ds -> ds <> [] -> digits_value ds <= 2 ^ 53 ->
  exists q, float_of_str ds = Ok (FFin q) /\ (q == inject_Z (digits_value ds))%Q.
Proof.
  intros Ha Hne Hv. pose proof (digits_value_nonneg ds Ha) as H0.
  destruct (all_digits_head _ Ha Hne) as (c & t & E1 & Hc).
  destruct (all_digits_last _ Ha Hne) as (u & d & E2 & Hd).
  destruct (parse_decimal_int _ Ha Hne) as (q & Hq & Hqe).
  destruct (round64_of_Z q (digits_value ds) ltac:(lia) Hqe) as (q' & Hq' & He).
  exists q'. split; [|exact He].
  rewrite (float_of_str_parsed _ c d t u q E1 E2 Hc Hd (all_digits_plain _ Ha) Hq).
  rewrite Hq'. reflexivity.
Qed.

Lemma int_of_float_Z (q : Q) (k : Z) :
  (q == inject_Z k)%Q -> 0 <= k -> int_of_float (FFin q) = Ok k.
Proof.
  intros Hq Hk. cbn. f_equal.
  assert (H0 : (0 <= q)%Q) by (rewrite Hq; apply inject_Z_nonneg; exact Hk).
  rewrite Qtrunc_nonneg by exact H0.
  rewrite <- (Qfloor_Z k). apply Qfloor_comp. exact Hq.
Qed.

Lemma slice_to_neg_snoc (a : str) (c : ascii) : slice_to_neg (a ++ [c]) 1 = a.
Proof.
  unfold slice_to_neg. rewrite length_app. cbn [List.length].
  replace (List.length a + 1 - 1)%nat with (List.length a) by lia.
  rewrite firstn_app, Nat.sub_diag, firstn_all. cbn. apply app_nil_r.
Qed.

Lemma endswith_snoc (a : str) (c : ascii) : endswith (a ++ [c]) [c] = true.
Proof. apply endswith_app. Qed.

Lemma endswith_other (t u : str) (d c : ascii) :
  d <> c -> endswith (t ++ [d]) (u ++ [c]) = false.
Proof.
  intros Hn. destruct (endswith _ _) eqn:E; [|reflexivity].
  apply endswith_last in E. contradiction.
Qed.

Lemma contains_no_colon (s : str) : no_colon s -> contains ":" s = false.
Proof.
  induction 1 as [|c s Hc Hs IH]; [reflexivity|].
  unfold contains in *. cbn [existsb]. rewrite IH, orb_false_r.
  unfold ascii_eqb in *. rewrite Ascii.eqb_sym. exact Hc.
Qed.

End WholeFacts.

Module WholeClaims.
Import FloatFacts FrameFacts DigitFacts StrFacts ParseFacts SplitFacts.
Import DivmodFacts FormatFacts RoundTripFacts WholeFacts.

(** A whole number of seconds, written in digits (zeros in front
    allowed): alone or followed by [s] it is read as that many thousand
    milliseconds, followed by [m] as that many minutes, exactly. *)
Theorem parse_time_whole_number (ds : str) :
  all_digits ds -> ds <> [] -> digits_value ds * 60000 <= 2 ^ 53 ->
  parse_time (string_of_list_ascii ds)
  = Ok (PyInt (digits_value ds * 1000))
  /\ parse_time (string_of_list_ascii (ds ++ str_of "s"))
     = Ok (PyInt (digits_value ds * 1000))
  /\ parse_time (string_of_list_ascii (ds ++ str_of "m"))
     = Ok (PyInt (digits_value ds * 60 * 1000)).
Proof.
  intros Ha Hne Hv. pose proof (digits_value_nonneg ds Ha) as H0.
  destruct (float_of_digits ds Ha Hne ltac:(lia)) as (q & Hf & Hq).
  destruct (mul_lit_Z q _ 1000 Hq ltac:(lia)) as (q1 & Hm1 & Hq1).
  destruct (mul_lit_Z q _ 60 Hq ltac:(lia)) as (q2 & Hm2 & Hq2).
  destruct (mul_lit_Z q2 _ 1000 Hq2 ltac:(lia)) as (q3 & Hm3 & Hq3).
  split; [|split].
  - destruct (all_digits_last ds Ha Hne) as (u & d & E & Hd).
    destruct (endswith_digit u d Hd) as (H1 & H2 & H3). rewrite <- E in H1, H2, H3.
    unfold parse_time. rewrite str_of_string, H1, H2, H3.
    rewrite (contains_no_colon ds (all_digits_no_colon ds Ha)).
    rewrite Hf. cbn [bind ret_int]. rewrite Hm1.
    rewrite (int_of_float_Z q1 _ Hq1) by lia. reflexivity.
  - unfold parse_time. rewrite str_of_string.
    change (str_of "s") with ["s"%char].
    rewrite endswith_snoc, slice_to_neg_snoc, Hf. cbn [bind ret_int].
    rewrite Hm1, (int_of_float_Z q1 _ Hq1) by lia. reflexivity.
  - unfold parse_time. rewrite str_of_string.
    change (str_of "m") with ["m"%char]. change (str_of "s") with ([] ++ ["s"%char]).
    change (str_of "ms") with (["m"%char] ++ ["s"%char]).
    rewrite !endswith_other by discriminate.
    rewrite endswith_snoc, slice_to_neg_snoc, Hf. cbn [bind ret_int].
    rewrite Hm2, Hm3, (int_of_float_Z q3 _ Hq3) by lia. reflexivity.
Qed.

Lemma parse_time_whole_number_witness :
  parse_time "90" = Ok (PyInt 90000)
  /\ parse_time "90s" = Ok (PyInt 90000)
  /\ parse_time "90m" = Ok (PyInt 5400000).
Proof.
  apply (parse_time_whole_number (str_of "90")).
  - repeat constructor.
  - discriminate.
  - vm_compute. discriminate.
Defined.

(** Fields of digits between colons: [M:S] is read as [M] minutes and
    [S] seconds, [H:M:S] as [H] hours, [M] minutes and [S] seconds,
    exactly; the fields are not limited to 59. *)
Theorem parse_time_colon_fields (H Mi S : str) :
  all_digits H -> all_digits Mi -> all_digits S ->
  H <> [] -> Mi <> [] -> S <> [] ->
  digits_value H * 3600000 + digits_value Mi * 60000 + digits_value S * 1000
  <= 2 ^ 53 ->
  parse_time (string_of_list_ascii (Mi ++ ":"%char :: S))
  = Ok (PyInt (digits_value Mi * 60000 + digits_value S * 1000))
  /\ parse_time (string_of_list_ascii (H ++ ":"%char :: Mi ++ ":"%char :: S))
     = Ok (PyInt (digits_value H * 3600000 + digits_value Mi * 60000
                  + digits_value S * 1000)).
Proof.
  intros HH HM HS NH NM NS Hv.
  pose proof (digits_value_nonneg H HH) as H0.
  pose proof (digits_value_nonneg Mi HM) as M0.
  pose proof (digits_value_nonneg S HS) as S0.
  destruct (float_of_digits H HH NH ltac:(lia)) as (h & Hfh & Hh).
  destruct (float_of_digits Mi HM NM ltac:(lia)) as (m & Hfm & Hm).
  destruct (float_of_digits S HS NS ltac:(lia)) as (s & Hfs & Hs).
  destruct (mul_lit_Z h _ 3600 Hh ltac:(lia)) as (h1 & Eh1 & Hh1).
  destruct (mul_lit_Z h1 _ 1000 Hh1 ltac:(lia)) as (h2 & Eh2 & Hh2).
  destruct (mul_lit_Z m _ 60 Hm ltac:(lia)) as (m1 & Em1 & Hm1).
  destruct (mul_lit_Z m1 _ 1000 Hm1 ltac:(lia)) as (m2 & Em2 & Hm2).
  destruct (mul_lit_Z s _ 1000 Hs ltac:(lia)) as (s1 & Es1 & Hs1).
  destruct (add_Z m2 s1 _ _ Hm2 Hs1 ltac:(lia)) as (a1 & Ea1 & Ha1).
  destruct (add_Z h2 m2 _ _ Hh2 Hm2 ltac:(lia)) as (a2 & Ea2 & Ha2).
  destruct (add_Z a2 s1 _ _ Ha2 Hs1 ltac:(lia)) as (a3 & Ea3 & Ha3).
  destruct (all_digits_last S HS NS) as (u & d & E & Hd).
  split.
  - rewrite (parse_time_two_fields Mi S u d
               (all_digits_no_colon _ HM) (all_digits_no_colon _ HS) E Hd).
    rewrite Hfm, Hfs. cbn [bind ret_int]. rewrite Em1, Em2, Es1, Ea1.
    rewrite (int_of_float_Z a1 _ Ha1) by lia. unfold ret_int. cbn [bind]. apply f_equal, f_equal. lia.
  - rewrite (parse_time_three_fields H Mi S u d (all_digits_no_colon _ HH)
               (all_digits_no_colon _ HM) (all_digits_no_colon _ HS) E Hd).
    rewrite Hfh, Hfm, Hfs. cbn [bind ret_int].
    rewrite Eh1, Eh2, Em1, Em2, Es1, Ea2, Ea3.
    rewrite (int_of_float_Z a3 _ Ha3) by lia. unfold ret_int. cbn [bind]. apply f_equal, f_equal. lia.
Qed.

Lemma parse_time_colon_fields_witness :
  parse_time "1:90" = Ok (PyInt 150000)
  /\ parse_time "2:1:90" = Ok (PyInt 7350000).
Proof.
  apply (parse_time_colon_fields (str_of "2") (str_of "1") (str_of "90")).
  1-3: repeat constructor.
  1-3: discriminate.
  vm_compute. discriminate.
Defined.

End WholeClaims.

Module DecimalFacts.
Import FloatFacts FrameFacts DigitFacts StrFacts ParseFacts SplitFacts.
Import DivmodFacts FormatFacts RoundTripFacts WholeFacts.

(** [float] of digits, a point and three digits. *)
Lemma float_of_thousandths (I F : str) :
  all_digits I -> all_digits F -> I <> [] -> List.length F = 3%nat ->
  digits_value (I ++ F) <= 2 ^ 53 ->
  float_of_str (I ++ "."%char :: F)
  = Ok (FFin (round_real (inject_Z (digits_value (I ++ F)) / inject_Z 1000)))
  /\ no_colon (I ++ "."%char :: F)
  /\ exists u d, I ++ "."%char :: F = u ++ [d] /\ is_digit d = true.
Proof.
  intros HI HF HIne HFlen Hv.
  assert (HFne : F <> []) by (destruct F; [discriminate | discriminate]).
  assert (H0 : 0 <= digits_value (I ++ F)).
  { apply digits_value_nonneg, Forall_app. split; assumption. }
  destruct (all_digits_head I HI HIne) as (c & t & EI & Hc).
  destruct (all_digits_last F HF HFne) as (u & d & EF & Hd).
  assert (Elast : I ++ "."%char :: F = (I ++ "."%char :: u) ++ [d]).
  { rewrite EF, <- app_assoc. reflexivity. }
  assert (Hplain : plain (I ++ "."%char :: F)).
  { apply Forall_app. split; [apply all_digits_plain; exact HI|].
    constructor; [reflexivity | apply all_digits_plain; exact HF]. }
  destruct (parse_decimal_frac I F HI HF HIne) as (q & Hq & Hqe).
  rewrite HFlen in Hqe.
  split; [|split].
  - rewrite (float_of_str_parsed (I ++ "."%char :: F) c d (t ++ "."%char :: F)
               (I ++ "."%char :: u) q); try assumption.
    + f_equal.
      rewrite (round64_comp q (inject_Z (digits_value (I ++ F)) / inject_Z 1000)).
      * apply (round64_small _ 53); [unfold emin; lia | |].
        -- apply Qdiv_nonneg; [apply inject_Z_nonneg; lia | reflexivity].
        -- apply Qle_trans with (inject_Z (digits_value (I ++ F))).
           ++ apply Qdiv_le_self; [apply inject_Z_nonneg; lia | discriminate].
           ++ apply inject_Z_le_pow2; lia.
      * rewrite Hqe. reflexivity.
    + rewrite EI. reflexivity.
  - apply Forall_app. split; [apply all_digits_no_colon; exact HI|].
    constructor; [reflexivity | apply all_digits_no_colon; exact HF].
  - eauto.
Qed.

(** The product by [1000] of the float nearest to [n / 1000], as an
    integer. *)
Lemma thousandths_back (n : Z) :
  0 <= n -> n * 1000 < 2 ^ 51 ->
  int_of_float (mul (FFin (round_real (inject_Z n / inject_Z 1000))) (lit 1000))
  = Ok (frame_val n 1000).
Proof.
  intros H0 Hb.
  pose proof (frame_of_ms_ok n 1000 ltac:(lia) ltac:(lia)) as H.
  unfold frame_of_ms, int_truediv, mul_int, float_of_int in H.
  change (1000 =? 0) with false in H. cbv iota in H.
  rewrite (round64_small (inject_Z n / inject_Z 1000) 53) in H;
    [|unfold emin; lia | apply Qdiv_nonneg; [apply inject_Z_nonneg; lia | reflexivity] |].
  2:{ apply Qle_trans with (inject_Z n).
      - apply Qdiv_le_self; [apply inject_Z_nonneg; lia | discriminate].
      - apply inject_Z_le_pow2; lia. }
  cbn [bind] in H.
  destruct (round64_Z 1000 ltac:(lia)) as (q & Hq & Hqe).
  revert H. rewrite Hq. cbn [bind]. intros H. rewrite <- H.
  unfold mul, lit. f_equal. apply round64_comp. rewrite Hqe. reflexivity.
Qed.

Lemma endswith_shorter (x u : str) (c : ascii) :
  endswith x (u ++ [c]) = true -> endswith x [c] = true.
Proof.
  intros H. apply endswith_inv in H as [a E]. subst x.
  rewrite app_assoc. apply endswith_app.
Qed.

Lemma float_of_str_raises (s : str) (e : exn) :
  float_of_str s = Raise e -> e = ValueError.
Proof.
  unfold float_of_str. destruct (remove_underscores _ _); [|congruence].
  destruct (take_sign _) as [neg u].
  destruct (_ || _); [discriminate|].
  destruct (str_eqb _ _); [discriminate|].
  destruct (parse_decimal u); [discriminate | congruence].
Qed.

Lemma int_of_float_raises (x : float) (e : exn) :
  int_of_float x = Raise e -> e = ValueError \/ e = OverflowError.
Proof. destruct x; cbn; intros H; inversion H; auto. Qed.

Lemma int_of_str_raises (s : str) (e : exn) :
  int_of_str s = Raise e -> e = ValueError.
Proof.
  unfold int_of_str. destruct (remove_underscores _ _); [|congruence].
  destruct (take_sign _) as [neg u]. destruct (span_digits u) as [ds rest].
  destruct ds; [congruence|]. destruct rest; [discriminate | congruence].
Qed.

Lemma parse_time_raise_cases (time_str : string) (e : exn) :
  parse_time time_str = Raise e -> e = ValueError \/ e = OverflowError.
Proof.
  assert (Hone : forall (s : str) (f : float -> float),
             ret_int (x <- float_of_str s ;; int_of_float (f x)) = Raise e ->
             e = ValueError \/ e = OverflowError).
  { intros s f. destruct (float_of_str s) as [x|e0] eqn:E; cbn [bind ret_int].
    - unfold ret_int. destruct (int_of_float (f x)) eqn:E2; cbn [bind]; [discriminate|].
      intros H. inversion H; subst. apply (int_of_float_raises _ _ E2).
    - unfold ret_int. cbn [bind]. intros H. inversion H; subst.
      left. apply (float_of_str_raises _ _ E). }
  unfold parse_time.
  destruct (endswith _ (str_of "s")); [apply (Hone _ (fun x => mul x (lit 1000)))|].
  destruct (endswith _ (str_of "ms")).
  { unfold ret_int. destruct (int_of_str _) eqn:E; cbn [bind]; [discriminate|].
    intros H. inversion H; subst. left. apply (int_of_str_raises _ _ E). }
  destruct (endswith _ (str_of "m"));
    [apply (Hone _ (fun x => mul (mul x (lit 60)) (lit 1000)))|].
  destruct (contains _ _); [|apply (Hone _ (fun x => mul x (lit 1000)))].
  destruct (split _ _) as [|a [|b [|c [|d l]]]]; try discriminate.
  - unfold ret_int.
    destruct (float_of_str a) as [x|] eqn:Ea; cbn [bind];
      [|intros H; inversion H; subst; left; apply (float_of_str_raises _ _ Ea)].
    destruct (float_of_str b) as [y|] eqn:Eb; cbn [bind];
      [|intros H; inversion H; subst; left; apply (float_of_str_raises _ _ Eb)].
    destruct (int_of_float _) eqn:E2; cbn [bind]; [discriminate|].
    intros H. inversion H; subst. apply (int_of_float_raises _ _ E2).
  - unfold ret_int.
    destruct (float_of_str a) as [x|] eqn:Ea; cbn [bind];
      [|intros H; inversion H; subst; left; apply (float_of_str_raises _ _ Ea)].
    destruct (float_of_str b) as [y|] eqn:Eb; cbn [bind];
      [|intros H; inversion H; subst; left; apply (float_of_str_raises _ _ Eb)].
    destruct (float_of_str c) as [z|] eqn:Ec; cbn [bind];
      [|intros H; inversion H; subst; left; apply (float_of_str_raises _ _ Ec)].
    destruct (int_of_float _) eqn:E2; cbn [bind]; [discriminate|].
    intros H. inversion H; subst. apply (int_of_float_raises _ _ E2).
Qed.

End DecimalFacts.

Module DecimalClaims.
Import FloatFacts FrameFacts DigitFacts StrFacts ParseFacts SplitFacts.
Import DivmodFacts FormatFacts RoundTripFacts WholeFacts DecimalFacts.

(** Seconds written with three decimals, [I.F] with digits [I] and three
    digits [F]: with or without the final [s], [parse_time] returns the
    same number, which is the number of milliseconds written, or one
    less; it is never more and never two less. *)
Theorem parse_time_thousandths (I F : str) :
  all_digits I -> all_digits F -> I <> [] -> List.length F = 3%nat ->
  digits_value (I ++ F) * 1000 < 2 ^ 51 ->
  exists r : Z,
    parse_time (string_of_list_ascii (I ++ "."%char :: F)) = Ok (PyInt r)
    /\ parse_time (string_of_list_ascii ((I ++ "."%char :: F) ++ str_of "s"))
       = Ok (PyInt r)
    /\ digits_value (I ++ F) - 1 <= r <= digits_value (I ++ F).
Proof.
  intros HI HF HIne HFlen Hb.
  assert (H0 : 0 <= digits_value (I ++ F)).
  { apply digits_value_nonneg, Forall_app. split; assumption. }
  destruct (float_of_thousandths I F HI HF HIne HFlen ltac:(lia))
    as (Hf & Hnc & u & d & E & Hd).
  pose proof (thousandths_back _ H0 Hb) as Hback.
  exists (frame_val (digits_value (I ++ F)) 1000). split; [|split].
  - destruct (endswith_digit u d Hd) as (H1 & H2 & H3). rewrite <- E in H1, H2, H3.
    unfold parse_time. rewrite str_of_string, H1, H2, H3.
    rewrite (contains_no_colon _ Hnc), Hf. cbn [bind]. rewrite Hback. reflexivity.
  - unfold parse_time. rewrite str_of_string.
    change (str_of "s") with ["s"%char].
    rewrite endswith_snoc, slice_to_neg_snoc, Hf. cbn [bind].
    rewrite Hback. reflexivity.
  - destruct (frame_val_near (digits_value (I ++ F)) 1000 H0 ltac:(lia) Hb)
      as [Hn _].
    rewrite Z.div_mul in Hn by lia. exact Hn.
Qed.

Lemma parse_time_thousandths_witness :
  exists r : Z,
    parse_time "1.001" = Ok (PyInt r) /\ parse_time "1.001s" = Ok (PyInt r)
    /\ 1001 - 1 <= r <= 1001.
Proof.
  apply (parse_time_thousandths (str_of "1") (str_of "001")).
  1-2: repeat constructor.
  - discriminate.
  - reflexivity.
  - vm_compute. reflexivity.
Defined.

(** A millisecond is lost on [1.001s]. *)
Lemma parse_time_drops_millisecond : parse_time "1.001s" = Ok (PyInt 1000).
Proof. vm_compute. reflexivity. Qed.

(** A string that ends neither with [s] nor with [m] and holds no colon
    is read as seconds: adding a final [s] changes neither the result nor
    the exception. *)
Theorem parse_time_bare_seconds (x : str) :
  endswith x (str_of "s") = false -> endswith x (str_of "m") = false ->
  contains ":" x = false ->
  parse_time (string_of_list_ascii (x ++ str_of "s"))
  = parse_time (string_of_list_ascii x).
Proof.
  intros Hs Hm Hc. unfold parse_time. rewrite !str_of_string.
  assert (Hms : endswith x (str_of "ms") = false).
  { destruct (endswith x (str_of "ms")) eqn:E; [|reflexivity].
    apply (endswith_shorter x ["m"%char] "s"%char) in E.
    change (str_of "s") with ["s"%char] in Hs. congruence. }
  rewrite Hs, Hms, Hm, Hc.
  change (str_of "s") with ["s"%char].
  rewrite endswith_snoc, slice_to_neg_snoc. reflexivity.
Qed.

Lemma parse_time_bare_seconds_witness :
  parse_time "75.5s" = parse_time "75.5".
Proof.
  apply (parse_time_bare_seconds (str_of "75.5")); reflexivity.
Defined.

(** [parse_time] raises nothing but [ValueError] and [OverflowError],
    and it raises both: the second one for a number too large for [int],
    and it is not among the exceptions that [main] catches. *)
Theorem parse_time_raises :
  (forall (time_str : string) (e : exn),
      parse_time time_str = Raise e -> e = ValueError \/ e = OverflowError)
  /\ parse_time "five" = Raise ValueError
  /\ parse_time "1e999" = Raise OverflowError.
Proof.
  split; [exact parse_time_raise_cases|].
  split; vm_compute; reflexivity.
Qed.

End DecimalClaims.

(* ================================================================== *)
(** * The segment editor: how the operations compose *)
(* ================================================================== *)

Module RangeFacts.
Import FloatFacts FrameFacts WaveFacts CutterFacts.

Lemma firstn_skipn_app {A : Type} (n m : nat) (l : list A) :
  firstn n l ++ firstn m (skipn n l) = firstn (n + m) l.
Proof.
  revert l. induction n as [|n IH]; intros l; [reflexivity|].
  destruct l as [|x l]; [cbn; rewrite firstn_nil; reflexivity|].
  cbn. rewrite IH. reflexivity.
Qed.

(** Two ranges of frames that touch make one range. *)
Lemma frame_range_app (w : Wave_read) (a b c : Z) :
  0 <= framesize w -> 0 <= a <= b -> b <= c ->
  frame_range w a b ++ frame_range w b c = frame_range w a c.
Proof.
  intros Hfs Hab Hbc. unfold frame_range.
  replace (Z.to_nat (b * framesize w))
    with (Z.to_nat ((b - a) * framesize w) + Z.to_nat (a * framesize w))%nat by nia.
  rewrite <- skipn_skipn, firstn_skipn_app. f_equal. nia.
Qed.

Lemma frame_range_empty (w : Wave_read) (a : Z) : frame_range w a a = [].
Proof. unfold frame_range. rewrite Z.sub_diag. reflexivity. Qed.

Lemma frame_range_all (w : Wave_read) (b : Z) :
  frame_range w 0 b = firstn (Z.to_nat (b * framesize w)) (data w).
Proof. unfold frame_range. rewrite Z.sub_0_r. reflexivity. Qed.

End RangeFacts.

Module HistoryFacts.
Import FloatFacts FrameFacts WaveFacts CutterFacts RangeFacts.

Lemma readframes_moved (w : Wave_read) (p n : Z) :
  exists q, snd (readframes (set_soundpos w p) n) = set_soundpos w q.
Proof.
  unfold readframes. destruct (n =? 0); [exists p; reflexivity|].
  eexists. reflexivity.
Qed.

Lemma setpos_moved (w : Wave_read) (p pos : Z) :
  setpos (set_soundpos w p) pos = setpos w pos.
Proof. unfold setpos. cbn [nframes set_soundpos]. reflexivity. Qed.

Lemma wav_front_moved (self : WaveCutter) (p d : Z) :
  value (_wav_cut_from_front (moved self p) d) = value (_wav_cut_from_front self d)
  /\ forall b self', _wav_cut_from_front self d = Ok (b, self') ->
       exists q, self' = moved self q.
Proof.
  unfold _wav_cut_from_front, moved. cbn [sample_rate set_wave_file wave_file total_frames].
  destruct (frame_of_ms d (sample_rate self)) as [f|e]; cbn [bind];
    [|split; [reflexivity | discriminate]].
  rewrite setpos_moved. unfold setpos.
  destruct (_ || _); cbn [bind]; [split; [reflexivity | discriminate]|].
  change (set_soundpos (set_soundpos (wave_file self) p) f)
    with (set_soundpos (wave_file self) f).
  destruct (readframes_moved (wave_file self) f (total_frames self - f)) as [q Hq].
  destruct (readframes _ _) as [frames w']. cbn [snd] in Hq. subst w'.
  split; [reflexivity|]. intros b self' H. injection H as _ <-. exists q. reflexivity.
Qed.

Lemma wav_back_moved (self : WaveCutter) (p d : Z) :
  value (_wav_cut_from_back (moved self p) d) = value (_wav_cut_from_back self d)
  /\ forall b self', _wav_cut_from_back self d = Ok (b, self') ->
       exists q, self' = moved self q.
Proof.
  unfold _wav_cut_from_back, moved. cbn [sample_rate set_wave_file wave_file total_frames].
  destruct (frame_of_ms d (sample_rate self)) as [f|e]; cbn [bind];
    [|split; [reflexivity | discriminate]].
  rewrite setpos_moved. unfold setpos.
  destruct (_ || _); cbn [bind]; [split; [reflexivity | discriminate]|].
  change (set_soundpos (set_soundpos (wave_file self) p) 0)
    with (set_soundpos (wave_file self) 0).
  destruct (readframes_moved (wave_file self) 0 (total_frames self - f)) as [q Hq].
  destruct (readframes _ _) as [frames w']. cbn [snd] in Hq. subst w'.
  split; [reflexivity|]. intros b self' H. injection H as _ <-. exists q. reflexivity.
Qed.

Lemma wav_extract_moved (self : WaveCutter) (p s e : Z) :
  value (_wav_extract_segment (moved self p) s e)
  = value (_wav_extract_segment self s e)
  /\ forall b self', _wav_extract_segment self s e = Ok (b, self') ->
       exists q, self' = moved self q.
Proof.
  unfold _wav_extract_segment, moved.
  cbn [sample_rate set_wave_file wave_file total_frames].
  destruct (frame_of_ms s (sample_rate self)) as [f|?]; cbn [bind];
    [|split; [reflexivity | discriminate]].
  destruct (frame_of_ms e (sample_rate self)) as [g|?]; cbn [bind];
    [|split; [reflexivity | discriminate]].
  rewrite setpos_moved. unfold setpos.
  destruct (_ || _); cbn [bind]; [split; [reflexivity | discriminate]|].
  change (set_soundpos (set_soundpos (wave_file self) p) f)
    with (set_soundpos (wave_file self) f).
  destruct (readframes_moved (wave_file self) f (g - f)) as [q Hq].
  destruct (readframes _ _) as [frames w']. cbn [snd] in Hq. subst w'.
  split; [reflexivity|]. intros b self' H. injection H as _ <-. exists q. reflexivity.
Qed.

Lemma wav_middle_moved (self : WaveCutter) (p s e : Z) :
  value (_wav_cut_from_middle (moved self p) s e)
  = value (_wav_cut_from_middle self s e)
  /\ forall b self', _wav_cut_from_middle self s e = Ok (b, self') ->
       exists q, self' = moved self q.
Proof.
  unfold _wav_cut_from_middle, moved.
  cbn [sample_rate set_wave_file wave_file total_frames].
  destruct (frame_of_ms s (sample_rate self)) as [f|?]; cbn [bind];
    [|split; [reflexivity | discriminate]].
  destruct (frame_of_ms e (sample_rate self)) as [g|?]; cbn [bind];
    [|split; [reflexivity | discriminate]].
  rewrite setpos_moved.
  destruct (setpos (wave_file self) 0) as [w0|?] eqn:E0; cbn [bind];
    [|split; [reflexivity | discriminate]].
  assert (w0 = set_soundpos (wave_file self) 0) as ->.
  { unfold setpos in E0. destruct (_ || _); [discriminate|]. congruence. }
  change (set_soundpos (set_soundpos (wave_file self) p) 0)
    with (set_soundpos (wave_file self) 0).
  destruct (readframes_moved (wave_file self) 0 f) as [q1 Hq1].
  destruct (readframes (set_soundpos (wave_file self) 0) f) as [before w1].
  cbn [snd] in Hq1. subst w1.
  unfold setpos. cbn [nframes set_soundpos].
  destruct (_ || _); cbn [bind]; [split; [reflexivity | discriminate]|].
  destruct (readframes_moved (wave_file self) g (total_frames self - g)) as [q Hq].
  change (readframes {| framerate := framerate (wave_file self);
                        nchannels := nchannels (wave_file self);
                        sampwidth := sampwidth (wave_file self);
                        nframes := nframes (wave_file self);
                        data := data (wave_file self); soundpos := g |})
    with (readframes (set_soundpos (wave_file self) g)).
  destruct (readframes _ _) as [frames w']. cbn [snd] in Hq. subst w'.
  split; [reflexivity|]. intros b self' H. injection H as _ <-. exists q. reflexivity.
Qed.

Lemma moved_moved (self : WaveCutter) (p q : Z) :
  moved (moved self p) q = moved self q.
Proof. reflexivity. Qed.

End HistoryFacts.

Section EditorExtras.

Import FloatFacts FrameFacts WaveFacts CutterFacts RangeFacts HistoryFacts.

Variable AudioSegment : Type.
Variable seg_len : AudioSegment -> Z.
Variable seg_slice : AudioSegment -> option Z -> option Z -> AudioSegment.
Variable seg_add : AudioSegment -> AudioSegment -> AudioSegment.

Local Abbreviation cutter := (AudioCutter AudioSegment).

(** A call leaves a cutter that differs from the first one by the
    position of the file at most. *)
Lemma call_moves (c c' : cutter) :
  call seg_len seg_slice seg_add c c' ->
  match c with
  | Pydub _ => c' = c
  | Wave self => exists q, c' = Wave (moved self q)
  end.
Proof.
  assert (Hw : forall (r : result (list byte * WaveCutter)) (self : WaveCutter)
                      (x : AudioData AudioSegment),
             (forall b self', r = Ok (b, self') -> exists q, self' = moved self q) ->
             wav_result r = Ok (x, c') -> exists q, c' = Wave (moved self q)).
  { intros [[b s']|e] self x Hr H; cbn in H; [|discriminate].
    injection H as _ <-. destruct (Hr b s' eq_refl) as [q ->]. exists q. reflexivity. }
  intros [d x H|d x H|s e x H|s e x H].
  - unfold cut_from_front in H.
    destruct (d <=? 0); [discriminate|]. destruct (_ <=? d); [discriminate|].
    destruct c as [a|self]; [congruence|].
    apply (Hw _ self x (proj2 (wav_front_moved self 0 d)) H).
  - unfold cut_from_back in H.
    destruct (d <=? 0); [discriminate|]. destruct (_ <=? d); [discriminate|].
    destruct c as [a|self]; [congruence|].
    apply (Hw _ self x (proj2 (wav_back_moved self 0 d)) H).
  - unfold cut_from_middle in H.
    destruct (_ || _); [discriminate|]. destruct (e <=? s); [discriminate|].
    destruct (_ <? e); [discriminate|].
    destruct c as [a|self]; [congruence|].
    apply (Hw _ self x (proj2 (wav_middle_moved self 0 s e)) H).
  - unfold extract_segment in H.
    destruct (_ || _); [discriminate|]. destruct (e <=? s); [discriminate|].
    destruct (_ <? e); [discriminate|].
    destruct c as [a|self]; [congruence|].
    apply (Hw _ self x (proj2 (wav_extract_moved self 0 s e)) H).
Qed.

Lemma calls_move (c c' : cutter) :
  calls seg_len seg_slice seg_add c c' ->
  match c with
  | Pydub _ => c' = c
  | Wave self => exists q, c' = Wave (moved self q)
  end.
Proof.
  induction 1 as [|c' c'' _ IH Hc].
  - destruct c as [a|self]; [reflexivity|].
    exists (soundpos (wave_file self)). destruct self as [[] ? ? ? ? ?]. reflexivity.
  - apply call_moves in Hc. destruct c as [a|self].
    + subst c'. exact Hc.
    + destruct IH as [q ->]. destruct Hc as [q' ->]. exists q'. reflexivity.
Qed.

Lemma value_wav_result_eq (r r' : result (list byte * WaveCutter)) :
  value r = value r' ->
  value (wav_result r : result (AudioData AudioSegment * cutter))
  = value (wav_result r').
Proof.
  destruct r as [[b s]|e], r' as [[b' s']|e']; cbn; intros H;
    try discriminate; congruence.
Qed.

(** The result of a cutting method does not depend on the calls made
    before on the same cutter: after any number of successful calls, each
    of the four methods returns what it returns on the cutter as
    [__init__] built it, and fails when it fails there. *)
Theorem results_independent_of_history (c c' : cutter) :
  calls seg_len seg_slice seg_add c c' ->
  forall a b : Z,
    value (cut_from_front seg_len seg_slice c' a)
    = value (cut_from_front seg_len seg_slice c a)
    /\ value (cut_from_back seg_len seg_slice c' a)
       = value (cut_from_back seg_len seg_slice c a)
    /\ value (cut_from_middle seg_len seg_slice seg_add c' a b)
       = value (cut_from_middle seg_len seg_slice seg_add c a b)
    /\ value (extract_segment seg_len seg_slice c' a b)
       = value (extract_segment seg_len seg_slice c a b).
Proof.
  intros H a b. apply calls_move in H.
  destruct c as [audio|self]; [subst c'; auto|].
  destruct H as [q ->].
  unfold cut_from_front, cut_from_back, cut_from_middle, extract_segment.
  cbn [get_duration duration_ms moved set_wave_file].
  split; [|split; [|split]].
  - destruct (a <=? 0); [reflexivity|]. destruct (_ <=? a); [reflexivity|].
    apply value_wav_result_eq, wav_front_moved.
  - destruct (a <=? 0); [reflexivity|]. destruct (_ <=? a); [reflexivity|].
    apply value_wav_result_eq, wav_back_moved.
  - destruct (_ || _); [reflexivity|]. destruct (b <=? a); [reflexivity|].
    destruct (_ <? b); [reflexivity|].
    apply value_wav_result_eq, wav_middle_moved.
  - destruct (_ || _); [reflexivity|]. destruct (b <=? a); [reflexivity|].
    destruct (_ <? b); [reflexivity|].
    apply value_wav_result_eq, wav_extract_moved.
Qed.

(** The results of [cut_from_front] and [cut_from_back] on the raw-PCM
    backend, under their guards. *)
Lemma cut_front_back_facts (self : WaveCutter) (d : Z) :
  cutter_ok self -> 0 < d < duration_ms self ->
  let f := frame_val d (sample_rate self) in
  0 <= f <= total_frames self
  /\ value (cut_from_front seg_len seg_slice (Wave self : cutter) d)
     = Ok (Frames (frame_range (wave_file self) f (total_frames self)))
  /\ value (cut_from_back seg_len seg_slice (Wave self : cutter) d)
     = Ok (Frames (frame_range (wave_file self) 0 (total_frames self - f))).
Proof.
  intros Hc Hd f.
  destruct (frame_in_file self d Hc ltac:(lia)) as [_ Hb].
  split; [exact Hb|].
  unfold cut_from_front, cut_from_back. cbn [get_duration].
  replace (d <=? 0) with false by (symmetry; apply Z.leb_gt; lia).
  replace (duration_ms self <=? d) with false by (symmetry; apply Z.leb_gt; lia).
  split; apply value_wav_result.
  - apply wav_cut_from_front_value; [exact Hc | lia].
  - apply wav_cut_from_back_value; [exact Hc | lia].
Qed.

Lemma cutter_framesize (self : WaveCutter) :
  cutter_ok self ->
  framesize (wave_file self) = channels self * sample_width self
  /\ 0 < framesize (wave_file self).
Proof.
  intros Hc. split.
  - unfold framesize. rewrite (ok_channels self Hc), (ok_width self Hc). reflexivity.
  - apply framesize_pos, (ok_file self Hc).
Qed.

(** Two extractions that touch: on the raw-PCM backend, the segment from
    [a] to [b] followed by the segment from [b] to [c] is the segment from
    [a] to [c], byte for byte. *)
Theorem extract_adjacent (self : WaveCutter) (a b c : Z) :
  loaded (Wave self : cutter) ->
  0 <= a -> a < b -> b < c -> c <= duration_ms self ->
  exists x y : list byte,
    value (extract_segment seg_len seg_slice (Wave self) a b) = Ok (Frames x)
    /\ value (extract_segment seg_len seg_slice (Wave self) b c) = Ok (Frames y)
    /\ value (extract_segment seg_len seg_slice (Wave self) a c)
       = Ok (Frames (x ++ y)).
Proof.
  intros Hl Ha Hab Hbc Hcd. pose proof (loaded_wave _ self Hl) as Hc.
  destruct (cut_middle_extract_facts _ seg_len seg_slice seg_add self a b Hc
              ltac:(lia) ltac:(lia) ltac:(lia)) as (B1 & _ & X1).
  destruct (cut_middle_extract_facts _ seg_len seg_slice seg_add self b c Hc
              ltac:(lia) ltac:(lia) ltac:(lia)) as (B2 & _ & X2).
  destruct (cut_middle_extract_facts _ seg_len seg_slice seg_add self a c Hc
              ltac:(lia) ltac:(lia) ltac:(lia)) as (B3 & _ & X3).
  cbv zeta in *. do 2 eexists. split; [exact X1 | split; [exact X2|]].
  rewrite X3, frame_range_app; [reflexivity | | lia | lia].
  destruct (cutter_framesize self Hc). lia.
Qed.

(** Removing the middle is keeping the two ends: on the raw-PCM backend
    [cut_from_middle] from [s] to [e] returns what [extract_segment]
    returns from [0] to [s], followed by what [cut_from_front] returns for
    [e]; and from [0] to [e] it returns what [cut_from_front] returns. *)
Theorem cut_middle_composition (self : WaveCutter) (s e : Z) :
  loaded (Wave self : cutter) ->
  0 <= s -> s < e -> e < duration_ms self ->
  exists y : list byte,
    value (cut_from_front seg_len seg_slice (Wave self) e) = Ok (Frames y)
    /\ (s = 0 ->
        value (cut_from_middle seg_len seg_slice seg_add (Wave self) s e)
        = Ok (Frames y))
    /\ (0 < s ->
        exists x : list byte,
          value (extract_segment seg_len seg_slice (Wave self) 0 s)
          = Ok (Frames x)
          /\ value (cut_from_middle seg_len seg_slice seg_add (Wave self) s e)
             = Ok (Frames (x ++ y))).
Proof.
  intros Hl Hs Hse He. pose proof (loaded_wave _ self Hl) as Hc.
  destruct (cut_front_back_facts self e Hc ltac:(lia)) as (_ & F & _).
  destruct (cut_middle_extract_facts _ seg_len seg_slice seg_add self s e Hc
              ltac:(lia) ltac:(lia) ltac:(lia)) as (_ & M & _).
  cbv zeta in *. eexists. split; [exact F | split].
  - intros ->. rewrite M, frame_val_zero, frame_range_empty. reflexivity.
  - intros Hpos.
    destruct (cut_middle_extract_facts _ seg_len seg_slice seg_add self 0 s Hc
                ltac:(lia) ltac:(lia) ltac:(lia)) as (_ & _ & X).
    cbv zeta in X. rewrite frame_val_zero in X.
    eexists. split; [exact X | exact M].
Qed.

(** Splitting loses nothing: on the raw-PCM backend, what
    [extract_segment] returns from [0] to [d] followed by what
    [cut_from_front] returns for [d] is the whole sound, the
    [total_frames] frames of the data chunk. *)
Theorem split_reassembles (self : WaveCutter) (d : Z) :
  loaded (Wave self : cutter) -> 0 < d < duration_ms self ->
  exists x y : list byte,
    value (extract_segment seg_len seg_slice (Wave self) 0 d) = Ok (Frames x)
    /\ value (cut_from_front seg_len seg_slice (Wave self) d) = Ok (Frames y)
    /\ x ++ y
       = firstn (Z.to_nat (total_frames self * (channels self * sample_width self)))
                (data (wave_file self)).
Proof.
  intros Hl Hd. pose proof (loaded_wave _ self Hl) as Hc.
  destruct (cut_front_back_facts self d Hc Hd) as (Hb & F & _).
  destruct (cut_middle_extract_facts _ seg_len seg_slice seg_add self 0 d Hc
              ltac:(lia) ltac:(lia) ltac:(lia)) as (_ & _ & X).
  cbv zeta in *. rewrite frame_val_zero in X.
  destruct (cutter_framesize self Hc) as [Hfs Hpos].
  do 2 eexists. split; [exact X | split; [exact F|]].
  rewrite frame_range_app, frame_range_all, Hfs by lia. reflexivity.
Qed.

End EditorExtras.

Module DurationFacts.
Import FloatFacts FrameFacts WaveFacts CutterFacts.

(** The frame index the program computes, times [1000], is at most
    [1000] below the product [ms * rate] and never above it. *)
Lemma frame_val_tight (ms rate : Z) :
  0 <= ms -> 0 < rate -> ms * rate < 2 ^ 51 ->
  ms * rate - 1000 <= 1000 * frame_val ms rate <= ms * rate.
Proof.
  intros Hms Hr Hb.
  destruct (frame_val_near ms rate Hms Hr Hb) as [Hn He].
  pose proof (Z.div_mod (ms * rate) 1000 ltac:(lia)) as Hdm.
  pose proof (Z.mod_pos_bound (ms * rate) 1000 ltac:(lia)) as Hmod.
  destruct (Z.eq_dec ((ms * rate) mod 1000) 0) as [H0|Hne].
  - lia.
  - rewrite (He Hne). lia.
Qed.

Lemma duration_val_mono (frames frames' rate : Z) :
  0 <= frames <= frames' -> 0 < rate ->
  duration_val frames rate <= duration_val frames' rate.
Proof.
  intros Hf Hr. unfold duration_val. apply Qfloor_resp_le, round_mul_mono.
  - apply Qdiv_nonneg; [apply inject_Z_nonneg; lia | apply inject_Z_pos; exact Hr].
  - unfold Qdiv. apply Qmult_le_compat_r; [rewrite <- Zle_Qle; lia|].
    apply Qinv_le_0_compat, inject_Z_nonneg. lia.
  - discriminate.
Qed.

Local Open Scope Q_scope.

(** The duration the program computes, times the rate, is at most one
    rate below [1000 * frames] and never above it. *)
Lemma duration_val_tight (frames rate : Z) :
  (0 <= frames < 2 ^ 32)%Z -> (0 < rate < 2 ^ 32)%Z ->
  (rate * duration_val frames rate <= 1000 * frames
   <= rate * (duration_val frames rate + 1))%Z.
Proof.
  intros Hf Hr.
  destruct (Z.eq_dec frames 0) as [->|Hne].
  { rewrite duration_val_zero. lia. }
  assert (HR1 : 1 <= inject_Z rate).
  { change 1 with (inject_Z 1). rewrite <- Zle_Qle. lia. }
  assert (HR2 : inject_Z rate <= pow2 32) by (apply inject_Z_le_pow2; lia).
  assert (HT1 : 1 <= inject_Z frames).
  { change 1 with (inject_Z 1). rewrite <- Zle_Qle. lia. }
  assert (HT2 : inject_Z frames < inject_Z (2 ^ 32)) by (rewrite <- Zlt_Qlt; lia).
  assert (Hx : pow2 (-32) <= inject_Z frames / inject_Z rate).
  { apply Qle_shift_div_l; [lra|].
    assert (pow2 (-32) * pow2 32 == 1) by (rewrite <- pow2_add; reflexivity).
    pose proof (pow2_pos (-32)). nra. }
  destruct (round_mul_bounds _ (inject_Z 1000) (-32) ltac:(unfold emin; lia) Hx
              ltac:(discriminate)) as [Hlo Hhi].
  unfold duration_val.
  set (p := round_real (round_real (inject_Z frames / inject_Z rate) * inject_Z 1000)) in *.
  destruct (floor_bounds p) as [Hd1 Hd2].
  assert (Hq : inject_Z frames / inject_Z rate * inject_Z rate == inject_Z frames).
  { field. lra. }
  assert (Ha : (rate * Qfloor p < 1000 * frames + 1)%Z
               /\ (1000 * frames - 1 < rate * (Qfloor p + 1))%Z).
  { rewrite !Zlt_Qlt. unfold Z.sub.
    rewrite !inject_Z_plus, !inject_Z_mult, !inject_Z_plus.
    change (inject_Z 1000) with 1000 in *. change (inject_Z 1) with 1.
    change (inject_Z (- (1))) with (- (1)).
    change (inject_Z (2 ^ 32)) with 4294967296 in HT2.
    set (q := inject_Z frames / inject_Z rate) in *.
    set (T := inject_Z frames) in *. set (R := inject_Z rate) in *.
    set (D := inject_Z (Qfloor p)) in *.
    clearbody D p q T R. unfold eps in *.
    assert (HDR : D * R <= p * R) by (apply Qmult_le_compat_r; lra).
    assert (HDR' : p * R <= (D + 1) * R) by (apply Qmult_le_compat_r; lra).
    assert (HpR : p * R <= T * (1000 * ((1 + (1 # 9007199254740992)) * (1 + (1 # 9007199254740992))))).
    { apply Qle_trans with (q * 1000 * ((1 + (1 # 9007199254740992)) * (1 + (1 # 9007199254740992))) * R).
      - apply Qmult_le_compat_r; lra.
      - rewrite <- Hq. apply Qle_lteq. right. ring. }
    assert (HpR' : T * (1000 * ((1 - (1 # 9007199254740992)) * (1 - (1 # 9007199254740992)))) <= p * R).
    { apply Qle_trans with (q * 1000 * ((1 - (1 # 9007199254740992)) * (1 - (1 # 9007199254740992))) * R).
      - rewrite <- Hq. apply Qle_lteq. right. ring.
      - apply Qmult_le_compat_r; lra. }
    split; lra. }
  lia.
Qed.

End DurationFacts.

(* ================================================================== *)
(** * Lengths and durations of the results *)
(* ================================================================== *)

Section DurationClaims.

Import FloatFacts FrameFacts WaveFacts CutterFacts RangeFacts HistoryFacts.
Import DurationFacts.

Variable AudioSegment : Type.
Variable seg_len : AudioSegment -> Z.
Variable seg_slice : AudioSegment -> option Z -> option Z -> AudioSegment.
Variable seg_add : AudioSegment -> AudioSegment -> AudioSegment.

Local Abbreviation cutter := (AudioCutter AudioSegment).

(** The duration that [__init__] derives for a WAV file is
    [1000 * total_frames / sample_rate] rounded down, or one millisecond
    less; it is the first whenever the quotient is not a whole number. *)
Theorem duration_near_floor (self : WaveCutter) :
  loaded (Wave self : cutter) ->
  1000 * total_frames self / sample_rate self - 1 <= duration_ms self
  /\ duration_ms self <= 1000 * total_frames self / sample_rate self
  /\ ((1000 * total_frames self) mod sample_rate self <> 0 ->
      duration_ms self = 1000 * total_frames self / sample_rate self).
Proof.
  intros Hl. pose proof (loaded_wave _ self Hl) as Hc.
  destruct (total_frames_bounds self Hc) as [HT HR].
  pose proof (duration_val_tight _ _ HT HR) as Ht.
  rewrite <- (ok_duration self Hc) in Ht.
  set (T := total_frames self) in *. set (R := sample_rate self) in *.
  set (D := duration_ms self) in *.
  pose proof (Z.div_mod (1000 * T) R ltac:(lia)) as Hdm.
  pose proof (Z.mod_pos_bound (1000 * T) R ltac:(lia)) as Hm.
  set (F := 1000 * T / R) in *. set (m := (1000 * T) mod R) in *.
  assert (H1 : D <= F) by nia.
  assert (H2 : F - 1 <= D) by nia.
  split; [exact H2 | split; [exact H1|]].
  intros Hne. assert (F <= D) by nia. lia.
Qed.

(** The frames of a range of the file, counted as [main] counts them, and
    the duration [main] derives from them. *)
Lemma output_duration_range (self : WaveCutter) (a b : Z) :
  cutter_ok self -> 0 <= a <= b -> b <= total_frames self ->
  output_duration seg_len (Wave self : cutter)
    (Frames (frame_range (wave_file self) a b))
  = Ok (duration_val (b - a) (sample_rate self)).
Proof.
  intros Hc Hab Hb. destruct (total_frames_bounds self Hc) as [HT HR].
  destruct (frames_in_range self a b Hc Hab Hb) as [Hlen Hin].
  destruct (cutter_framesize self Hc) as [Hfs Hpos].
  unfold output_duration, int_floordiv. cbn [audio_len].
  replace (sample_width self * channels self =? 0) with false
    by (symmetry; apply Z.eqb_neq; lia).
  cbn [bind]. unfold frames_in in Hin. rewrite Hin.
  apply duration_of_frames_ok; lia.
Qed.

Lemma output_duration_app (self : WaveCutter) (a b c : Z) :
  cutter_ok self -> 0 <= a -> 0 <= b <= c -> c <= total_frames self ->
  a <= total_frames self -> a + (c - b) <= total_frames self ->
  output_duration seg_len (Wave self : cutter)
    (Frames (frame_range (wave_file self) 0 a ++ frame_range (wave_file self) b c))
  = Ok (duration_val (a + (c - b)) (sample_rate self)).
Proof.
  intros Hc Ha Hbc Hct Hat Hsum. destruct (total_frames_bounds self Hc) as [HT HR].
  destruct (frames_in_range self 0 a Hc ltac:(lia) Hat) as [L1 _].
  destruct (frames_in_range self b c Hc Hbc Hct) as [L2 _].
  destruct (cutter_framesize self Hc) as [Hfs Hpos].
  unfold output_duration, int_floordiv. cbn [audio_len].
  replace (sample_width self * channels self =? 0) with false
    by (symmetry; apply Z.eqb_neq; lia).
  cbn [bind]. rewrite length_app, Nat2Z.inj_add, L1, L2.
  replace ((a - 0) * (channels self * sample_width self)
           + (c - b) * (channels self * sample_width self))
    with ((a + (c - b)) * (sample_width self * channels self)) by lia.
  rewrite Z.div_mul by lia.
  apply duration_of_frames_ok; lia.
Qed.



End DurationClaims.

(* ================================================================== *)
(** * The conversions and the constructor *)
(* ================================================================== *)

Module MoreConversionClaims.
Import FloatFacts FrameFacts FormatFacts.

(** The conversion of milliseconds to frames keeps the order: a later time
    is never turned into an earlier frame, and no time below [2^64]
    makes the conversion fail. *)
Theorem frame_of_ms_monotone (ms ms' rate : Z) :
  0 <= ms -> ms <= ms' -> ms' < 2 ^ 64 -> 0 <= rate < 2 ^ 53 ->
  exists f f' : Z,
    frame_of_ms ms rate = Ok f /\ frame_of_ms ms' rate = Ok f' /\ 0 <= f <= f'.
Proof.
  intros H0 Hle Hb Hr. exists (frame_val ms rate), (frame_val ms' rate).
  split; [apply frame_of_ms_ok; lia|]. split; [apply frame_of_ms_ok; lia|].
  split; [apply frame_val_nonneg; lia | apply frame_val_mono; lia].
Qed.

Lemma frame_of_ms_monotone_witness :
  exists f f' : Z,
    frame_of_ms 350 44100 = Ok f /\ frame_of_ms 351 44100 = Ok f' /\ 0 <= f <= f'.
Proof.
  apply (frame_of_ms_monotone 350 351 44100); lia.
Defined.

(** Below [2^50] milliseconds [format_duration] prints what whole number
    arithmetic gives: the hours [v / 3600000] when there are some, the
    minutes [v / 60000 mod 60] and the seconds [v mod 60000 / 1000] on two
    digits at least, and the milliseconds [v mod 1000] on three digits.
    The binary64 operations of the function lose nothing. *)
Theorem format_duration_exact (v : Z) :
  0 <= v < 2 ^ 50 ->
  format_duration v = Ok (string_of_list_ascii (duration_str v))
  /\ duration_str v
     = (if 0 <? v / 3600000 then format_02d (v / 3600000) ++ [":"%char] else [])
       ++ format_02d (v / 60000 mod 60) ++ ":"%char
          :: zfill 2 (digits_of (v mod 60000 / 1000)) ++ "."%char
             :: zfill 3 (digits_of (v mod 1000)).
Proof.
  intros Hv. split; [apply format_duration_value; exact Hv|].
  unfold duration_str, seconds_str.
  pose proof (Z.mod_pos_bound v 60000 ltac:(lia)) as Hn.
  set (n := v mod 60000) in *.
  assert (Hm : n mod 1000 = v mod 1000).
  { unfold n. rewrite (Z.div_mod v 60000) at 2 by lia.
    replace (60000 * (v / 60000) + v mod 60000)
      with (v mod 60000 + 60 * (v / 60000) * 1000) by lia.
    rewrite Z_mod_plus_full. reflexivity. }
  rewrite Hm.
  assert (Hs : zfill 6 (digits_of (n / 1000) ++ "."%char :: zfill 3 (digits_of (v mod 1000)))
               = zfill 2 (digits_of (n / 1000)) ++ "."%char :: zfill 3 (digits_of (v mod 1000))).
  { pose proof (Z.mod_pos_bound v 1000 ltac:(lia)) as Hr.
    pose proof (DigitFacts.digits_of_length (v mod 1000) 3 ltac:(cbn; lia) ltac:(lia)) as Hl.
    pose proof (SplitFacts.zfill_length 3 _ Hl) as HF.
    rewrite (SplitFacts.zfill_eq 6), (SplitFacts.zfill_eq 2), length_app. cbn [List.length].
    rewrite HF, <- app_assoc.
    replace (6 - (List.length (digits_of (n / 1000)) + 4))%nat
      with (2 - List.length (digits_of (n / 1000)))%nat by lia.
    reflexivity. }
  rewrite Hs. destruct (0 <? v / 3600000); [|reflexivity].
  rewrite <- app_assoc. reflexivity.
Qed.

Lemma format_duration_exact_witness :
  format_duration 5025678 = Ok (string_of_list_ascii (duration_str 5025678))
  /\ duration_str 5025678
     = (if 0 <? 5025678 / 3600000 then format_02d (5025678 / 3600000) ++ [":"%char]
        else [])
       ++ format_02d (5025678 / 60000 mod 60) ++ ":"%char
          :: zfill 2 (digits_of (5025678 mod 60000 / 1000)) ++ "."%char
             :: zfill 3 (digits_of (5025678 mod 1000)).
Proof.
  apply (format_duration_exact 5025678). lia.
Defined.

End MoreConversionClaims.

(* ================================================================== *)
(** * Saving with pydub: the format *)
(* ================================================================== *)

Module PathFacts.
Import StrFacts.

Lemma split_absent (c : ascii) (s : str) :
  Forall (fun x => ascii_eqb x c = false) s -> split c s = [s].
Proof.
  induction 1 as [|x s Hx Hs IH]; [reflexivity|].
  cbn [split]. rewrite Hx, IH. reflexivity.
Qed.

Lemma rfind_absent (c : ascii) (s : str) :
  Forall (fun x => ascii_eqb x c = false) s -> rfind c s = None.
Proof.
  induction 1 as [|x s Hx Hs IH]; [reflexivity|].
  cbn [rfind]. rewrite IH, Hx. reflexivity.
Qed.

Lemma rfind_last (c : ascii) (a b : str) :
  Forall (fun x => ascii_eqb x c = false) b ->
  rfind c (a ++ c :: b) = Some (List.length a).
Proof.
  intros Hb. induction a as [|x a IH].
  - cbn [app rfind List.length]. rewrite (rfind_absent c b Hb).
    unfold ascii_eqb. rewrite Ascii.eqb_refl. reflexivity.
  - cbn [app rfind List.length]. rewrite IH. reflexivity.
Qed.

(** [Path] of a name without slash, other than the empty string and
    [.]: the name is the only component. *)
Lemma Path_name (s : str) :
  Forall (fun x => ascii_eqb x "/" = false) s ->
  s <> [] -> s <> str_of "." ->
  Path s = {| root := []; parts := [s] |}.
Proof.
  intros Hs Hne Hdot. unfold Path. rewrite (split_absent "/" s Hs).
  cbn [filter].
  assert (H1 : str_eqb s [] = false).
  { destruct s; [contradiction | reflexivity]. }
  assert (H2 : str_eqb s (str_of ".") = false).
  { destruct (str_eqb s (str_of ".")) eqn:E; [|reflexivity].
    apply str_eqb_eq in E. contradiction. }
  rewrite H1, H2. cbn [orb negb]. f_equal.
  destruct s as [|x s]; [contradiction|].
  inversion Hs as [|? ? Hx _]; subst. cbn [count_leading]. rewrite Hx. reflexivity.
Qed.

End PathFacts.

Section FormatClaims.

Import StrFacts PathFacts RoundTripFacts.

Variable AudioSegment : Type.
Variable export_ok : AudioSegment -> str -> str -> bool.


End FormatClaims.

Module FormatExamples.


End FormatExamples.

(* ================================================================== *)
(** * The constructor and the command line *)
(* ================================================================== *)

Section MainClaims.

Import FloatFacts FrameFacts WaveFacts CutterFacts RangeFacts HistoryFacts.
Import DurationFacts FormatFacts DecimalFacts.

Variable AudioSegment : Type.
Variable seg_len : AudioSegment -> Z.
Variable seg_slice : AudioSegment -> option Z -> option Z -> AudioSegment.
Variable seg_add : AudioSegment -> AudioSegment -> AudioSegment.
Variable export_ok : AudioSegment -> str -> str -> bool.

Local Abbreviation cutter := (AudioCutter AudioSegment).

Lemma init_raises (env : Env AudioSegment) (input_file : string) (e : exn) :
  AudioCutter_init env input_file = Raise e ->
  e = FileNotFoundError \/ e = ValueError.
Proof.
  unfold AudioCutter_init.
  destruct (negb (file_exists env)); [intros H; inversion H; auto|].
  destruct (PYDUB_AVAILABLE env).
  { destruct (from_file env); [discriminate | intros H; inversion H; auto]. }
  destruct (negb _); [intros H; inversion H; auto|].
  destruct (_ <- wave_open env ;; _); [discriminate | intros H; inversion H; auto].
Qed.

(** Without pydub the constructor returns a cutter of the [wave]
    backend, on the file that [wave.open] has returned. *)
Lemma init_wave_backend (env : Env AudioSegment) (input_file : string) (c : cutter) :
  PYDUB_AVAILABLE env = false -> AudioCutter_init env input_file = Ok c ->
  exists w self, wave_open env = Ok w /\ init_wave w = Ok self /\ c = Wave self.
Proof.
  intros Hp. unfold AudioCutter_init. rewrite Hp.
  destruct (negb (file_exists env)); [discriminate|].
  destruct (negb _); [discriminate|].
  destruct (wave_open env) as [w|]; cbn [bind]; [|discriminate].
  destruct (init_wave w) as [self|] eqn:E; [|discriminate].
  intros H. injection H as <-. exists w, self. auto.
Qed.

Lemma duration_ms_small (self : WaveCutter) :
  cutter_ok self -> 0 <= duration_ms self < 2 ^ 50.
Proof.
  intros Hc. destruct (total_frames_bounds self Hc) as [HT HR].
  destruct (duration_ms_bounds self Hc) as [H0 H1]. nia.
Qed.

Lemma show_info_wave (self : WaveCutter) (args : Args) :
  cutter_ok self ->
  show_info seg_len (Wave self : cutter) args
  = Ok (if info args
        then [("Audio duration: "
               ++ string_of_list_ascii (duration_str (duration_ms self)) ++ " ("
               ++ string_of_list_ascii (str_of_int (duration_ms self))
               ++ " ms)")%string]
        else []).
Proof.
  intros Hc. unfold show_info. destruct (info args); [|reflexivity].
  cbn [get_duration].
  rewrite (format_duration_value _ (duration_ms_small self Hc)). reflexivity.
Qed.

Lemma value_full {A S : Type} (r : result (A * S)) (a : A) :
  value r = Ok a -> exists s, r = Ok (a, s).
Proof.
  destruct r as [[a' s]|e]; cbn; intros H; [|discriminate].
  injection H as <-. exists s. reflexivity.
Qed.

(** What the two methods of one duration do on a cutter of the [wave]
    backend. *)
Lemma cut_front_back_cases (self : WaveCutter) (d : Z) :
  cutter_ok self ->
  ((d <= 0 \/ duration_ms self <= d)
   /\ cut_from_front seg_len seg_slice (Wave self : cutter) d = Raise ValueError
   /\ cut_from_back seg_len seg_slice (Wave self : cutter) d = Raise ValueError)
  \/ (0 < d < duration_ms self
      /\ exists q q',
          cut_from_front seg_len seg_slice (Wave self : cutter) d
          = Ok (Frames (frame_range (wave_file self)
                          (frame_val d (sample_rate self)) (total_frames self)),
                Wave (moved self q))
          /\ cut_from_back seg_len seg_slice (Wave self : cutter) d
             = Ok (Frames (frame_range (wave_file self) 0
                             (total_frames self - frame_val d (sample_rate self))),
                   Wave (moved self q'))).
Proof.
  intros Hc.
  destruct (Z_le_gt_dec d 0) as [H0|H0];
    [|destruct (Z_le_gt_dec (duration_ms self) d) as [H1|H1]].
  - left. split; [lia|]. unfold cut_from_front, cut_from_back.
    replace (d <=? 0) with true by (symmetry; apply Z.leb_le; lia).
    split; reflexivity.
  - left. split; [lia|]. unfold cut_from_front, cut_from_back. cbn [get_duration].
    replace (d <=? 0) with false by (symmetry; apply Z.leb_gt; lia).
    replace (duration_ms self <=? d) with true by (symmetry; apply Z.leb_le; lia).
    split; reflexivity.
  - right. split; [lia|].
    destruct (cut_front_back_facts _ seg_len seg_slice self d Hc ltac:(lia))
      as (_ & F & B).
    cbv zeta in F, B.
    apply value_full in F as [c1 F]. apply value_full in B as [c2 B].
    destruct (call_moves _ seg_len seg_slice seg_add (Wave self) c1
                (call_cut_from_front _ _ _ _ _ _ _ _ F)) as [q ->].
    destruct (call_moves _ seg_len seg_slice seg_add (Wave self) c2
                (call_cut_from_back _ _ _ _ _ _ _ _ B)) as [q' ->].
    exists q, q'. split; assumption.
Qed.

Lemma cut_middle_extract_cases (self : WaveCutter) (s e : Z) :
  cutter_ok self ->
  ((s < 0 \/ e < 0 \/ e <= s \/ duration_ms self < e)
   /\ cut_from_middle seg_len seg_slice seg_add (Wave self : cutter) s e
      = Raise ValueError
   /\ extract_segment seg_len seg_slice (Wave self : cutter) s e = Raise ValueError)
  \/ ((0 <= s /\ s < e /\ e <= duration_ms self)
      /\ exists q q',
          cut_from_middle seg_len seg_slice seg_add (Wave self : cutter) s e
          = Ok (Frames (frame_range (wave_file self) 0
                          (frame_val s (sample_rate self))
                        ++ frame_range (wave_file self)
                             (frame_val e (sample_rate self)) (total_frames self)),
                Wave (moved self q))
          /\ extract_segment seg_len seg_slice (Wave self : cutter) s e
             = Ok (Frames (frame_range (wave_file self)
                             (frame_val s (sample_rate self))
                             (frame_val e (sample_rate self))),
                   Wave (moved self q'))).
Proof.
  intros Hc.
  assert (Hdec : (s < 0 \/ e < 0 \/ e <= s \/ duration_ms self < e)
                 \/ (0 <= s /\ s < e /\ e <= duration_ms self)) by lia.
  destruct Hdec as [Hbad|Hok].
  - left. split; [exact Hbad|]. unfold cut_from_middle, extract_segment.
    cbn [get_duration].
    destruct ((s <? 0) || (e <? 0)) eqn:H0; [split; reflexivity|].
    apply orb_false_elim in H0 as [H1 H2]. apply Z.ltb_ge in H1, H2.
    destruct (e <=? s) eqn:H3; [split; reflexivity|]. apply Z.leb_gt in H3.
    replace (duration_ms self <? e) with true by (symmetry; apply Z.ltb_lt; lia).
    split; reflexivity.
  - right. split; [exact Hok|].
    destruct (cut_middle_extract_facts _ seg_len seg_slice seg_add self s e Hc
                ltac:(lia) ltac:(lia) ltac:(lia)) as (_ & M & X).
    cbv zeta in M, X.
    apply value_full in M as [c1 M]. apply value_full in X as [c2 X].
    destruct (call_moves _ seg_len seg_slice seg_add (Wave self) c1
                (call_cut_from_middle _ _ _ _ _ _ _ _ _ M)) as [q ->].
    destruct (call_moves _ seg_len seg_slice seg_add (Wave self) c2
                (call_extract_segment _ _ _ _ _ _ _ _ _ X)) as [q' ->].
    exists q, q'. split; assumption.
Qed.

Lemma save_audio_raises (c : cutter) (audio_data : AudioData AudioSegment)
    (output_file : string) (fmt : option string) (e : exn) :
  save_audio export_ok c audio_data output_file fmt = Raise e -> e = ValueError.
Proof.
  unfold save_audio. destruct c as [a|self].
  - destruct audio_data; [|congruence].
    destruct (export_ok _ _ _); [discriminate | congruence].
  - destruct (negb _).
    + unfold with_suffix. destruct (path_name _); cbn [bind]; [congruence|].
      destruct audio_data; [congruence|].
      destruct (wave_write _ _ _ _); [discriminate | congruence].
    + cbn [bind]. destruct audio_data; [congruence|].
      destruct (wave_write _ _ _ _); [discriminate | congruence].
Qed.

Lemma range_duration (self : WaveCutter) (a b : Z) :
  cutter_ok self -> 0 <= a <= b -> b <= total_frames self ->
  exists D',
    output_duration seg_len (Wave self : cutter)
      (Frames (frame_range (wave_file self) a b)) = Ok D'
    /\ 0 <= D' <= duration_ms self.
Proof.
  intros Hc Hab Hb. destruct (total_frames_bounds self Hc) as [HT HR].
  eexists. split; [apply output_duration_range; assumption|].
  rewrite (ok_duration self Hc). split.
  - apply duration_val_bound; lia.
  - apply duration_val_mono; lia.
Qed.

Lemma app_duration (self : WaveCutter) (a b : Z) :
  cutter_ok self -> 0 <= a <= b -> b <= total_frames self ->
  exists D',
    output_duration seg_len (Wave self : cutter)
      (Frames (frame_range (wave_file self) 0 a
               ++ frame_range (wave_file self) b (total_frames self))) = Ok D'
    /\ 0 <= D' <= duration_ms self.
Proof.
  intros Hc Hab Hb. destruct (total_frames_bounds self Hc) as [HT HR].
  eexists. split; [apply output_duration_app; try assumption; lia|].
  rewrite (ok_duration self Hc). split.
  - apply duration_val_bound; lia.
  - apply duration_val_mono; lia.
Qed.

Lemma operate_wave (self : WaveCutter) (args : Args) :
  cutter_ok self ->
  match operate seg_len seg_slice seg_add (Wave self : cutter) args with
  | Raise e => e = ValueError \/ e = OverflowError \/ e = TypeError
  | Ok r => operated seg_len self r
  end.
Proof.
  intros Hc. pose proof (duration_ms_small self Hc) as HD.
  assert (Hone : forall (t : string) (tail : string),
             match
               (duration_ms <- parse_time t ;;
                r <- with_duration duration_ms
                       (cut_from_front seg_len seg_slice (Wave self : cutter)) ;;
                u <- format_time duration_ms ;;
                Ok (Some (fst r, snd r, ("Cutting " ++ u ++ tail)%string)))
             with
             | Raise e => e = ValueError \/ e = OverflowError \/ e = TypeError
             | Ok r => operated seg_len self r
             end
             /\ match
               (duration_ms <- parse_time t ;;
                r <- with_duration duration_ms
                       (cut_from_back seg_len seg_slice (Wave self : cutter)) ;;
                u <- format_time duration_ms ;;
                Ok (Some (fst r, snd r, ("Cutting " ++ u ++ tail)%string)))
             with
             | Raise e => e = ValueError \/ e = OverflowError \/ e = TypeError
             | Ok r => operated seg_len self r
             end).
  { intros t tail. destruct (parse_time t) as [[d|]|e] eqn:Ep; cbn [bind].
    - cbn [with_duration format_time].
      destruct (cut_front_back_cases self d Hc)
        as [(_ & F & B)|(Hd & q & q' & F & B)].
      + rewrite F, B. cbn [bind]. auto.
      + rewrite F, B. cbn [bind fst snd].
        rewrite (format_duration_value d) by lia. cbn [bind operated].
        destruct (frame_in_file self d Hc ltac:(lia)) as [_ Hf].
        split.
        * destruct (range_duration self _ (total_frames self) Hc
                      ltac:(split; [apply Hf | apply Hf]) ltac:(lia)) as (D' & H1 & H2).
          eexists; exists q, D'; auto.
        * destruct (range_duration self 0 (total_frames self - frame_val d (sample_rate self))
                      Hc ltac:(lia) ltac:(lia)) as (D' & H1 & H2).
          eexists; exists q', D'; auto.
    - cbn [with_duration bind]. auto.
    - cbn [bind]. destruct (parse_time_raise_cases _ _ Ep); auto. }
  assert (Htwo : forall (s e : string) (head : string),
             match
               (start_ms <- parse_time s ;;
                end_ms <- parse_time e ;;
                r <- with_times start_ms end_ms
                       (cut_from_middle seg_len seg_slice seg_add (Wave self : cutter)) ;;
                t1 <- format_time start_ms ;;
                t2 <- format_time end_ms ;;
                Ok (Some (fst r, snd r, (head ++ t1 ++ " to " ++ t2)%string)))
             with
             | Raise e => e = ValueError \/ e = OverflowError \/ e = TypeError
             | Ok r => operated seg_len self r
             end
             /\ match
               (start_ms <- parse_time s ;;
                end_ms <- parse_time e ;;
                r <- with_times start_ms end_ms
                       (extract_segment seg_len seg_slice (Wave self : cutter)) ;;
                t1 <- format_time start_ms ;;
                t2 <- format_time end_ms ;;
                Ok (Some (fst r, snd r, (head ++ t1 ++ " to " ++ t2)%string)))
             with
             | Raise e => e = ValueError \/ e = OverflowError \/ e = TypeError
             | Ok r => operated seg_len self r
             end).
  { intros s e head. destruct (parse_time s) as [[a|]|x] eqn:Es; cbn [bind];
      [| |destruct (parse_time_raise_cases _ _ Es); auto].
    - destruct (parse_time e) as [[b|]|x] eqn:Ee; cbn [bind];
        [| |destruct (parse_time_raise_cases _ _ Ee); auto].
      + cbn [with_times format_time].
        destruct (cut_middle_extract_cases self a b Hc)
          as [(_ & M & X)|(Hab & q & q' & M & X)].
        * rewrite M, X. cbn [bind]. auto.
        * rewrite M, X. cbn [bind fst snd].
          rewrite (format_duration_value a), (format_duration_value b) by lia.
          cbn [bind operated].
          destruct (frame_in_file self a Hc ltac:(lia)) as [_ Hfa].
          destruct (frame_in_file self b Hc ltac:(lia)) as [_ Hfb].
          pose proof (frame_order self a b Hc ltac:(lia)) as Ho.
          split.
          -- destruct (app_duration self _ _ Hc
                         ltac:(split; [apply Hfa | exact Ho]) ltac:(apply Hfb))
               as (D' & H1 & H2).
             eexists; exists q, D'; auto.
          -- destruct (range_duration self _ _ Hc
                         ltac:(split; [apply Hfa | exact Ho]) ltac:(apply Hfb))
               as (D' & H1 & H2).
             eexists; exists q', D'; auto.
      + cbn [with_times]. destruct (a <? 0); cbn [bind]; auto.
    - destruct (parse_time e) as [[b|]|x] eqn:Ee; cbn [bind with_times];
        [auto | auto | destruct (parse_time_raise_cases _ _ Ee); auto]. }
  unfold operate.
  destruct (truthy (cut_front args)); [apply (Hone _ " from front"%string)|].
  destruct (truthy (cut_back args)); [apply (Hone _ " from back"%string)|].
  destruct (cut_middle args) as [[s e]|].
  { apply (Htwo s e "Cutting section from "%string). }
  destruct (extract args) as [[s e]|]; [|exact I].
  apply (Htwo s e "Extracting section from "%string).
Qed.

Lemma save_audio_wave_ok (self : WaveCutter) (b : list byte)
    (output_file : string) (fmt : option string) :
  cutter_ok self -> sample_width self <= 4 ->
  path_name (Path (str_of output_file)) <> [] ->
  exists p : PurePath,
    save_audio export_ok (Wave self : cutter) (Frames b) output_file fmt
    = Ok (p, Wav {| wav_nchannels := channels self;
                    wav_sampwidth := sample_width self;
                    wav_framerate := sample_rate self;
                    wav_frames := b |})
    /\ endswith (map lower (path_str p)) (str_of ".wav") = true.
Proof.
  intros Hc Hsw Hn. pose proof (ok_file self Hc) as Hw.
  assert (Hwrite : wave_write (channels self) (sample_width self) (sample_rate self) b
                   = Ok {| wav_nchannels := channels self;
                           wav_sampwidth := sample_width self;
                           wav_framerate := sample_rate self;
                           wav_frames := b |}).
  { unfold wave_write.
    pose proof (ok_nchannels _ Hw). pose proof (ok_sampwidth _ Hw).
    pose proof (ok_rate_pos self Hc).
    rewrite <- (ok_channels self Hc), <- (ok_width self Hc) in *.
    replace (channels self <? 1) with false by (symmetry; apply Z.ltb_ge; lia).
    replace (sample_width self <? 1) with false by (symmetry; apply Z.ltb_ge; lia).
    replace (4 <? sample_width self) with false by (symmetry; apply Z.ltb_ge; lia).
    replace (sample_rate self <=? 0) with false by (symmetry; apply Z.leb_gt; lia).
    reflexivity. }
  unfold save_audio.
  destruct (endswith (map lower (path_str (Path (str_of output_file)))) (str_of ".wav"))
    eqn:He; cbn [negb bind].
  - exists (Path (str_of output_file)). rewrite Hwrite. auto.
  - destruct (with_suffix_wav _ Hn) as (p' & Hp & Hend).
    exists p'. rewrite Hp. cbn [bind]. rewrite Hwrite. auto.
Qed.

Lemma loaded_cutter_ok (env : Env AudioSegment) (input_file : string)
    (self : WaveCutter) :
  (forall w, wave_open env = Ok w -> wave_ok w) ->
  AudioCutter_init env input_file = Ok (Wave self) -> cutter_ok self.
Proof.
  intros Hw Hi. apply (loaded_wave AudioSegment). exists env, input_file. auto.
Qed.




(** How [--cut-front] fails on the raw-PCM backend, once the input file is
    loaded.  A duration that [parse_time] refuses with a [ValueError], or
    reads as a number that is not positive or not below the duration of
    the source, makes [main] leave with [sys.exit(1)].  A duration for
    which [parse_time] returns [None], or raises an [OverflowError], makes
    a [TypeError] or that [OverflowError] go through [main]; the empty
    string makes an [UnboundLocalError] go through it.  In no case is
    [save_audio] called, and nothing is printed but the line of
    [--info]. *)
Theorem main_cut_front_failures (env : Env AudioSegment) (args : Args)
    (self : WaveCutter) (t : string) :
  (forall w, wave_open env = Ok w -> wave_ok w) ->
  AudioCutter_init env (input_file args) = Ok (Wave self) ->
  one_operation args -> cut_front args = Some t ->
  let r := main seg_len seg_slice seg_add export_ok env args in
  let fails (s : Status) :=
    status r = s /\ saved r = None
    /\ stdout r = (if info args
                   then [("Audio duration: "
                          ++ string_of_list_ascii (duration_str (duration_ms self))
                          ++ " (" ++ string_of_list_ascii (str_of_int (duration_ms self))
                          ++ " ms)")%string]
                   else []) in
  (t = EmptyString -> fails (Traceback UnboundLocalError))
  /\ (t <> EmptyString -> parse_time t = Raise ValueError ->
      fails (Exit1 ValueError))
  /\ (t <> EmptyString -> parse_time t = Raise OverflowError ->
      fails (Traceback (Propagated OverflowError)))
  /\ (t <> EmptyString -> parse_time t = Ok PyNone ->
      fails (Traceback (Propagated TypeError)))
  /\ (t <> EmptyString ->
      forall d, parse_time t = Ok (PyInt d) -> d <= 0 \/ duration_ms self <= d ->
      fails (Exit1 ValueError)).
Proof.
  intros Hw Hi Hone Hcf r fails.
  pose proof (loaded_cutter_ok _ _ _ Hw Hi) as Hc.
  assert (Hr : r = match operate seg_len seg_slice seg_add (Wave self : cutter) args with
                   | Raise e =>
                       handle e (if info args
                                 then [("Audio duration: "
                                        ++ string_of_list_ascii (duration_str (duration_ms self))
                                        ++ " (" ++ string_of_list_ascii (str_of_int (duration_ms self))
                                        ++ " ms)")%string]
                                 else []) None
                   | Ok None =>
                       {| status := Traceback UnboundLocalError;
                          stdout := (if info args
                                     then [("Audio duration: "
                                            ++ string_of_list_ascii (duration_str (duration_ms self))
                                            ++ " (" ++ string_of_list_ascii (str_of_int (duration_ms self))
                                            ++ " ms)")%string]
                                     else []);
                          saved := None |}
                   | Ok (Some _) => r
                   end).
  { unfold r, main. rewrite Hi, (show_info_wave self args Hc).
    destruct (operate _ _ _ _ _) as [[[[? ?] ?]|]|]; reflexivity. }
  assert (Hnot : t <> EmptyString ->
            operate seg_len seg_slice seg_add (Wave self : cutter) args
            = (duration_ms <- parse_time t ;;
               x <- with_duration duration_ms
                      (cut_from_front seg_len seg_slice (Wave self : cutter)) ;;
               u <- format_time duration_ms ;;
               Ok (Some (fst x, snd x, ("Cutting " ++ u ++ " from front")%string)))).
  { intros Ht. unfold operate. rewrite Hcf. cbn [truthy].
    replace (String.eqb t EmptyString) with false
      by (symmetry; apply String.eqb_neq; exact Ht).
    reflexivity. }
  split; [|split; [|split; [|split]]].
  - intros ->. unfold one_operation in Hone. rewrite Hcf in Hone.
    destruct (cut_back args) eqn:E1; [contradiction|].
    destruct (cut_middle args) eqn:E2; [contradiction|].
    destruct (extract args) eqn:E3; [contradiction|].
    unfold fails. rewrite Hr. unfold operate. rewrite Hcf, E1, E2, E3. cbn.
    auto.
  - intros Ht Hp. unfold fails. rewrite Hr, (Hnot Ht), Hp. cbn. auto.
  - intros Ht Hp. unfold fails. rewrite Hr, (Hnot Ht), Hp. cbn. auto.
  - intros Ht Hp. unfold fails. rewrite Hr, (Hnot Ht), Hp. cbn. auto.
  - intros Ht d Hp Hd. unfold fails. rewrite Hr, (Hnot Ht), Hp.
    cbn [bind with_duration].
    destruct (cut_front_back_cases self d Hc)
      as [(_ & F & _)|(Hok & _)]; [|lia].
    rewrite F. cbn. auto.
Qed.

End MainClaims.

Section InitClaims.

Import FloatFacts FrameFacts WaveFacts CutterFacts.

Variable AudioSegment : Type.


End InitClaims.

Module MoreExamples.
Import ExampleFacts.

Lemma long_wave_ok : wave_ok long_wave.
Proof. constructor; cbn; try lia; reflexivity. Defined.

Lemma long_env_ok (w : Wave_read) : wave_open long_env = Ok w -> wave_ok w.
Proof. intros H. injection H as <-. exact long_wave_ok. Defined.

Lemma long_init : AudioCutter_init long_env "in.wav" = Ok long_cutter.
Proof. vm_compute. reflexivity. Defined.

Lemma long_loaded : loaded long_cutter.
Proof. exists long_env, "in.wav"%string. split; [exact long_env_ok | exact long_init]. Defined.


Lemma results_independent_of_history_witness :
  value (cut_from_front ms_len ms_slice (Wave (moved example_self 16)) 1)
  = value (cut_from_front ms_len ms_slice example_cutter 1)
  /\ value (cut_from_back ms_len ms_slice (Wave (moved example_self 16)) 1)
     = value (cut_from_back ms_len ms_slice example_cutter 1)
  /\ value (cut_from_middle ms_len ms_slice ms_add (Wave (moved example_self 16)) 1 2)
     = value (cut_from_middle ms_len ms_slice ms_add example_cutter 1 2)
  /\ value (extract_segment ms_len ms_slice (Wave (moved example_self 16)) 1 2)
     = value (extract_segment ms_len ms_slice example_cutter 1 2).
Proof.
  apply (results_independent_of_history ms_segment ms_len ms_slice ms_add
           example_cutter (Wave (moved example_self 16))).
  apply (calls_more ms_segment ms_len ms_slice ms_add example_cutter example_cutter).
  - apply calls_none.
  - apply (call_cut_from_front ms_segment ms_len ms_slice ms_add example_cutter
             (Wave (moved example_self 16)) 1
             (Frames [x08; x09; x0a; x0b; x0c; x0d; x0e; x0f])).
    vm_compute. reflexivity.
Defined.

Lemma extract_adjacent_witness :
  exists x y : list byte,
    value (extract_segment ms_len ms_slice long_cutter 0 2) = Ok (Frames x)
    /\ value (extract_segment ms_len ms_slice long_cutter 2 5) = Ok (Frames y)
    /\ value (extract_segment ms_len ms_slice long_cutter 0 5) = Ok (Frames (x ++ y)).
Proof.
  apply (extract_adjacent ms_segment ms_len ms_slice ms_add long_self 0 2 5 long_loaded);
    cbn; lia.
Defined.

Lemma cut_middle_composition_witness :
  exists y : list byte,
    value (cut_from_front ms_len ms_slice long_cutter 3) = Ok (Frames y)
    /\ (1 = 0 ->
        value (cut_from_middle ms_len ms_slice ms_add long_cutter 1 3)
        = Ok (Frames y))
    /\ (0 < 1 ->
        exists x : list byte,
          value (extract_segment ms_len ms_slice long_cutter 0 1) = Ok (Frames x)
          /\ value (cut_from_middle ms_len ms_slice ms_add long_cutter 1 3)
             = Ok (Frames (x ++ y))).
Proof.
  apply (cut_middle_composition ms_segment ms_len ms_slice ms_add long_self 1 3
           long_loaded); cbn; lia.
Defined.

Lemma split_reassembles_witness :
  exists x y : list byte,
    value (extract_segment ms_len ms_slice long_cutter 0 2) = Ok (Frames x)
    /\ value (cut_from_front ms_len ms_slice long_cutter 2) = Ok (Frames y)
    /\ x ++ y = firstn (Z.to_nat (40 * (1 * 1))) (data long_wave).
Proof.
  apply (split_reassembles ms_segment ms_len ms_slice ms_add long_self 2 long_loaded).
  cbn. lia.
Defined.

Lemma duration_near_floor_witness :
  1000 * 40 / 8000 - 1 <= 5 /\ 5 <= 1000 * 40 / 8000
  /\ ((1000 * 40) mod 8000 <> 0 -> 5 = 1000 * 40 / 8000).
Proof.
  apply (duration_near_floor ms_segment long_self long_loaded).
Defined.





(** The run of the example, as it is printed. *)
Lemma cut_front_run_example :
  main ms_len ms_slice ms_add (fun _ _ _ => true) long_env (cut_front_args "0.002s")
  = {| status := Returned;
       stdout := ["Audio duration: 00:00.005 (5 ms)"%string;
                  "Cutting 00:00.002 from front"%string;
                  "Saved to: out.wav"%string;
                  "Output duration: 00:00.003 (3 ms)"%string];
       saved := Some ({| root := []; parts := [str_of "out.wav"] |},
                      Wav {| wav_nchannels := 1; wav_sampwidth := 1;
                             wav_framerate := 8000;
                             wav_frames :=
                               [x10; x11; x12; x13; x14; x15; x16; x17;
                                x18; x19; x1a; x1b; x1c; x1d; x1e; x1f;
                                x20; x21; x22; x23; x24; x25; x26; x27] |}) |}.
Proof. vm_compute. reflexivity. Qed.

Lemma main_cut_front_failures_witness :
  let r := main ms_len ms_slice ms_add (fun _ _ _ => true) long_env
             (cut_front_args "1:2:3:4") in
  let fails (s : Status) :=
    status r = s /\ saved r = None
    /\ stdout r = (if info (cut_front_args "1:2:3:4")
                   then [("Audio duration: "
                          ++ string_of_list_ascii (duration_str (duration_ms long_self))
                          ++ " (" ++ string_of_list_ascii (str_of_int (duration_ms long_self))
                          ++ " ms)")%string]
                   else []) in
  fails (Traceback (Propagated TypeError)).
Proof.
  destruct (main_cut_front_failures ms_segment ms_len ms_slice ms_add
              (fun _ _ _ => true) long_env (cut_front_args "1:2:3:4") long_self
              "1:2:3:4" long_env_ok long_init I eq_refl) as (_ & _ & _ & H & _).
  apply H; [discriminate | vm_compute; reflexivity].
Defined.


(** The run of that example, as it is printed. *)
Lemma extract_run_example :
  main ms_len ms_slice ms_add (fun _ _ _ => true) long_env
    (extract_args "0:00.001" "0:00.003")
  = {| status := Returned;
       stdout := ["Extracting section from 00:00.001 to 00:00.003"%string;
                  "Saved to: part.wav"%string;
                  "Output duration: 00:00.002 (2 ms)"%string];
       saved := Some ({| root := []; parts := [str_of "part.wav"] |},
                      Wav {| wav_nchannels := 1; wav_sampwidth := 1;
                             wav_framerate := 8000;
                             wav_frames :=
                               [x08; x09; x0a; x0b; x0c; x0d; x0e; x0f;
                                x10; x11; x12; x13; x14; x15; x16; x17] |}) |}.
Proof. vm_compute. reflexivity. Qed.

End MoreExamples.
